(** * rag_wpp: retrieval, reranking and triage workflow

    A shallow embedding of [src/retrieval/retrieval_workflow.py] and
    [src/retrieval/main_workflow.py].

    Modelling choices.
    - Floating-point numbers (distances, scores) are exact rationals [Q]:
      rounding, infinities and NaN are abstracted away.
    - A [Document] is a heap object (page content plus its mutable metadata
      dict); the state lists hold references ([loc]), so aliasing and
      in-place mutation are visible.
    - The external collaborators (the Chroma collection, the BM25
      retriever, the CrossEncoder, the Gemini chat model) are variables of
      the sections below; every call to one of them is recorded in the
      world's call log and may raise.
    - Python exceptions are an explicit result type; [except Exception]
      catches [Exception] but lets other [BaseException]s through. *)

From Stdlib Require Import QArith Qminmax Qabs Qfield Lqa Ascii.
From stdpp Require Import gmap strings list fin_maps sorting pretty.

Close Scope Q_scope.

(* ===================================================================== *)
(** ** Values, documents, exceptions *)
(* ===================================================================== *)

(** Values stored in a metadata dict. *)
Inductive Value : Type :=
| VFloat (x : Q)
| VInt (n : Z)
| VBool (b : bool)
| VStr (s : string).

(** langchain's [Document]: text plus a metadata dict. *)
Record Document : Type := mkDocument {
  page_content : string;
  metadata : gmap string Value
}.

(** References to [Document] objects. *)
Definition loc : Type := nat.

(** Raised exceptions: subclasses of [Exception], and the remaining
    [BaseException]s (KeyboardInterrupt, SystemExit, ...). [str(e)] is the
    message. *)
Inductive exn : Type :=
| Exception (cls msg : string)
| BaseException (cls msg : string).

Definition str_exn (e : exn) : string :=
  match e with
  | Exception _ msg => msg
  | BaseException _ msg => msg
  end.

Inductive Result (A : Type) : Type :=
| Ok (a : A)
| Raise (e : exn).
Arguments Ok {A} a.
Arguments Raise {A} e.

(** Calls that leave the process, in the order they are made. *)
Inductive Event : Type :=
| CollectionQuery (query_text : string) (n_results : nat)
| CollectionGet
| BM25Invoke (corpus : list Document) (k : nat) (query : string)
| RerankerPredict (pairs : list (string * string))
| QueryAI (system_prompt user_prompt : string)
| PrintLine (msg : string).

Record World : Type := mkWorld {
  heap : gmap loc Document;
  log : list Event
}.

(* ===================================================================== *)
(** ** The monad of node functions: state, call log and exceptions *)
(* ===================================================================== *)

Definition M (A : Type) : Type := World → Result A * World.

Definition ret {A} (a : A) : M A := λ w, (Ok a, w).

Definition bind {A B} (m : M A) (k : A → M B) : M B :=
  λ w, match m w with
       | (Ok a, w') => k a w'
       | (Raise e, w') => (Raise e, w')
       end.

Definition raise {A} (e : exn) : M A := λ w, (Raise e, w).

Declare Scope py_scope.
Delimit Scope py_scope with py.
Notation "'let*' x := m 'in' k" := (bind m (λ x, k))
  (at level 10, x name, m at level 100, k at level 200, only parsing) : py_scope.
Open Scope py_scope.

(** [try: body  except Exception as e: handler e]. *)
Definition try_except_Exception {A} (body : M A) (handler : exn → M A) : M A :=
  λ w, match body w with
       | (Raise (Exception cls msg), w') => handler (Exception cls msg) w'
       | r => r
       end.

Definition emit (ev : Event) : M unit :=
  λ w, (Ok tt, mkWorld (heap w) (log w ++ [ev])).

Definition lift {A} (r : Result A) : M A := λ w, (r, w).

(** An external call: logged, then its outcome. *)
Definition call {A} (ev : Event) (r : Result A) : M A :=
  let* _ := emit ev in lift r.

(** [Document(page_content=..., metadata=...)]: a fresh object. *)
Definition new_Document (d : Document) : M loc :=
  λ w, let l := fresh (dom (heap w)) in
       (Ok l, mkWorld (<[l := d]> (heap w)) (log w)).

(** Attribute read through a reference. A reference outside the heap cannot
    occur in Python; the model raises there. *)
Definition deref (l : loc) : M Document :=
  λ w, match heap w !! l with
       | Some d => (Ok d, w)
       | None => (Raise (BaseException "DanglingReference" ""), w)
       end.

(** [doc.metadata[k] = v]. *)
Definition metadata_setitem (l : loc) (k : string) (v : Value) : M unit :=
  let* d := deref l in
  (λ w, (Ok tt,
         mkWorld (<[l := mkDocument (page_content d) (<[k := v]> (metadata d))]> (heap w))
                 (log w))).

Fixpoint mapM {A B} (f : A → M B) (l : list A) : M (list B) :=
  match l with
  | [] => ret []
  | x :: l' => let* y := f x in let* ys := mapM f l' in ret (y :: ys)
  end.

(** [for x in l: body x]. *)
Fixpoint for_each {A} (l : list A) (body : A → M unit) : M unit :=
  match l with
  | [] => ret tt
  | x :: l' => let* _ := body x in for_each l' body
  end.

(** [enumerate(l)]. *)
Definition enumerate {A} (l : list A) : list (nat * A) := imap pair l.

(** [l[i]] on a Python list or a numpy array (non-negative index). *)
Definition getitem {A} (l : list A) (i : nat) : M A :=
  match l !! i with
  | Some x => ret x
  | None => raise (Exception "IndexError" "index out of range")
  end.

(** [zip(a, b, c)]: as long as the shortest argument. *)
Fixpoint zip3 {A B C} (a : list A) (b : list B) (c : list C) : list (A * B * C) :=
  match a, b, c with
  | x :: a', y :: b', z :: c' => (x, y, z) :: zip3 a' b' c'
  | _, _, _ => []
  end.

(** [sorted(l, key=key, reverse=True)]: Python's sort is stable, and
    [reverse=True] keeps elements with equal keys in their original order.
    Stable insertion into a descending list: [x], which comes first in the
    input, goes in front of the first element whose key is not greater. *)
Fixpoint insert_reverse {A} (key : A → Q) (x : A) (l : list A) : list A :=
  match l with
  | [] => [x]
  | y :: l' =>
      if Qlt_le_dec (key x) (key y)
      then y :: insert_reverse key x l'
      else x :: y :: l'
  end.

Definition sorted_reverse {A} (key : A → Q) (l : list A) : list A :=
  foldr (insert_reverse key) [] l.

#[global] Instance Qeq_decision (x y : Q) : Decision (x == y)%Q := Qeq_dec x y.

(** The order the sort leaves behind: keys do not increase. *)
Definition key_ge {A} (key : A → Q) (a b : A) : Prop := (key b <= key a)%Q.

(** numpy's [a.min()] and [a.max()]; [None] stands for the ValueError on an
    empty array. *)
Definition np_min (a : list Q) : option Q :=
  match a with
  | [] => None
  | x :: a' => Some (foldl Qmin x a')
  end.

Definition np_max (a : list Q) : option Q :=
  match a with
  | [] => None
  | x :: a' => Some (foldl Qmax x a')
  end.

Definition zero_size_error : exn :=
  Exception "ValueError" "zero-size array to reduction operation which has no identity".

(** Python's [a / b] on ints (true division). *)
Definition truediv (a b : nat) : M Q :=
  match b with
  | O => raise (Exception "ZeroDivisionError" "division by zero")
  | S _ => ret (inject_Z (Z.of_nat a) / inject_Z (Z.of_nat b))%Q
  end.

(* ===================================================================== *)
(** ** retrieval_workflow.py *)
(* ===================================================================== *)

Module retrieval_workflow.

Definition NR_RETRIEVED_DOCS : nat := 25.
Definition NR_FINAL_DOCS : nat := 5.

Record RetrievalInputState : Type := mkRetrievalInputState {
  query : string;
  semantic_docs : list loc;
  bm25_docs : list loc;
  retrieved_documents : list loc
}.

Record RetrievalOutputState : Type := mkRetrievalOutputState {
  o_query : string;
  o_retrieved_documents : list loc
}.

(** What [collection.query] returns: one row per query text. *)
Record QueryResult : Type := mkQueryResult {
  documents : list (list string);
  metadatas : list (list (option (gmap string Value)));
  distances : list (list Q)
}.

(** What [collection.get] returns. *)
Record GetResult : Type := mkGetResult {
  get_documents : list string;
  get_metadatas : list (option (gmap string Value))
}.

(** The metadata dict literal of [semantic_search_node]: the keys written
    after [**meta] override the ones of [meta]. *)
Definition vector_metadata (meta : option (gmap string Value)) (vector_score : Value)
  : gmap string Value :=
  <["retrieval_method" := VStr "vector"]>
    (<["context_score" := VFloat 0]>
       (<["colbert_score" := VFloat 0]>
          (<["bm25_score" := VFloat 0]>
             (<["vector_score" := vector_score]> (default ∅ meta))))).

(** The metadata dict literal of [bm25_search_node]. *)
Definition bm25_metadata (meta : gmap string Value) (bm25_score : Q)
  : gmap string Value :=
  <["retrieval_method" := VStr "bm25"]>
    (<["context_score" := VFloat 0]>
       (<["colbert_score" := VFloat 0]>
          (<["vector_score" := VFloat 0]>
             (<["bm25_score" := VFloat bm25_score]> meta)))).

(** [1e-6]. *)
Definition epsilon : Q := 1 # 1000000.

(** The conditional expression bound to [normalized_scores]. *)
Definition normalized_scores (scores : list Q) : M (list Q) :=
  match np_max scores, np_min scores with
  | Some mx, Some mn =>
      if Qlt_le_dec mn mx
      then ret (map (λ s, (s - mn) / (mx - mn + epsilon))%Q scores)
      else ret (map (λ _, 1 * (1 # 2))%Q scores)
  | _, _ => raise zero_size_error
  end.

Section nodes.

(** The Chroma collection, the BM25 retriever (built from the corpus, with
    its [k], then invoked) and the CrossEncoder. *)
Variable collection_query : string → nat → Result QueryResult.
Variable collection_get : Result GetResult.
Variable bm25_retriever_invoke : list Document → nat → string → Result (list Document).
Variable reranker_predict : list (string * string) → Result (list Q).

Definition semantic_search_node (state : RetrievalInputState) : M RetrievalInputState :=
  let* results := call (CollectionQuery (query state) NR_RETRIEVED_DOCS)
                       (collection_query (query state) NR_RETRIEVED_DOCS) in
  let* documents0 := getitem (documents results) 0 in
  let* metadatas0 := getitem (metadatas results) 0 in
  let* distances0 := getitem (distances results) 0 in
  let* docs :=
    mapM (λ '(doc, meta, dist),
            (* max(0, 1 - dist): the int 0 unless 1 - dist is greater *)
            let vector_score :=
              if Qlt_le_dec 0 (1 - dist) then VFloat (1 - dist) else VInt 0 in
            new_Document (mkDocument doc (vector_metadata meta vector_score)))
         (zip3 documents0 metadatas0 distances0) in
  ret (mkRetrievalInputState (query state) docs (bm25_docs state)
                             (retrieved_documents state)).

Definition bm25_search_node (state : RetrievalInputState) : M RetrievalInputState :=
  try_except_Exception
    (let* all_results := call CollectionGet collection_get in
     let all_docs :=
       map (λ '(doc, meta), mkDocument doc (default ∅ meta))
           (zip (get_documents all_results) (get_metadatas all_results)) in
     let* results :=
       call (BM25Invoke all_docs NR_RETRIEVED_DOCS (query state))
            (bm25_retriever_invoke all_docs NR_RETRIEVED_DOCS (query state)) in
     let* docs :=
       mapM (λ '(i, doc),
               let* r := truediv i (length results) in
               let bm25_score := (1 - r)%Q in
               new_Document (mkDocument (page_content doc)
                                        (bm25_metadata (metadata doc) bm25_score)))
            (enumerate results) in
     ret (mkRetrievalInputState (query state) (semantic_docs state) docs
                                (retrieved_documents state)))
    (λ e,
       let* _ := emit (PrintLine ("[ERROR] BM25 retrieval failed: " +:+ str_exn e)) in
       ret (mkRetrievalInputState (query state) (semantic_docs state) []
                                  (retrieved_documents state))).

Definition merge_and_rerank_node (state : RetrievalInputState) : M RetrievalOutputState :=
  let all_docs := semantic_docs state ++ bm25_docs state in
  match all_docs with
  | [] => ret (mkRetrievalOutputState (query state) [])
  | _ :: _ =>
      let* doc_texts := mapM (λ doc, let* d := deref doc in ret (page_content d)) all_docs in
      let pairs := map (λ doc_text, (query state, doc_text)) doc_texts in
      let* scores := call (RerankerPredict pairs) (reranker_predict pairs) in
      let* normalized := normalized_scores scores in
      let* _ :=
        for_each (enumerate all_docs)
          (λ '(i, doc),
             let* x := getitem normalized i in
             metadata_setitem doc "crossencoder_score" (VFloat x)) in
      let sorted_docs := map snd (sorted_reverse fst (zip scores all_docs)) in
      let top_docs := take NR_FINAL_DOCS sorted_docs in
      ret (mkRetrievalOutputState (query state) top_docs)
  end.

(** The compiled sub-graph:
    START -> semantic_search -> bm25_search -> merge_and_rerank -> END. *)
Definition retrieval_app (state : RetrievalInputState) : M RetrievalOutputState :=
  let* state := semantic_search_node state in
  let* state := bm25_search_node state in
  merge_and_rerank_node state.

End nodes.

End retrieval_workflow.

(* ===================================================================== *)
(** ** main_workflow.py *)
(* ===================================================================== *)

(** [sep.join(parts)]. *)
Fixpoint str_join (sep : string) (parts : list string) : string :=
  match parts with
  | [] => ""
  | [s] => s
  | s :: rest => s +:+ sep +:+ str_join sep rest
  end.

(** The two-character string of two newlines. *)
Definition blank_line : string :=
  String (Ascii.ascii_of_nat 10) (String (Ascii.ascii_of_nat 10) EmptyString).

Module main_workflow.

(** [InputState] is a [TypedDict] with [total=False]: every key may be
    absent. The dicts that nodes return are read as updates of it. *)
Record InputState : Type := mkInputState {
  query : option string;
  query_type : option string;
  retrieved_documents : option (list loc);
  answer : option string
}.

Record OutputState : Type := mkOutputState {
  o_answer : string
}.

(** [d[k]] on a dict whose key may be absent. *)
Definition getkey {A} (k : string) (v : option A) : M A :=
  match v with
  | Some x => ret x
  | None => raise (Exception "KeyError" k)
  end.

(** Where an edge leads. *)
Inductive Target : Type :=
| END
| Goto (node : string).

(** What [StateGraph(InputState, OutputState)] collects through [add_node],
    [set_entry_point], [add_edge] and [add_conditional_edges]. *)
Record StateGraph : Type := mkStateGraph {
  nodes : gmap string (InputState → M InputState);
  entry_point : string;
  edges : gmap string Target;
  conditional_edges : gmap string ((InputState → M string) * gmap string string)
}.

(** Writing a node's returned dict into the state: present keys overwrite. *)
Definition update (state upd : InputState) : InputState :=
  mkInputState
    (from_option Some (query state) (query upd))
    (from_option Some (query_type state) (query_type upd))
    (from_option Some (retrieved_documents state) (retrieved_documents upd))
    (from_option Some (answer state) (answer upd)).

(** A node that returns an [OutputState] dict sets the key [answer]. *)
Definition as_update (o : OutputState) : InputState :=
  mkInputState None None None (Some (o_answer o)).

(** LangGraph's default [recursion_limit]. *)
Definition recursion_limit : nat := 25.

(** Running a compiled graph from a node: the node function, then its
    outgoing edge. A conditional edge calls its router and looks the
    returned key up in the path map; a key that is not in the map selects
    no destination and the lookup fails. *)
Fixpoint run_from (g : StateGraph) (fuel : nat) (node : string) (state : InputState)
  : M InputState :=
  match fuel with
  | O => raise (Exception "GraphRecursionError" "recursion limit reached")
  | S fuel =>
      let* f := getkey node (nodes g !! node) in
      let* upd := f state in
      let state := update state upd in
      match conditional_edges g !! node with
      | Some (path, path_map) =>
          let* key := path state in
          let* dest := getkey key (path_map !! key) in
          run_from g fuel dest state
      | None =>
          match edges g !! node with
          | Some (Goto dest) => run_from g fuel dest state
          | Some END | None => ret state
          end
      end
  end.

(** [compile().invoke(input)]: the run from the entry point. The result is
    the state as the run leaves it, from which the caller reads [answer]
    ([result.get("answer", ...)] in [main.py]); an output schema, where one
    is in force, only drops the other keys. *)
Definition invoke (g : StateGraph) (input : InputState) : M InputState :=
  run_from g recursion_limit (entry_point g) input.

(** The branch table of [add_conditional_edges]. *)
Definition path_map : gmap string string :=
  <["DATA_QUESTION" := "retrieval"]> (<["OUT_OF_SCOPE" := "out_of_scope"]> ∅).

Section workflow.

Variable collection_query : string → nat → Result retrieval_workflow.QueryResult.
Variable collection_get : Result retrieval_workflow.GetResult.
Variable bm25_retriever_invoke : list Document → nat → string → Result (list Document).
Variable reranker_predict : list (string * string) → Result (list Q).

(** [query_ai] of [query_gemini.py], taken at its interface: system and
    user prompt in, the model's (stripped) text out. *)
Variable query_ai : string → string → Result string.

(** [prompt_templates["triage_prompt"]["system"]] and
    [prompt_templates["answer_generation_prompt"]["system"]]. *)
Variable triage_prompt_system : string.
Variable answer_generation_prompt_system : string.

Definition retrieval_app :=
  retrieval_workflow.retrieval_app
    collection_query collection_get bm25_retriever_invoke reranker_predict.

Definition triage_node (state : InputState) : M InputState :=
  let* query := getkey "query" (query state) in
  let user_prompt := "Evaluate user query: " +:+ query in
  let* triage_result :=
    call (QueryAI triage_prompt_system user_prompt)
         (query_ai triage_prompt_system user_prompt) in
  ret (mkInputState (Some query) (Some triage_result)
                    (retrieved_documents state) (answer state)).

Definition out_of_scope_node (state : InputState) : M OutputState :=
  ret (mkOutputState "Your query is out of scope.").

(** [retrieval_app.invoke(state)]: the sub-graph reads [query]; of what it
    returns, the main state takes [query] and [retrieved_documents]. *)
Definition retrieval (state : InputState) : M InputState :=
  let* query := getkey "query" (query state) in
  let* subgraph_output :=
    retrieval_app
      (retrieval_workflow.mkRetrievalInputState
         query [] [] (default [] (retrieved_documents state))) in
  ret (mkInputState (Some (retrieval_workflow.o_query subgraph_output)) None
                    (Some (retrieval_workflow.o_retrieved_documents subgraph_output))
                    None).

Definition generate_answer_node (state : InputState) : M OutputState :=
  let* query := getkey "query" (query state) in
  let* docs := getkey "retrieved_documents" (retrieved_documents state) in
  let* texts := mapM (λ doc, let* d := deref doc in ret (page_content d)) docs in
  let context := str_join blank_line texts in
  let user_prompt :=
    "Evaluate user query: " +:+ query +:+ " with context: " +:+ context in
  let* answer_result :=
    call (QueryAI answer_generation_prompt_system user_prompt)
         (query_ai answer_generation_prompt_system user_prompt) in
  ret (mkOutputState answer_result).

Definition returning_output (f : InputState → M OutputState) (state : InputState)
  : M InputState :=
  let* o := f state in ret (as_update o).

Definition workflow : StateGraph :=
  mkStateGraph
    (<["answer" := returning_output generate_answer_node]>
       (<["out_of_scope" := returning_output out_of_scope_node]>
          (<["retrieval" := retrieval]>
             (<["triage" := triage_node]> ∅))))
    "triage"
    (<["answer" := END]>
       (<["out_of_scope" := END]>
          (<["retrieval" := Goto "answer"]> ∅)))
    (<["triage" := (λ s, getkey "query_type" (query_type s), path_map)]> ∅).

Definition main_rag_app (input : InputState) : M InputState :=
  invoke workflow input.

End workflow.

End main_workflow.


(* ===================================================================== *)
(** ** Python string methods *)
(* ===================================================================== *)

(** A [str] is read as the sequence of its code points, each below 256. *)

(** [str.isspace] on one character: of the code points below 256, Python
    counts as whitespace 9-13, 28-31, 32, 133 and 160. *)
Definition isspace (c : ascii) : bool :=
  let n := nat_of_ascii c in
  ((9 <=? n) && (n <=? 13)) || ((28 <=? n) && (n <=? 32))
  || (n =? 133) || (n =? 160).

(** Membership of a character in a string of characters. *)
Fixpoint char_in (chars : string) (c : ascii) : bool :=
  match chars with
  | EmptyString => false
  | String c' chars' => Ascii.eqb c c' || char_in chars' c
  end.

(** [s.lstrip(...)] and [s.rstrip(...)] for a set of characters [p]. *)
Fixpoint lstrip (p : ascii → bool) (s : string) : string :=
  match s with
  | EmptyString => EmptyString
  | String c s' => if p c then lstrip p s' else s
  end.

Fixpoint rstrip (p : ascii → bool) (s : string) : string :=
  match s with
  | EmptyString => EmptyString
  | String c s' =>
      match rstrip p s' with
      | EmptyString => if p c then EmptyString else String c EmptyString
      | r => String c r
      end
  end.

(** [s.strip()] and [s.strip(chars)]. *)
Definition str_strip (s : string) : string := rstrip isspace (lstrip isspace s).

Definition str_strip_chars (chars : string) (s : string) : string :=
  rstrip (char_in chars) (lstrip (char_in chars) s).

(** [sub in s]. *)
Fixpoint str_contains (sub s : string) : bool :=
  String.prefix sub s
  || match s with
     | EmptyString => false
     | String _ s' => str_contains sub s'
     end.

(** [s.split(sep)] for a non-empty [sep]: the pieces between the
    occurrences of [sep], found from left to right without overlap. The
    auxiliary function returns the piece being read and the pieces after
    it; [skip] counts the characters of a found separator still to pass. *)
Fixpoint str_split_aux (sep : string) (skip : nat) (s : string) : string * list string :=
  match s with
  | EmptyString => (EmptyString, [])
  | String c s' =>
      match skip with
      | S k => str_split_aux sep k s'
      | O =>
          if String.prefix sep s
          then let '(piece, pieces) := str_split_aux sep (String.length sep - 1) s' in
               (EmptyString, piece :: pieces)
          else let '(piece, pieces) := str_split_aux sep 0 s' in
               (String c piece, pieces)
      end
  end.

Definition str_split (sep s : string) : list string :=
  let '(piece, pieces) := str_split_aux sep 0 s in piece :: pieces.

(** The one-character string of a newline. *)
Definition newline : string := String (Ascii.ascii_of_nat 10) EmptyString.

(** [s * n]. *)
Fixpoint str_repeat (s : string) (n : nat) : string :=
  match n with
  | O => EmptyString
  | S n => s +:+ str_repeat s n
  end.

(** [enumerate(l, start=k)]. *)
Definition enumerate_from {A} (start : nat) (l : list A) : list (nat * A) :=
  imap (λ i x, (start + i, x)) l.

(* ===================================================================== *)
(** ** query_gemini.py *)
(* ===================================================================== *)

Module query_gemini.

Section query_ai.

(** [chat.invoke] on the system and the user message: the content of the
    response. *)
Variable chat_invoke : string → string → Result string.

Definition query_ai (system_prompt user_prompt : string) : Result string :=
  match chat_invoke system_prompt user_prompt with
  | Ok content =>
      Ok (if bool_decide (content = EmptyString) then EmptyString
          else str_strip content)
  | Raise e => Raise e
  end.

End query_ai.

End query_gemini.

(* ===================================================================== *)
(** ** main.py *)
(* ===================================================================== *)

Module main.

(** The list comprehension that turns the model's text into questions. *)
Definition questions (questions_text : string) : list string :=
  map (λ q, str_strip (str_strip_chars "12345. " q))
      (filter (λ q, str_strip q ≠ EmptyString) (str_split newline questions_text)).

Section script.

Variable collection_query : string → nat → Result retrieval_workflow.QueryResult.
Variable collection_get : Result retrieval_workflow.GetResult.
Variable bm25_retriever_invoke : list Document → nat → string → Result (list Document).
Variable reranker_predict : list (string * string) → Result (list Q).
Variable chat_invoke : string → string → Result string.

(** The prompt templates the script and the workflow read. *)
Variable triage_prompt_system : string.
Variable answer_generation_prompt_system : string.
Variable generate_questions_prompt_system : string.
Variable generate_questions_prompt_user : string.

Definition query_ai : string → string → Result string :=
  query_gemini.query_ai chat_invoke.

Definition main_rag_app : main_workflow.InputState → M main_workflow.InputState :=
  main_workflow.main_rag_app
    collection_query collection_get bm25_retriever_invoke reranker_predict
    query_ai triage_prompt_system answer_generation_prompt_system.

(** The body of the [for] loop. *)
Definition ask (idx : nat) (question : string) : M unit :=
  let* result :=
    main_rag_app (main_workflow.mkInputState (Some question) None None None) in
  let answer := default "[No answer returned]" (main_workflow.answer result) in
  let* _ := emit (PrintLine ("Q" +:+ pretty idx +:+ ": " +:+ question)) in
  emit (PrintLine ("A" +:+ pretty idx +:+ ": " +:+ answer +:+ newline
                   +:+ str_repeat "-" 60 +:+ newline)).

(** The script, top to bottom. *)
Definition script : M unit :=
  let* questions_text :=
    call (QueryAI generate_questions_prompt_system generate_questions_prompt_user)
         (query_ai generate_questions_prompt_system generate_questions_prompt_user) in
  let questions := questions questions_text in
  let* _ :=
    emit (PrintLine (newline +:+ "=== Running RAG Workflow on Generated Questions ==="
                     +:+ newline)) in
  for_each (enumerate_from 1 questions) (λ '(idx, question), ask idx question).

End script.

End main.

(* ===================================================================== *)
(** ** ingest/chunk_documents.py *)
(* ===================================================================== *)

Module chunk_documents.

Definition split_token : string := "images={".

Definition clean_text (text : string) : string :=
  if str_contains split_token text
  then default EmptyString (head (str_split split_token text))
  else text.

(** The three list comprehensions of [main] that prepare the records of one
    file: [summary] is the generated summary, [name] and [stem] are
    [file_path.name] and [file_path.stem], [chunks] the split text. *)
Definition documents (summary : string) (chunks : list string) : list string :=
  map (λ chunk, summary +:+ newline +:+ newline +:+ chunk) chunks.

Definition metadatas (name : string) (chunks : list string) : list (gmap string Value) :=
  map (λ i, <["chunk_index" := VInt (Z.of_nat i)]> (<["source" := VStr name]> ∅))
      (seq 0 (length chunks)).

Definition ids (stem : string) (chunks : list string) : list string :=
  map (λ i, stem +:+ "_chunk_" +:+ pretty i) (seq 0 (length chunks)).

End chunk_documents.
(* ===================================================================== *)
(** ** Vocabulary of the statements *)
(* ===================================================================== *)

Import retrieval_workflow.

(** The texts the reranker is given for the documents [ls]. *)
Definition page_contents (h : gmap loc Document) (ls : list loc) : list string :=
  omap (λ l, page_content <$> h !! l) ls.

Definition pairs_of (q : string) (h : gmap loc Document) (ls : list loc)
  : list (string * string) :=
  map (λ doc_text, (q, doc_text)) (page_contents h ls).

(** A document after [doc.metadata["crossencoder_score"] = x]. *)
Definition with_crossencoder_score (x : Q) (d : Document) : Document :=
  mkDocument (page_content d) (<["crossencoder_score" := VFloat x]> (metadata d)).

(** The heap after the loop that stores the scores, written directly. *)
Definition store_scores (h : gmap loc Document) (lx : list (loc * Q))
  : gmap loc Document :=
  foldl (λ h '(l, x), alter (with_crossencoder_score x) l h) h lx.

(** Every reference of [ls] points to a live object. *)
Definition allocated (w : World) (ls : list loc) : Prop :=
  Forall (λ l, is_Some (heap w !! l)) ls.


(** One entry of [normalized_scores], for a batch with the given minimum and
    maximum. *)
Definition min_max_scale (mn mx s : Q) : Q :=
  if Qlt_le_dec mn mx
  then ((s - mn) / (mx - mn + epsilon))%Q
  else (1 * (1 # 2))%Q.

(** What a document's metadata holds under a key. *)
Definition metadata_of (w : World) (l : loc) (k : string) : option Value :=
  d ← heap w !! l; metadata d !! k.

(** The concatenated candidate batch, [all_docs]. *)
Definition all_docs (state : RetrievalInputState) : list loc :=
  semantic_docs state ++ bm25_docs state.

(** The pairs the CrossEncoder is called with. *)
Definition pairs (state : RetrievalInputState) (w : World) : list (string * string) :=
  pairs_of (query state) (heap w) (all_docs state).

(** The document [semantic_search_node] builds from one row of the query
    result. *)
Definition vector_document (row : string * option (gmap string Value) * Q) : Document :=
  let '(doc, meta, dist) := row in
  mkDocument doc
    (vector_metadata meta
       (if Qlt_le_dec 0 (1 - dist) then VFloat (1 - dist) else VInt 0)).

(** The document [bm25_search_node] builds for the result at rank [i] out of
    [m] results. *)
Definition bm25_document (m : nat) (ranked : nat * Document) : Document :=
  let '(i, doc) := ranked in
  mkDocument (page_content doc)
    (bm25_metadata (metadata doc)
       (1 - inject_Z (Z.of_nat i) / inject_Z (Z.of_nat m))).

(** The corpus [bm25_search_node] hands to the BM25 retriever. *)
Definition corpus_of (all_results : GetResult) : list Document :=
  map (λ '(doc, meta), mkDocument doc (default ∅ meta))
      (zip (get_documents all_results) (get_metadatas all_results)).

(** The lexical search fails with an [Exception]: in [collection.get], or
    while the retriever is built and invoked. *)
Definition bm25_fails (collection_get : Result GetResult)
    (bm25_retriever_invoke : list Document → nat → string → Result (list Document))
    (state : RetrievalInputState) (e : exn) : Prop :=
  (∃ cls msg, e = Exception cls msg)
  ∧ (collection_get = Raise e
     ∨ ∃ all_results,
         collection_get = Ok all_results
         ∧ bm25_retriever_invoke (corpus_of all_results) NR_RETRIEVED_DOCS (query state)
           = Raise e).

(** Calls to the CrossEncoder, and to either retrieval index, in a log. *)
Definition is_reranker_call (ev : Event) : bool :=
  match ev with RerankerPredict _ => true | _ => false end.

Definition is_retrieval_call (ev : Event) : bool :=
  match ev with
  | CollectionQuery _ _ | CollectionGet | BM25Invoke _ _ _ => true
  | _ => false
  end.

(** The CrossEncoder keeps its contract: it answers, with one score per
    pair. *)
Definition reranker_aligned (reranker_predict : list (string * string) → Result (list Q))
  : Prop :=
  ∀ pairs, ∃ scores, reranker_predict pairs = Ok scores ∧ length scores = length pairs.

(** Every character of a string satisfies [p]. *)
Fixpoint str_forall (p : ascii → bool) (s : string) : bool :=
  match s with
  | EmptyString => true
  | String c s' => p c && str_forall p s'
  end.

(** The first and the last character of a string. *)
Definition first_char (s : string) : option ascii :=
  match s with
  | EmptyString => None
  | String c _ => Some c
  end.

Fixpoint last_char (s : string) : option ascii :=
  match s with
  | EmptyString => None
  | String c EmptyString => Some c
  | String _ s' => last_char s'
  end.

(** A string that begins and ends with a character outside [p]. *)
Definition clean_ends (p : ascii → bool) (s : string) : Prop :=
  (∃ c, first_char s = Some c ∧ p c = false)
  ∧ (∃ c, last_char s = Some c ∧ p c = false).







(** The keys both adapters write into every candidate's metadata. *)
Definition score_keys : list string :=
  ["vector_score"; "bm25_score"; "colbert_score"; "context_score"; "retrieval_method"].

(** The decimal digits. *)
Definition is_digit (c : ascii) : bool := char_in "0123456789" c.


(* ===================================================================== *)
(** ** A small corpus and its collaborators, for concrete runs *)
(* ===================================================================== *)

Module example.

(** Three nearest chunks for any query. *)
Definition collection_query (query_text : string) (n_results : nat) : Result QueryResult :=
  Ok (mkQueryResult
        [["a"; "bbb"; "c"]]
        [[None; Some {["source" := VStr "wpp.pdf"]}; None]]
        [[(1 # 4)%Q; (1 # 2)%Q; (3 # 2)%Q]]).

(** A corpus of five chunks. *)
Definition collection_get : Result GetResult :=
  Ok (mkGetResult ["a"; "dd"; "eee"; ""; "zz"] [None; None; None; None; None]).

(** A retriever that ranks the second, third and fourth chunk of the corpus. *)
Definition bm25_retriever_invoke (corpus : list Document) (k : nat) (query : string)
  : Result (list Document) :=
  Ok (take 3 (drop 1 corpus)).

(** A collection whose [get] fails. *)
Definition failing_get : Result GetResult :=
  Raise (Exception "ConnectionError" "chroma unavailable").

(** A reranker that scores a text by its length. *)
Definition reranker_predict (pairs : list (string * string)) : Result (list Q) :=
  Ok (map (λ p, inject_Z (Z.of_nat (String.length p.2))) pairs).

(** A reranker whose scores are 0 for the empty text and 1e-6 otherwise. *)
Definition close_reranker_predict (pairs : list (string * string)) : Result (list Q) :=
  Ok (map (λ p, if String.eqb p.2 "" then 0%Q else epsilon) pairs).

(** A chat model that answers the triage prompt with a fixed label. *)
Definition query_ai (label : string) (system_prompt user_prompt : string) : Result string :=
  if String.eqb system_prompt "triage" then Ok label else Ok "an answer".

Definition state0 : RetrievalInputState := mkRetrievalInputState "q" [] [] [].

Definition world0 : World := mkWorld ∅ [].

(** Six candidates, as the two adapters leave them: three from the vector
    search, three from the lexical search. *)
Definition candidates_heap : gmap loc Document :=
  list_to_map
    [(0, vector_document ("a", None, (1 # 4)%Q));
     (1, vector_document ("bbb", Some {["source" := VStr "wpp.pdf"]}, (1 # 2)%Q));
     (2, vector_document ("c", None, (3 # 2)%Q));
     (3, bm25_document 3 (0, mkDocument "dd" ∅));
     (4, bm25_document 3 (1, mkDocument "eee" ∅));
     (5, bm25_document 3 (2, mkDocument "" ∅))].

(** The corpus of [collection_get], as the retriever receives it. *)
Definition corpus : list Document :=
  [mkDocument "a" ∅; mkDocument "dd" ∅; mkDocument "eee" ∅; mkDocument "" ∅;
   mkDocument "zz" ∅].

Definition world : World :=
  mkWorld candidates_heap
          [CollectionQuery "q" NR_RETRIEVED_DOCS; CollectionGet;
           BM25Invoke corpus NR_RETRIEVED_DOCS "q"].

(** The state and the world between the two adapters. *)
Definition state1 : RetrievalInputState := mkRetrievalInputState "q" [0; 1; 2] [] [].

Definition world1 : World :=
  mkWorld
    (list_to_map
       [(0, vector_document ("a", None, (1 # 4)%Q));
        (1, vector_document ("bbb", Some {["source" := VStr "wpp.pdf"]}, (1 # 2)%Q));
        (2, vector_document ("c", None, (3 # 2)%Q))])
    [CollectionQuery "q" NR_RETRIEVED_DOCS].

Definition state : RetrievalInputState :=
  mkRetrievalInputState "q" [0; 1; 2] [3; 4; 5] [].

(** The raw scores [reranker_predict] gives the six candidates. *)
Definition scores : list Q := [1; 3; 1; 2; 3; 0]%Q.

(** Two candidates whose raw scores are 0 and 1e-6. *)
Definition close_state : RetrievalInputState :=
  mkRetrievalInputState "q" [5] [0] [].

Definition close_scores : list Q := [0%Q; epsilon].

Definition input : main_workflow.InputState :=
  main_workflow.mkInputState (Some "What is the weather in Paris?") None None None.

End example.
(* ===================================================================== *)
(** ** Collaborators that fail or misbehave, and a session of the script *)
(* ===================================================================== *)

Module scenario.

(** A reranker that fails. *)
Definition failing_reranker (pairs : list (string * string)) : Result (list Q) :=
  Raise (Exception "RuntimeError" "out of memory").

(** A reranker that answers with no score. *)
Definition silent_reranker (pairs : list (string * string)) : Result (list Q) :=
  Ok [].

(** A reranker that answers with two scores, whatever the batch. *)
Definition short_reranker (pairs : list (string * string)) : Result (list Q) :=
  Ok [1; 2]%Q.

(** A vector index that cannot be reached. *)
Definition failing_query (query_text : string) (n_results : nat) : Result QueryResult :=
  Raise (Exception "ConnectionError" "chroma unavailable").

(** A corpus fetch interrupted from the keyboard. *)
Definition interrupted_get : Result GetResult :=
  Raise (BaseException "KeyboardInterrupt" "").

(** A retriever that ranks the first two chunks of the corpus; the first of
    them, with the text [a], is also the first row of
    [example.collection_query]. *)
Definition overlapping_bm25 (corpus : list Document) (k : nat) (query : string)
  : Result (list Document) :=
  Ok (take 2 corpus).

(** A chat model that fails. *)
Definition failing_chat (system_prompt user_prompt : string) : Result string :=
  Raise (Exception "ResourceExhausted" "quota").

(** The state in front of the answer node, with two of the candidates of
    [example.world]. *)
Definition answer_state : main_workflow.InputState :=
  main_workflow.mkInputState (Some "q") (Some "DATA_QUESTION") (Some [1; 4]) None.

(** An input without a query. *)
Definition no_query : main_workflow.InputState :=
  main_workflow.mkInputState None None None None.


(** A chat model that writes two questions, calls the first out of scope
    (with whitespace around the label) and fails on the second. *)
Definition chat_invoke (system_prompt user_prompt : string) : Result string :=
  if String.eqb system_prompt "questions"
  then Ok ("1. First?" +:+ newline +:+ "2. Second?" +:+ newline)
  else if String.eqb user_prompt "Evaluate user query: Second?"
       then Raise (Exception "ResourceExhausted" "quota")
       else Ok ("  OUT_OF_SCOPE" +:+ newline).

(** A chat model whose reply is a space and a newline. *)
Definition blank_chat (system_prompt user_prompt : string) : Result string :=
  Ok (" " +:+ newline).

End scenario.

(* ===================================================================== *)
(** * Supporting lemmas *)
(* ===================================================================== *)

(** ** The stable descending sort *)

Section sorting.
Context {A : Type} (key : A → Q).

Lemma insert_reverse_Permutation x l : insert_reverse key x l ≡ₚ x :: l.
Proof.
  induction l as [|y l IH]; simpl; [done|].
  destruct (Qlt_le_dec (key x) (key y)); [|done].
  rewrite IH. apply perm_swap.
Qed.

Lemma sorted_reverse_Permutation l : sorted_reverse key l ≡ₚ l.
Proof.
  induction l as [|x l IH]; simpl; [done|].
  rewrite insert_reverse_Permutation. by rewrite IH.
Qed.

Lemma sorted_reverse_length l : length (sorted_reverse key l) = length l.
Proof. by rewrite sorted_reverse_Permutation. Qed.

Lemma insert_reverse_sorted x l :
  StronglySorted (key_ge key) l → StronglySorted (key_ge key) (insert_reverse key x l).
Proof.
  induction 1 as [|y l Hl IH Hy]; simpl.
  - repeat constructor.
  - destruct (Qlt_le_dec (key x) (key y)) as [Hlt|Hle].
    + constructor; [done|].
      rewrite insert_reverse_Permutation. constructor; [|done].
      unfold key_ge. by apply Qlt_le_weak.
    + constructor; [by constructor|].
      constructor; [done|].
      eapply Forall_impl; [exact Hy|].
      unfold key_ge. intros z Hz. by eapply Qle_trans.
Qed.

Lemma sorted_reverse_sorted l : StronglySorted (key_ge key) (sorted_reverse key l).
Proof.
  induction l as [|x l IH]; simpl; [constructor|].
  by apply insert_reverse_sorted.
Qed.

Lemma insert_reverse_filter v x l :
  filter (λ a, key a == v)%Q (insert_reverse key x l)
  = filter (λ a, key a == v)%Q (x :: l).
Proof.
  induction l as [|y l IH]; simpl; [done|].
  destruct (Qlt_le_dec (key x) (key y)) as [Hlt|Hle]; [|done].
  rewrite filter_cons, IH, !filter_cons.
  destruct (decide (key y == v)%Q) as [Hy|Hy],
           (decide (key x == v)%Q) as [Hx|Hx]; try done.
  exfalso. rewrite Hy, Hx in Hlt. by apply Qlt_irrefl in Hlt.
Qed.

Lemma sorted_reverse_stable v l :
  filter (λ a, key a == v)%Q (sorted_reverse key l)
  = filter (λ a, key a == v)%Q l.
Proof.
  induction l as [|x l IH]; simpl; [done|].
  by rewrite insert_reverse_filter, !filter_cons, IH.
Qed.
Lemma stable_sorted_unique (l1 l2 : list A) :
  StronglySorted (key_ge key) l1 → StronglySorted (key_ge key) l2 →
  (∀ v, filter (λ a, key a == v)%Q l1 = filter (λ a, key a == v)%Q l2) →
  l1 = l2.
Proof.
  intros H1. revert l2.
  induction H1 as [|a l1 Hl1 IH Ha]; intros l2 H2 Hf.
  - destruct l2 as [|b l2]; [done|].
    specialize (Hf (key b)). rewrite filter_cons in Hf.
    destruct (decide (key b == key b)%Q) as [|n]; [done|]. by destruct n.
  - destruct H2 as [|b l2 Hl2 Hb].
    { specialize (Hf (key a)). rewrite filter_cons in Hf.
      destruct (decide (key a == key a)%Q) as [|n]; [done|]. by destruct n. }
    assert (Hab : (key a == key b)%Q).
    { apply Qle_antisym.
      - assert (Hin : a ∈ filter (λ x, key x == key a)%Q (b :: l2)).
        { rewrite <- Hf. apply list_elem_of_filter. split; [done|]. left. }
        apply list_elem_of_filter in Hin as [_ Hin].
        apply elem_of_cons in Hin as [->|Hin]; [apply Qle_refl|].
        rewrite Forall_forall in Hb. by apply Hb.
      - assert (Hin : b ∈ filter (λ x, key x == key b)%Q (a :: l1)).
        { rewrite Hf. apply list_elem_of_filter. split; [done|]. left. }
        apply list_elem_of_filter in Hin as [_ Hin].
        apply elem_of_cons in Hin as [->|Hin]; [apply Qle_refl|].
        rewrite Forall_forall in Ha. by apply Ha. }
    assert (a = b) as ->.
    { specialize (Hf (key a)). rewrite !filter_cons in Hf.
      destruct (decide (key a == key a)%Q) as [|n]; [|by destruct n].
      destruct (decide (key b == key a)%Q) as [|n]; [|by destruct n].
      congruence. }
    f_equal. apply IH; [done|].
    intros v. specialize (Hf v). rewrite !filter_cons in Hf.
    destruct (decide (key b == v)%Q); congruence.
Qed.

(** Any stable descending sort of [l] is [sorted_reverse key l]: the model
    of [sorted] does not depend on the sorting algorithm. *)
Lemma sorted_reverse_characterised (l l' : list A) :
  StronglySorted (key_ge key) l' →
  (∀ v, filter (λ a, key a == v)%Q l' = filter (λ a, key a == v)%Q l) →
  l' = sorted_reverse key l.
Proof.
  intros Hsorted Hstable.
  apply stable_sorted_unique; [done|apply sorted_reverse_sorted|].
  intros v. by rewrite Hstable, sorted_reverse_stable.
Qed.

End sorting.

(** ** Minimum, maximum and min-max normalization *)

Section min_max.

Lemma foldl_Qmin_le x l :
  (foldl Qmin x l <= x)%Q ∧ ∀ y, y ∈ l → (foldl Qmin x l <= y)%Q.
Proof.
  revert x. induction l as [|z l IH]; intros x; simpl.
  - split; [apply Qle_refl|]. intros y Hy. by apply elem_of_nil in Hy.
  - destruct (IH (Qmin x z)) as [H1 H2]. split.
    + eapply Qle_trans; [exact H1|]. apply Q.le_min_l.
    + intros y Hy. apply elem_of_cons in Hy as [->|Hy]; [|by apply H2].
      eapply Qle_trans; [exact H1|]. apply Q.le_min_r.
Qed.

Lemma foldl_Qmax_ge x l :
  (x <= foldl Qmax x l)%Q ∧ ∀ y, y ∈ l → (y <= foldl Qmax x l)%Q.
Proof.
  revert x. induction l as [|z l IH]; intros x; simpl.
  - split; [apply Qle_refl|]. intros y Hy. by apply elem_of_nil in Hy.
  - destruct (IH (Qmax x z)) as [H1 H2]. split.
    + eapply Qle_trans; [|exact H1]. apply Q.le_max_l.
    + intros y Hy. apply elem_of_cons in Hy as [->|Hy]; [|by apply H2].
      eapply Qle_trans; [|exact H1]. apply Q.le_max_r.
Qed.

Lemma foldl_Qmin_elem x l : foldl Qmin x l ∈ x :: l.
Proof.
  revert x. induction l as [|z l IH]; intros x; simpl; [left|].
  specialize (IH (Qmin x z)).
  apply elem_of_cons in IH as [->|IH]; [|by do 2 right].
  unfold Qmin, GenericMinMax.gmin. destruct (x ?= z)%Q; (by left) || (by right; left).
Qed.

Lemma foldl_Qmax_elem x l : foldl Qmax x l ∈ x :: l.
Proof.
  revert x. induction l as [|z l IH]; intros x; simpl; [left|].
  specialize (IH (Qmax x z)).
  apply elem_of_cons in IH as [->|IH]; [|by do 2 right].
  unfold Qmax, GenericMinMax.gmax. destruct (x ?= z)%Q; (by left) || (by right; left).
Qed.

Lemma np_min_spec (a : list Q) :
  a ≠ [] → ∃ mn, np_min a = Some mn ∧ mn ∈ a ∧ ∀ s, s ∈ a → (mn <= s)%Q.
Proof.
  destruct a as [|x a]; [done|]. intros _. eexists. split; [done|].
  split; [apply foldl_Qmin_elem|].
  intros s Hs. destruct (foldl_Qmin_le x a) as [H1 H2].
  apply elem_of_cons in Hs as [->|Hs]; [done|by apply H2].
Qed.

Lemma np_max_spec (a : list Q) :
  a ≠ [] → ∃ mx, np_max a = Some mx ∧ mx ∈ a ∧ ∀ s, s ∈ a → (s <= mx)%Q.
Proof.
  destruct a as [|x a]; [done|]. intros _. eexists. split; [done|].
  split; [apply foldl_Qmax_elem|].
  intros s Hs. destruct (foldl_Qmax_ge x a) as [H1 H2].
  apply elem_of_cons in Hs as [->|Hs]; [done|by apply H2].
Qed.

End min_max.

Section normalization.

Lemma epsilon_pos : (0 < epsilon)%Q.
Proof. reflexivity. Qed.

Lemma denominator_pos mn mx : (mn <= mx)%Q → (0 < mx - mn + epsilon)%Q.
Proof.
  intros H. apply Qlt_le_trans with (0 + epsilon)%Q.
  - rewrite Qplus_0_l. apply epsilon_pos.
  - apply Qplus_le_l. by apply (Qle_minus_iff mn mx).
Qed.

Lemma minmax_ratio_bounds mn mx s :
  (mn <= s)%Q → (s <= mx)%Q →
  (0 <= (s - mn) / (mx - mn + epsilon) ∧ (s - mn) / (mx - mn + epsilon) <= 1)%Q.
Proof.
  intros H1 H2.
  assert (Hd := denominator_pos mn mx (Qle_trans _ _ _ H1 H2)).
  split.
  - apply Qle_shift_div_l; [done|]. rewrite Qmult_0_l.
    by apply (Qle_minus_iff mn s).
  - apply Qle_shift_div_r; [done|]. rewrite Qmult_1_l.
    apply Qle_trans with (mx - mn + 0)%Q.
    + rewrite Qplus_0_r. by apply Qplus_le_l.
    + apply Qplus_le_r. apply Qlt_le_weak, epsilon_pos.
Qed.

Lemma minmax_ratio_max mn mx s :
  (s == mx)%Q → (mn <= mx)%Q →
  ((s - mn) / (mx - mn + epsilon) == (mx - mn) / (mx - mn + epsilon)
   ∧ 1 - (s - mn) / (mx - mn + epsilon) == epsilon / (mx - mn + epsilon)
   ∧ (s - mn) / (mx - mn + epsilon) < 1
   ∧ (1 <= mx - mn → 1 - epsilon <= (s - mn) / (mx - mn + epsilon)))%Q.
Proof.
  intros Hs Hle.
  assert (Hd := denominator_pos mn mx Hle).
  assert (Hne : ¬ (mx - mn + epsilon == 0)%Q).
  { intros H0. rewrite H0 in Hd. by apply Qlt_irrefl in Hd. }
  split; [by rewrite Hs|].
  split; [rewrite Hs; by field|].
  split.
  - apply Qlt_shift_div_r; [done|]. rewrite Qmult_1_l, Hs.
    rewrite <- (Qplus_0_r (mx - mn)) at 1.
    apply Qplus_lt_r, epsilon_pos.
  - intros Hr. apply Qle_shift_div_l; [done|]. rewrite Hs.
    unfold epsilon in *. lra.
Qed.
End normalization.
(** ** The monad, the heap and the loop that stores the scores *)

Section monad.
Context {A B : Type}.

Lemma bind_Ok (m : M A) (k : A → M B) w a w' :
  m w = (Ok a, w') → bind m k w = k a w'.
Proof. unfold bind. by intros ->. Qed.

Lemma bind_Raise (m : M A) (k : A → M B) w e w' :
  m w = (Raise e, w') → bind m k w = (Raise e, w').
Proof. unfold bind. by intros ->. Qed.

Lemma bind_inv_Ok (m : M A) (k : A → M B) w b w2 :
  bind m k w = (Ok b, w2) → ∃ a w1, m w = (Ok a, w1) ∧ k a w1 = (Ok b, w2).
Proof.
  unfold bind. destruct (m w) as [[a|e] w1]; [eauto|done].
Qed.
End monad.

Section heap_lemmas.

Lemma page_contents_cons h l ls d :
  h !! l = Some d → page_contents h (l :: ls) = page_content d :: page_contents h ls.
Proof. unfold page_contents. simpl. by intros ->. Qed.

Lemma page_contents_length w ls :
  allocated w ls → length (page_contents (heap w) ls) = length ls.
Proof.
  induction ls as [|l ls IH]; intros Hal; [done|].
  apply Forall_cons in Hal as [[d Hd] Hal].
  rewrite (page_contents_cons _ _ _ _ Hd). simpl. f_equal. by apply IH.
Qed.

Lemma mapM_page_content w ls :
  allocated w ls →
  mapM (λ doc, let* d := deref doc in ret (page_content d)) ls w
  = (Ok (page_contents (heap w) ls), w).
Proof.
  induction ls as [|l ls IH]; intros Hal; [done|].
  apply Forall_cons in Hal as [[d Hd] Hal].
  rewrite (page_contents_cons _ _ _ _ Hd).
  cbn [mapM].
  erewrite bind_Ok; [|unfold bind, deref; by rewrite Hd].
  erewrite bind_Ok; [done|].
  by apply IH.
Qed.

Lemma metadata_setitem_run w l d x :
  heap w !! l = Some d →
  metadata_setitem l "crossencoder_score" (VFloat x) w
  = (Ok tt, mkWorld (alter (with_crossencoder_score x) l (heap w)) (log w)).
Proof.
  intros Hd. unfold metadata_setitem, bind, deref. rewrite Hd.
  do 2 f_equal. apply map_eq. intros l'.
  destruct (decide (l = l')) as [<-|Hne].
  - by rewrite lookup_insert_eq, lookup_alter_eq, Hd.
  - by rewrite lookup_insert_ne, lookup_alter_ne.
Qed.

Lemma allocated_alter w l f ls :
  allocated w ls → allocated (mkWorld (alter f l (heap w)) (log w)) ls.
Proof.
  intros Hal. eapply Forall_impl; [exact Hal|]. intros l' Hl'. simpl in *.
  destruct (decide (l = l')) as [<-|Hne].
  - rewrite lookup_alter_eq. destruct Hl' as [d ->]. by eexists.
  - by rewrite lookup_alter_ne.
Qed.

Lemma store_loop docs : ∀ k ns w,
  allocated w docs → length docs + k ≤ length ns →
  for_each (imap (λ i doc, (k + i, doc)) docs)
    (λ '(i, doc), let* x := getitem ns i in
                  metadata_setitem doc "crossencoder_score" (VFloat x)) w
  = (Ok tt, mkWorld (store_scores (heap w) (zip docs (drop k ns))) (log w)).
Proof.
  induction docs as [|l docs IH]; intros k ns w Hal Hlen.
  - simpl. unfold ret. by destruct w.
  - simpl in *.
    destruct (lookup_lt_is_Some_2 ns k) as [x Hx]; [lia|].
    apply Forall_cons in Hal as [[d Hd] Hal].
    rewrite (drop_S _ _ _ Hx). cbn [imap for_each zip zip_with].
    erewrite bind_Ok.
    2: { erewrite bind_Ok; [by apply (metadata_setitem_run _ _ d)|].
         unfold getitem. by rewrite Nat.add_0_r, Hx. }
    rewrite (imap_ext _ (λ i doc, (S k + i, doc))).
    2: { intros i y _. simpl. f_equal. lia. }
    rewrite IH; [done| |simpl; lia].
    by apply allocated_alter.
Qed.

Lemma store_scores_other docs : ∀ ns h l,
  l ∉ docs → store_scores h (zip docs ns) !! l = h !! l.
Proof.
  induction docs as [|l0 docs IH]; intros ns h l Hl; [done|].
  destruct ns as [|x ns]; [done|]. simpl.
  apply not_elem_of_cons in Hl as [Hne Hl].
  unfold store_scores in IH. rewrite IH by done.
  by rewrite lookup_alter_ne.
Qed.

Lemma with_crossencoder_score_twice x y d :
  with_crossencoder_score x (with_crossencoder_score y d) = with_crossencoder_score x d.
Proof. unfold with_crossencoder_score. simpl. by rewrite insert_insert_eq. Qed.

(** The score a document ends up with is the one of its last position. *)
Lemma store_scores_last docs : ∀ ns h i l x,
  docs !! i = Some l → ns !! i = Some x → l ∉ drop (S i) docs →
  length docs = length ns →
  store_scores h (zip docs ns) !! l = with_crossencoder_score x <$> h !! l.
Proof.
  induction docs as [|l0 docs IH]; intros ns h i l x Hi Hx Hlast Hlen; [done|].
  destruct ns as [|x0 ns]; [done|]. simpl in Hlen.
  destruct i as [|i]; simpl in *.
  - injection Hi as ->. injection Hx as ->.
    rewrite drop_0 in Hlast.
    fold (store_scores (alter (with_crossencoder_score x) l h) (zip docs ns)).
    rewrite store_scores_other by done. by rewrite lookup_alter_eq.
  - fold (store_scores (alter (with_crossencoder_score x0) l0 h) (zip docs ns)).
    rewrite (IH ns _ i l x) by (done || lia).
    destruct (decide (l0 = l)) as [->|Hne].
    + rewrite lookup_alter_eq. destruct (h !! l) as [d|]; [|done]. simpl.
      by rewrite with_crossencoder_score_twice.
    + by rewrite lookup_alter_ne.
Qed.

End heap_lemmas.

(** ** [merge_and_rerank_node] *)

Lemma normalized_scores_run (scores : list Q) :
  scores ≠ [] →
  ∃ mn mx,
    np_min scores = Some mn ∧ np_max scores = Some mx
    ∧ mn ∈ scores ∧ mx ∈ scores
    ∧ (∀ s, s ∈ scores → (mn <= s)%Q ∧ (s <= mx)%Q)
    ∧ normalized_scores scores = ret (map (min_max_scale mn mx) scores).
Proof.
  intros Hne.
  destruct (np_min_spec scores Hne) as (mn & Hmn & Hmn_in & Hmn_le).
  destruct (np_max_spec scores Hne) as (mx & Hmx & Hmx_in & Hmx_ge).
  exists mn, mx. repeat split; try done; [by apply Hmn_le|by apply Hmx_ge|].
  unfold normalized_scores, min_max_scale. rewrite Hmn, Hmx.
  by destruct (Qlt_le_dec mn mx).
Qed.

Lemma filter_take_prefix {A} (P : A → Prop) `{!∀ x, Decision (P x)} n (l : list A) :
  filter P (take n l) `prefix_of` filter P l.
Proof.
  rewrite <- (take_drop n l) at 2. rewrite filter_app. by apply prefix_app_r.
Qed.

Lemma StronglySorted_take {A} (R : relation A) n (l : list A) :
  StronglySorted R l → StronglySorted R (take n l).
Proof.
  rewrite <- (take_drop n l) at 1. apply StronglySorted_app_1_l.
Qed.

Lemma elem_of_last_position {A} `{!EqDecision A} (l : A) (ls : list A) :
  l ∈ ls → ∃ i, ls !! i = Some l ∧ l ∉ drop (S i) ls.
Proof.
  induction ls as [|x ls IH]; intros Hl; [by apply elem_of_nil in Hl|].
  destruct (decide (l ∈ ls)) as [Hin|Hnin].
  - destruct (IH Hin) as (i & Hi & Hlast). by exists (S i).
  - apply elem_of_cons in Hl as [->|Hl]; [|done].
    by exists 0.
Qed.

Lemma metadata_of_lookup w l d k :
  heap w !! l = Some d → metadata_of w l k = metadata d !! k.
Proof. unfold metadata_of. by intros ->. Qed.

Lemma top_docs_subseteq n (scores : list Q) (docs : list loc) :
  take n (map snd (sorted_reverse fst (zip scores docs))) ⊆ docs.
Proof.
  intros l Hl. apply subseteq_take in Hl.
  apply list_elem_of_fmap in Hl as ([s l'] & -> & Hl).
  rewrite sorted_reverse_Permutation in Hl. by eapply elem_of_zip_r.
Qed.

Section merge_and_rerank.

Variable reranker_predict : list (string * string) → Result (list Q).

(** The whole effect of the node on a non-empty batch whose reranker call
    returns one score per candidate. *)
Lemma merge_and_rerank_node_run state w scores :
  all_docs state ≠ [] →
  allocated w (all_docs state) →
  reranker_predict (pairs state w) = Ok scores →
  length scores = length (all_docs state) →
  ∃ mn mx,
    np_min scores = Some mn ∧ np_max scores = Some mx
    ∧ merge_and_rerank_node reranker_predict state w
      = (Ok (mkRetrievalOutputState (query state)
               (take NR_FINAL_DOCS
                     (map snd (sorted_reverse fst (zip scores (all_docs state)))))),
         mkWorld (store_scores (heap w)
                    (zip (all_docs state) (map (min_max_scale mn mx) scores)))
                 (log w ++ [RerankerPredict (pairs state w)])).
Proof.
  intros Hne Hal Hrr Hlen.
  assert (Hsc : scores ≠ []).
  { intros ->. by destruct (all_docs state). }
  destruct (normalized_scores_run scores Hsc) as (mn & mx & Hmn & Hmx & _ & _ & _ & Hns).
  exists mn, mx. split; [done|]. split; [done|].
  unfold merge_and_rerank_node. fold (all_docs state).
  destruct (all_docs state) as [|l0 docs0] eqn:Hall; [done|].
  rewrite <- Hall in *.
  erewrite bind_Ok; [|by apply mapM_page_content].
  fold (pairs_of (query state) (heap w) (all_docs state)). fold (pairs state w).
  erewrite bind_Ok; [|unfold call; erewrite bind_Ok; [|done]; unfold lift; by rewrite Hrr].
  erewrite bind_Ok; [|by rewrite Hns].
  erewrite bind_Ok; [done|].
  unfold enumerate.
  rewrite (store_loop (all_docs state) 0); [by rewrite drop_0|done|].
  rewrite length_map. lia.
Qed.

(** What the batch looks like after the node: the document at position [i]
    carries the [i]-th normalized score, and nothing else changed. *)
Lemma merge_and_rerank_node_heap state w scores :
  all_docs state ≠ [] →
  allocated w (all_docs state) →
  reranker_predict (pairs state w) = Ok scores →
  length scores = length (all_docs state) →
  ∃ out w' mn mx,
    merge_and_rerank_node reranker_predict state w = (Ok out, w')
    ∧ np_min scores = Some mn ∧ np_max scores = Some mx
    ∧ normalized_scores scores = ret (map (min_max_scale mn mx) scores)
    ∧ (∀ i l s, all_docs state !! i = Some l → l ∉ drop (S i) (all_docs state) →
         scores !! i = Some s →
         ∃ d, heap w !! l = Some d
              ∧ heap w' !! l = Some (with_crossencoder_score (min_max_scale mn mx s) d))
    ∧ (∀ l, l ∉ all_docs state → heap w' !! l = heap w !! l).
Proof.
  intros Hne Hal Hrr Hlen.
  destruct (merge_and_rerank_node_run state w scores Hne Hal Hrr Hlen)
    as (mn & mx & Hmn & Hmx & Hrun).
  assert (Hsc : scores ≠ []).
  { intros ->. by destruct (all_docs state). }
  destruct (normalized_scores_run scores Hsc)
    as (mn' & mx' & Hmn' & Hmx' & _ & _ & _ & Hns).
  assert (mn' = mn) as -> by congruence. assert (mx' = mx) as -> by congruence.
  eexists _, _, mn, mx. split; [exact Hrun|]. repeat split; try done.
  - intros i l s Hi Hlast Hs. simpl.
    assert (is_Some (heap w !! l)) as [d Hd].
    { unfold allocated in Hal. rewrite Forall_forall in Hal.
      apply Hal. by eapply list_elem_of_lookup_2. }
    exists d. split; [done|].
    rewrite (store_scores_last _ _ _ i l (min_max_scale mn mx s)); try done.
    + by rewrite Hd.
    + by rewrite list_lookup_fmap, Hs.
    + by rewrite length_map.
  - intros l Hl. simpl. by apply store_scores_other.
Qed.

(** The node returns whenever the reranker answers with one score per
    candidate; what it returns is cut from the batch. *)
Lemma merge_and_rerank_node_returns state w :
  allocated w (all_docs state) →
  (all_docs state ≠ [] →
   ∃ scores, reranker_predict (pairs state w) = Ok scores
             ∧ length scores = length (all_docs state)) →
  ∃ out w',
    merge_and_rerank_node reranker_predict state w = (Ok out, w')
    ∧ o_query out = query state
    ∧ length (o_retrieved_documents out) = NR_FINAL_DOCS `min` length (all_docs state)
    ∧ o_retrieved_documents out ⊆ all_docs state.
Proof.
  intros Hal Hrr.
  destruct (decide (all_docs state = [])) as [Hempty|Hne].
  - exists (mkRetrievalOutputState (query state) []), w.
    unfold merge_and_rerank_node. fold (all_docs state). rewrite Hempty.
    cbn [o_retrieved_documents o_query length]. unfold NR_FINAL_DOCS.
    split; [done|]. split; [done|]. split; [lia|]. by intros l Hl%elem_of_nil.
  - destruct (Hrr Hne) as (scores & Hsc & Hlen).
    destruct (merge_and_rerank_node_run state w scores Hne Hal Hsc Hlen)
      as (mn & mx & _ & _ & Hrun).
    eexists _, _. split; [exact Hrun|]. cbn [o_retrieved_documents o_query].
    split; [done|]. split; [|apply top_docs_subseteq].
    rewrite length_take, length_map, sorted_reverse_length, length_zip, Hlen.
    lia.
Qed.

Lemma reranker_aligned_pairs state w :
  reranker_aligned reranker_predict →
  allocated w (all_docs state) →
  ∃ scores, reranker_predict (pairs state w) = Ok scores
            ∧ length scores = length (all_docs state).
Proof.
  intros Hrr Hal. destruct (Hrr (pairs state w)) as (scores & Hsc & Hlen).
  exists scores. split; [done|]. rewrite Hlen. unfold pairs, pairs_of.
  rewrite length_map. by apply page_contents_length.
Qed.

End merge_and_rerank.

(** ** The two adapters *)

Lemma mapM_ext {A B} (f g : A → M B) (l : list A) :
  (∀ x, f x = g x) → mapM f l = mapM g l.
Proof.
  intros Hfg. induction l as [|x l IH]; [done|].
  cbn [mapM]. by rewrite Hfg, IH.
Qed.

Lemma new_Document_run d w :
  ∃ l, new_Document d w = (Ok l, mkWorld (<[l := d]> (heap w)) (log w))
       ∧ heap w !! l = None.
Proof.
  exists (fresh (dom (heap w))). split; [done|].
  apply not_elem_of_dom, is_fresh.
Qed.

(** Allocating one document per element of [xs]: fresh, pairwise distinct
    references, in the order of [xs]; nothing else changes. *)
Lemma mapM_new_Document {X} (f : X → Document) (xs : list X) : ∀ w,
  ∃ ls w',
    mapM (λ x, new_Document (f x)) xs w = (Ok ls, w')
    ∧ length ls = length xs
    ∧ log w' = log w
    ∧ NoDup ls
    ∧ (∀ l, l ∈ ls → heap w !! l = None)
    ∧ (∀ i l, ls !! i = Some l → ∃ x, xs !! i = Some x ∧ heap w' !! l = Some (f x))
    ∧ (∀ l, l ∉ ls → heap w' !! l = heap w !! l).
Proof.
  induction xs as [|x xs IH]; intros w.
  - exists [], w. repeat split; try done.
    + constructor.
    + intros l Hl. by apply elem_of_nil in Hl.
  - destruct (new_Document_run (f x) w) as (l & Hnew & Hfresh).
    destruct (IH (mkWorld (<[l := f x]> (heap w)) (log w)))
      as (ls & w' & Hrun & Hlen & Hlog & Hnd & Hfr & Hpos & Hframe).
    simpl in *.
    assert (Hl : l ∉ ls).
    { intros Hin. apply Hfr in Hin. by rewrite lookup_insert_eq in Hin. }
    exists (l :: ls), w'. repeat split.
    + cbn [mapM]. erewrite bind_Ok; [|exact Hnew].
      erewrite bind_Ok; [|exact Hrun]. done.
    + simpl. by rewrite Hlen.
    + done.
    + by constructor.
    + intros l' Hl'. apply elem_of_cons in Hl' as [->|Hl']; [done|].
      apply Hfr in Hl'. by apply lookup_insert_None in Hl' as [? _].
    + intros [|i] l' Hi; simpl in *.
      * injection Hi as <-. exists x. split; [done|].
        by rewrite Hframe, lookup_insert_eq.
      * by apply Hpos.
    + intros l' Hl'. apply not_elem_of_cons in Hl' as [Hne Hl'].
      by rewrite Hframe, lookup_insert_ne.
Qed.

Lemma getitem_inv_Ok {A} (l : list A) i w x w' :
  getitem l i w = (Ok x, w') → l !! i = Some x ∧ w' = w.
Proof.
  unfold getitem. destruct (l !! i); [|done]. by intros [= -> ->].
Qed.

Lemma call_inv_Ok {A} ev (r : Result A) w a w' :
  call ev r w = (Ok a, w') → r = Ok a ∧ w' = mkWorld (heap w) (log w ++ [ev]).
Proof.
  unfold call, bind, emit, lift. simpl. by intros [= -> <-].
Qed.

Lemma call_Ok {A} ev (r : Result A) w a :
  r = Ok a → call ev r w = (Ok a, mkWorld (heap w) (log w ++ [ev])).
Proof. by intros ->. Qed.

Lemma call_Raise {A} ev (r : Result A) w e :
  r = Raise e → call ev r w = (Raise e, mkWorld (heap w) (log w ++ [ev])).
Proof. by intros ->. Qed.

Lemma vector_document_metadata row :
  metadata (vector_document row) !! "retrieval_method" = Some (VStr "vector")
  ∧ metadata (vector_document row) !! "bm25_score" = Some (VFloat 0)
  ∧ is_Some (metadata (vector_document row) !! "vector_score").
Proof.
  destruct row as [[doc meta] dist]. unfold vector_document, vector_metadata.
  cbn [metadata]. split; [|split].
  - by rewrite lookup_insert_eq.
  - rewrite !lookup_insert_ne by done. by rewrite lookup_insert_eq.
  - rewrite !lookup_insert_ne by done. rewrite lookup_insert_eq. by eexists.
Qed.

Lemma bm25_document_metadata m i doc :
  metadata (bm25_document m (i, doc)) !! "retrieval_method" = Some (VStr "bm25")
  ∧ metadata (bm25_document m (i, doc)) !! "vector_score" = Some (VFloat 0)
  ∧ metadata (bm25_document m (i, doc)) !! "bm25_score"
    = Some (VFloat (1 - inject_Z (Z.of_nat i) / inject_Z (Z.of_nat m))).
Proof.
  unfold bm25_document, bm25_metadata. cbn [metadata]. split; [|split].
  - by rewrite lookup_insert_eq.
  - rewrite !lookup_insert_ne by done. by rewrite lookup_insert_eq.
  - rewrite !lookup_insert_ne by done. by rewrite lookup_insert_eq.
Qed.

Section adapters.

Variable collection_query : string → nat → Result QueryResult.
Variable collection_get : Result GetResult.
Variable bm25_retriever_invoke : list Document → nat → string → Result (list Document).
Variable reranker_predict : list (string * string) → Result (list Q).

(** Whenever the vector adapter returns, its candidates are fresh, pairwise
    distinct objects, one per zipped row of the query result. *)
Lemma semantic_search_node_inv state w s1 w1 :
  semantic_search_node collection_query state w = (Ok s1, w1) →
  ∃ results documents0 metadatas0 distances0,
    collection_query (query state) NR_RETRIEVED_DOCS = Ok results
    ∧ documents results !! 0 = Some documents0
    ∧ metadatas results !! 0 = Some metadatas0
    ∧ distances results !! 0 = Some distances0
    ∧ s1 = mkRetrievalInputState (query state) (semantic_docs s1) (bm25_docs state)
                                 (retrieved_documents state)
    ∧ log w1 = log w ++ [CollectionQuery (query state) NR_RETRIEVED_DOCS]
    ∧ length (semantic_docs s1) = length (zip3 documents0 metadatas0 distances0)
    ∧ NoDup (semantic_docs s1)
    ∧ (∀ l, l ∈ semantic_docs s1 → heap w !! l = None)
    ∧ (∀ i l, semantic_docs s1 !! i = Some l →
         ∃ row, zip3 documents0 metadatas0 distances0 !! i = Some row
                ∧ heap w1 !! l = Some (vector_document row))
    ∧ (∀ l, l ∉ semantic_docs s1 → heap w1 !! l = heap w !! l).
Proof.
  unfold semantic_search_node. intros Hrun.
  apply bind_inv_Ok in Hrun as (results & wa & Hq & Hrun).
  apply call_inv_Ok in Hq as [Hq ->].
  apply bind_inv_Ok in Hrun as (documents0 & wb & Hd & Hrun).
  apply getitem_inv_Ok in Hd as [Hd ->].
  apply bind_inv_Ok in Hrun as (metadatas0 & wb & Hm & Hrun).
  apply getitem_inv_Ok in Hm as [Hm ->].
  apply bind_inv_Ok in Hrun as (distances0 & wb & Hdist & Hrun).
  apply getitem_inv_Ok in Hdist as [Hdist ->].
  apply bind_inv_Ok in Hrun as (docs & wb & Hdocs & Hrun).
  injection Hrun as <- <-.
  exists results, documents0, metadatas0, distances0.
  rewrite (mapM_ext _ (λ row, new_Document (vector_document row))) in Hdocs
    by (by intros [[doc meta] dist]).
  destruct (mapM_new_Document vector_document
              (zip3 documents0 metadatas0 distances0)
              (mkWorld (heap w) (log w ++ [CollectionQuery (query state) NR_RETRIEVED_DOCS])))
    as (ls & w' & Hrun & Hlen & Hlog & Hnd & Hfr & Hpos & Hframe).
  rewrite Hrun in Hdocs. injection Hdocs as <- <-. simpl in *.
  repeat split; done.
Qed.

Lemma semantic_search_node_query state w s1 w1 :
  semantic_search_node collection_query state w = (Ok s1, w1) →
  query s1 = query state ∧ bm25_docs s1 = bm25_docs state.
Proof.
  intros H. apply semantic_search_node_inv in H
    as (?&?&?&?&_&_&_&_&->&_). done.
Qed.

Lemma bm25_search_node_fails state w e :
  bm25_fails collection_get bm25_retriever_invoke state e →
  ∃ evs,
    bm25_search_node collection_get bm25_retriever_invoke state w
    = (Ok (mkRetrievalInputState (query state) (semantic_docs state) []
                                 (retrieved_documents state)),
       mkWorld (heap w)
               (log w ++ evs ++ [PrintLine ("[ERROR] BM25 retrieval failed: " +:+ str_exn e)]))
    ∧ (evs = [CollectionGet]
       ∨ ∃ corpus, evs = [CollectionGet; BM25Invoke corpus NR_RETRIEVED_DOCS (query state)]).
Proof.
  intros [(cls & msg & ->) [Hget|(all_results & Hget & Hinv)]].
  - exists [CollectionGet]. split; [|by left].
    unfold bm25_search_node, try_except_Exception.
    erewrite bind_Raise; [|by apply call_Raise].
    unfold bind, emit, ret. simpl. by rewrite <- app_assoc.
  - eexists [CollectionGet; BM25Invoke _ _ _]. split; [|right; by eexists].
    unfold bm25_search_node, try_except_Exception.
    erewrite bind_Ok; [|by apply call_Ok].
    fold (corpus_of all_results).
    erewrite bind_Raise; [|by apply call_Raise].
    unfold bind, emit, ret. simpl. by rewrite <- !app_assoc.
Qed.

(** The lexical search succeeds: one fresh document per result, in rank
    order, scored from its rank and the number of results. *)
Lemma bm25_search_node_succeeds state w all_results results :
  collection_get = Ok all_results →
  bm25_retriever_invoke (corpus_of all_results) NR_RETRIEVED_DOCS (query state)
  = Ok results →
  ∃ docs w',
    bm25_search_node collection_get bm25_retriever_invoke state w
    = (Ok (mkRetrievalInputState (query state) (semantic_docs state) docs
                                 (retrieved_documents state)), w')
    ∧ log w' = log w ++ [CollectionGet;
                         BM25Invoke (corpus_of all_results) NR_RETRIEVED_DOCS (query state)]
    ∧ length docs = length results
    ∧ NoDup docs
    ∧ (∀ l, l ∈ docs → heap w !! l = None)
    ∧ (∀ i l, docs !! i = Some l →
         ∃ doc, results !! i = Some doc
                ∧ heap w' !! l = Some (bm25_document (length results) (i, doc)))
    ∧ (∀ l, l ∉ docs → heap w' !! l = heap w !! l).
Proof.
  intros Hget Hinv.
  set (w1 := mkWorld (heap w)
               ((log w ++ [CollectionGet]) ++
                [BM25Invoke (corpus_of all_results) NR_RETRIEVED_DOCS (query state)])).
  destruct (mapM_new_Document (bm25_document (length results)) (enumerate results) w1)
    as (docs & w' & Hrun & Hlen & Hlog & Hnd & Hfr & Hpos & Hframe).
  exists docs, w'. split; [|split; [|split; [|split; [|split; [|split]]]]]; try done.
  - unfold bm25_search_node, try_except_Exception.
    erewrite bind_Ok; [|by apply call_Ok].
    fold (corpus_of all_results).
    erewrite bind_Ok; [|by apply call_Ok].
    erewrite bind_Ok; [done|].
    fold w1. rewrite <- Hrun.
    destruct results as [|doc0 results]; [done|].
    by rewrite (mapM_ext _ (λ x, new_Document
                                   (bm25_document (length (doc0 :: results)) x)))
      by (by intros [i doc]).
  - rewrite Hlog. simpl. by rewrite <- app_assoc.
  - rewrite Hlen. unfold enumerate. by rewrite length_imap.
  - intros i l Hi. destruct (Hpos i l Hi) as ([j doc] & Hx & Hl).
    unfold enumerate in Hx. rewrite list_lookup_imap in Hx.
    destruct (results !! i) as [doc'|] eqn:Hres; [|done].
    injection Hx as <- <-. by exists doc'.
Qed.

Lemma bm25_search_node_inv state w s2 w2 :
  bm25_search_node collection_get bm25_retriever_invoke state w = (Ok s2, w2) →
  s2 = mkRetrievalInputState (query state) (semantic_docs state) (bm25_docs s2)
                             (retrieved_documents state)
  ∧ NoDup (bm25_docs s2)
  ∧ (∀ l, l ∈ bm25_docs s2 → heap w !! l = None)
  ∧ (∀ l, l ∈ bm25_docs s2 →
       ∃ m i doc, heap w2 !! l = Some (bm25_document m (i, doc)))
  ∧ (∀ l, l ∉ bm25_docs s2 → heap w2 !! l = heap w !! l)
  ∧ ∃ evs, log w2 = log w ++ evs ∧ Forall (λ ev, is_reranker_call ev = false) evs.
Proof.
  intros Hrun.
  destruct collection_get as [all_results|e] eqn:Hget.
  - destruct (bm25_retriever_invoke (corpus_of all_results) NR_RETRIEVED_DOCS (query state))
      as [results|e] eqn:Hinv.
    + destruct (bm25_search_node_succeeds state w all_results results Hget Hinv)
        as (docs & w' & Hok & Hlog & Hlen & Hnd & Hfr & Hpos & Hframe).
      rewrite <- Hget in Hrun. rewrite Hok in Hrun. injection Hrun as <- <-.
      simpl. repeat split; try done.
      * intros l Hl. apply list_elem_of_lookup in Hl as [i Hi].
        destruct (Hpos i l Hi) as (doc & _ & Hd). by eexists _, _, _.
      * eexists. split; [exact Hlog|]. by repeat constructor.
    + destruct e as [cls msg|cls msg].
      * destruct (bm25_search_node_fails state w (Exception cls msg))
          as (evs & Hfail & Hevs).
        { split; [by eexists _, _|]. right. exists all_results. by rewrite Hget. }
        rewrite <- Hget in Hrun. rewrite Hfail in Hrun. injection Hrun as <- <-.
        simpl. repeat split; try done; try (intros l Hl; by apply elem_of_nil in Hl).
        { constructor. }
        eexists. split; [done|].
        destruct Hevs as [->|[corpus ->]]; by repeat constructor.
      * exfalso. revert Hrun.
        unfold bm25_search_node, try_except_Exception.
        erewrite bind_Ok; [|by apply call_Ok].
        fold (corpus_of all_results).
        by erewrite bind_Raise; [|by apply call_Raise].
  - destruct e as [cls msg|cls msg].
    + destruct (bm25_search_node_fails state w (Exception cls msg))
        as (evs & Hfail & Hevs).
      { split; [by eexists _, _|]. left. by rewrite Hget. }
      rewrite <- Hget in Hrun. rewrite Hfail in Hrun. injection Hrun as <- <-.
      simpl. repeat split; try done; try (intros l Hl; by apply elem_of_nil in Hl).
      { constructor. }
      eexists. split; [done|].
      destruct Hevs as [->|[corpus ->]]; by repeat constructor.
    + exfalso. revert Hrun.
      unfold bm25_search_node, try_except_Exception.
      by erewrite bind_Raise; [|by apply call_Raise].
Qed.

(** With no candidate from either adapter the sub-graph ends with the empty
    result and its log shows no call to the reranker. *)
Lemma retrieval_app_no_candidates state w s1 w1 s2 w2 :
  semantic_search_node collection_query state w = (Ok s1, w1) →
  bm25_search_node collection_get bm25_retriever_invoke s1 w1 = (Ok s2, w2) →
  semantic_docs s2 = [] → bm25_docs s2 = [] →
  retrieval_app collection_query collection_get bm25_retriever_invoke
                reranker_predict state w
  = (Ok (mkRetrievalOutputState (query state) []), w2)
  ∧ ∃ evs, log w2 = log w ++ evs ∧ Forall (λ ev, is_reranker_call ev = false) evs.
Proof.
  intros Hsem Hbm Hs Hb.
  split.
  - unfold retrieval_app.
    erewrite bind_Ok; [|exact Hsem]. erewrite bind_Ok; [|exact Hbm].
    unfold merge_and_rerank_node. rewrite Hs, Hb. simpl.
    apply bm25_search_node_inv in Hbm as (-> & _). simpl.
    by destruct (semantic_search_node_query _ _ _ _ Hsem) as [-> _].
  - apply semantic_search_node_inv in Hsem
      as (?&?&?&?&_&_&_&_&_&Hlog1&_).
    apply bm25_search_node_inv in Hbm as (_&_&_&_&_& evs & Hlog2 & Hevs).
    eexists. split; [by rewrite Hlog2, Hlog1, <- app_assoc|].
    by constructor.
Qed.

End adapters.

(* ===================================================================== *)
(** * The claims *)
(* ===================================================================== *)

(** ** The fusion step, [merge_and_rerank_node] *)

Section fusion.

Variable reranker_predict : list (string * string) → Result (list Q).

(** C1, as the code has it: on a non-empty batch every candidate's stored
    normalized score lies in [0, 1]. When the raw scores are not all equal,
    a candidate holding the maximum raw score receives
    [(max - min) / (max - min + 1e-6)], which is within [1e-6] of 1 when
    [max - min >= 1]; it is not so for every batch: raw scores 0 and 1e-6
    give 0.5. When all raw scores are equal every candidate receives 0.5. Scores are read as exact rationals; only
    bounds that do not depend on that reading are stated. (For an object
    listed twice in the batch the stored score is the one of its last
    position.) *)
Theorem normalized_score_range_and_extremes state w scores :
  all_docs state ≠ [] →
  allocated w (all_docs state) →
  reranker_predict (pairs state w) = Ok scores →
  length scores = length (all_docs state) →
  ∃ out w' mn mx,
    merge_and_rerank_node reranker_predict state w = (Ok out, w')
    ∧ np_min scores = Some mn ∧ np_max scores = Some mx
    ∧ ∀ i l s, all_docs state !! i = Some l → l ∉ drop (S i) (all_docs state) →
        scores !! i = Some s →
        ∃ x, metadata_of w' l "crossencoder_score" = Some (VFloat x)
             ∧ (0 <= x)%Q ∧ (x <= 1)%Q
             ∧ ((mn < mx)%Q → (s == mx)%Q →
                (x == (mx - mn) / (mx - mn + epsilon))%Q
                ∧ ((1 <= mx - mn)%Q → (1 - epsilon <= x)%Q))
             ∧ ((∀ s1 s2, s1 ∈ scores → s2 ∈ scores → (s1 == s2)%Q) →
                (x == 1 # 2)%Q).
Proof.
  intros Hne Hal Hrr Hlen.
  destruct (merge_and_rerank_node_heap _ state w scores Hne Hal Hrr Hlen)
    as (out & w' & mn & mx & Hnode & Hmn & Hmx & _ & Hpos & _).
  assert (Hsc : scores ≠ []).
  { intros ->. by destruct (all_docs state). }
  destruct (normalized_scores_run scores Hsc)
    as (mn' & mx' & Hmn' & Hmx' & Hmn_in & Hmx_in & Hbounds & _).
  assert (mn' = mn) as -> by congruence. assert (mx' = mx) as -> by congruence.
  exists out, w', mn, mx. repeat (split; [done|]).
  intros i l s Hi Hlast Hs.
  destruct (Hpos i l s Hi Hlast Hs) as (d & Hd & Hd').
  exists (min_max_scale mn mx s).
  split.
  { rewrite (metadata_of_lookup _ _ _ _ Hd'). apply lookup_insert_eq. }
  destruct (Hbounds s) as [Hlo Hhi]; [by eapply list_elem_of_lookup_2|].
  unfold min_max_scale.
  destruct (Qlt_le_dec mn mx) as [Hlt|Hle].
  - destruct (minmax_ratio_bounds mn mx s Hlo Hhi) as [H0 H1].
    repeat (split; [done|]). split.
    + intros _ Hmax.
      destruct (minmax_ratio_max mn mx s Hmax (Qlt_le_weak _ _ Hlt))
        as (Hratio & _ & _ & Hnear).
      by split.
    + intros Heq. exfalso. specialize (Heq mn mx Hmn_in Hmx_in).
      rewrite Heq in Hlt. by apply Qlt_irrefl in Hlt.
  - repeat (split; [done|]). split; [|done].
    intros Hlt. exfalso. by apply (Qlt_not_le mn mx).
Qed.

(** C2: the node ranks the (raw score, candidate) pairs of the batch by raw
    score, descending: the ranking is a permutation of the pairs, raw scores
    never increase along it, and the pairs of any one raw score keep the
    order they had in the concatenated batch (stability). The returned
    documents are the first [NR_FINAL_DOCS] of that ranking, so the same
    holds along the returned sequence. *)
Theorem ranking_is_stable_descending_by_raw_score state w scores :
  all_docs state ≠ [] →
  allocated w (all_docs state) →
  reranker_predict (pairs state w) = Ok scores →
  length scores = length (all_docs state) →
  ∃ out w' ranked,
    merge_and_rerank_node reranker_predict state w = (Ok out, w')
    ∧ ranked ≡ₚ zip scores (all_docs state)
    ∧ StronglySorted (key_ge fst) ranked
    ∧ (∀ v, filter (λ p, p.1 == v)%Q ranked
            = filter (λ p, p.1 == v)%Q (zip scores (all_docs state)))
    ∧ o_retrieved_documents out = (take NR_FINAL_DOCS ranked).*2
    ∧ StronglySorted (key_ge fst) (take NR_FINAL_DOCS ranked)
    ∧ (∀ v, filter (λ p, p.1 == v)%Q (take NR_FINAL_DOCS ranked)
            `prefix_of` filter (λ p, p.1 == v)%Q (zip scores (all_docs state))).
Proof.
  intros Hne Hal Hrr Hlen.
  destruct (merge_and_rerank_node_run _ state w scores Hne Hal Hrr Hlen)
    as (mn & mx & _ & _ & Hrun).
  eexists _, _, (sorted_reverse fst (zip scores (all_docs state))).
  split; [exact Hrun|].
  split; [apply sorted_reverse_Permutation|].
  split; [apply sorted_reverse_sorted|].
  split; [intros v; apply (sorted_reverse_stable fst v)|].
  split; [simpl; by rewrite fmap_take|].
  split; [apply StronglySorted_take, sorted_reverse_sorted|].
  intros v. rewrite <- (sorted_reverse_stable fst v (zip scores (all_docs state))).
  apply (filter_take_prefix (λ p : Q * loc, p.1 == v)%Q).
Qed.

(** C4: the node returns [min NR_FINAL_DOCS n] documents for a batch of [n]
    candidates, with [NR_FINAL_DOCS = 5]: never more than five and never
    more than there are candidates. *)
Theorem final_length_is_min_K_total state w :
  allocated w (all_docs state) →
  (all_docs state ≠ [] →
   ∃ scores, reranker_predict (pairs state w) = Ok scores
             ∧ length scores = length (all_docs state)) →
  ∃ out w',
    merge_and_rerank_node reranker_predict state w = (Ok out, w')
    ∧ length (o_retrieved_documents out)
      = NR_FINAL_DOCS `min` length (semantic_docs state ++ bm25_docs state)
    ∧ NR_FINAL_DOCS = 5
    ∧ length (o_retrieved_documents out) ≤ 5
    ∧ length (o_retrieved_documents out)
      ≤ length (semantic_docs state ++ bm25_docs state).
Proof.
  intros Hal Hrr. fold (all_docs state).
  destruct (decide (all_docs state = [])) as [Hempty|Hne].
  - exists (mkRetrievalOutputState (query state) []), w.
    unfold merge_and_rerank_node. fold (all_docs state). rewrite Hempty.
    cbn [o_retrieved_documents length]. unfold NR_FINAL_DOCS. repeat split; lia.
  - destruct (Hrr Hne) as (scores & Hsc & Hlen).
    destruct (merge_and_rerank_node_run _ state w scores Hne Hal Hsc Hlen)
      as (mn & mx & _ & _ & Hrun).
    eexists _, _. split; [exact Hrun|]. cbn [o_retrieved_documents].
    rewrite length_take, length_map, sorted_reverse_length, length_zip, Hlen.
    unfold NR_FINAL_DOCS. repeat split; lia.
Qed.

(** C5: with no candidate from either adapter the node returns the empty
    result at once and leaves the world as it was: the call log gains no
    entry, so the reranker is not called (whatever it would have done). *)
Theorem empty_batch_skips_reranker state w :
  semantic_docs state = [] → bm25_docs state = [] →
  merge_and_rerank_node reranker_predict state w
  = (Ok (mkRetrievalOutputState (query state) []), w)
  ∧ ∀ out w', merge_and_rerank_node reranker_predict state w = (Ok out, w') →
      o_retrieved_documents out = [] ∧ log w' = log w ∧ heap w' = heap w.
Proof.
  intros Hs Hb. unfold merge_and_rerank_node. rewrite Hs, Hb. simpl.
  split; [done|]. intros out w' [= <- <-]. done.
Qed.

(** C9: on a non-empty batch the node writes the normalized score into the
    metadata of every candidate of the concatenated batch, in place: the
    objects the input lists refer to are changed, whether or not the
    candidate is among the (at most [NR_FINAL_DOCS]) returned ones. The
    candidate at position [i] receives the [i]-th normalized score (for an
    object listed twice, the score of its last position), under the key
    [crossencoder_score]; the rest of the document and all other objects
    stay as they were. *)
Theorem normalized_score_written_to_whole_batch state w scores :
  all_docs state ≠ [] →
  allocated w (all_docs state) →
  reranker_predict (pairs state w) = Ok scores →
  length scores = length (all_docs state) →
  ∃ out w' normalized,
    merge_and_rerank_node reranker_predict state w = (Ok out, w')
    ∧ normalized_scores scores = ret normalized
    ∧ length (o_retrieved_documents out) ≤ NR_FINAL_DOCS
    ∧ (∀ i l, all_docs state !! i = Some l → l ∉ drop (S i) (all_docs state) →
         ∃ d x, heap w !! l = Some d ∧ normalized !! i = Some x
                ∧ heap w' !! l = Some (with_crossencoder_score x d))
    ∧ (∀ l, l ∈ all_docs state →
         ∃ x, x ∈ normalized
              ∧ metadata_of w' l "crossencoder_score" = Some (VFloat x))
    ∧ (∀ l, l ∉ all_docs state → heap w' !! l = heap w !! l).
Proof.
  intros Hne Hal Hrr Hlen.
  destruct (merge_and_rerank_node_run _ state w scores Hne Hal Hrr Hlen)
    as (mn0 & mx0 & _ & _ & Hrun).
  destruct (merge_and_rerank_node_heap _ state w scores Hne Hal Hrr Hlen)
    as (out & w' & mn & mx & Hnode & Hmn & Hmx & Hns & Hpos & Hframe).
  exists out, w', (map (min_max_scale mn mx) scores).
  assert (Hposx : ∀ i l, all_docs state !! i = Some l →
            l ∉ drop (S i) (all_docs state) →
            ∃ d x, heap w !! l = Some d
                   ∧ map (min_max_scale mn mx) scores !! i = Some x
                   ∧ heap w' !! l = Some (with_crossencoder_score x d)).
  { intros i l Hi Hlast.
    destruct (lookup_lt_is_Some_2 scores i) as [s Hs].
    { rewrite Hlen. by eapply lookup_lt_Some. }
    destruct (Hpos i l s Hi Hlast Hs) as (d & Hd & Hd').
    exists d, (min_max_scale mn mx s). by rewrite list_lookup_fmap, Hs. }
  repeat split; try done.
  - rewrite Hrun in Hnode. injection Hnode as <- _. simpl.
    rewrite length_take. lia.
  - intros l Hl.
    destruct (elem_of_last_position l _ Hl) as (i & Hi & Hlast).
    destruct (Hposx i l Hi Hlast) as (d & x & Hd & Hx & Hd').
    exists x. split; [by eapply list_elem_of_lookup_2|].
    unfold metadata_of. rewrite Hd'. simpl. by rewrite lookup_insert_eq.
Qed.

End fusion.

(** ** The adapters and the sub-graph *)

Section sub_graph.

Variable collection_query : string → nat → Result QueryResult.
Variable collection_get : Result GetResult.
Variable bm25_retriever_invoke : list Document → nat → string → Result (list Document).
Variable reranker_predict : list (string * string) → Result (list Q).

(** C3: when the lexical search raises an [Exception], [bm25_search_node]
    catches it and returns the state with an empty [bm25_docs] (the heap
    untouched). In a run of the sub-graph whose vector search has returned
    and whose reranker keeps its contract, the run then completes: its
    result is the one of [merge_and_rerank_node] on the vector candidates
    alone, and every returned document is one of them. *)
Theorem lexical_failure_is_tolerated state w e :
  bm25_fails collection_get bm25_retriever_invoke state e →
  (∃ w',
     bm25_search_node collection_get bm25_retriever_invoke state w
     = (Ok (mkRetrievalInputState (query state) (semantic_docs state) []
                                  (retrieved_documents state)), w')
     ∧ heap w' = heap w)
  ∧ (∀ s1 w1,
       semantic_search_node collection_query state w = (Ok s1, w1) →
       reranker_aligned reranker_predict →
       ∃ w1' out w2,
         let vector_only :=
           mkRetrievalInputState (query s1) (semantic_docs s1) []
                                 (retrieved_documents s1) in
         bm25_search_node collection_get bm25_retriever_invoke s1 w1
         = (Ok vector_only, w1')
         ∧ retrieval_app collection_query collection_get bm25_retriever_invoke
                         reranker_predict state w = (Ok out, w2)
         ∧ merge_and_rerank_node reranker_predict vector_only w1' = (Ok out, w2)
         ∧ o_retrieved_documents out ⊆ semantic_docs s1
         ∧ length (o_retrieved_documents out)
           = NR_FINAL_DOCS `min` length (semantic_docs s1)).
Proof.
  intros Hfail. split.
  - destruct (bm25_search_node_fails _ _ state w e Hfail) as (evs & Hrun & _).
    eexists. split; [exact Hrun|done].
  - intros s1 w1 Hsem Hrr.
    destruct (semantic_search_node_query _ _ _ _ _ Hsem) as [Hq _].
    assert (Hfail1 : bm25_fails collection_get bm25_retriever_invoke s1 e).
    { unfold bm25_fails in *. by rewrite Hq. }
    destruct (bm25_search_node_fails _ _ s1 w1 e Hfail1) as (evs & Hbm & _).
    set (vector_only := mkRetrievalInputState (query s1) (semantic_docs s1) []
                                              (retrieved_documents s1)) in *.
    set (w1' := mkWorld (heap w1) _) in Hbm.
    assert (Hall : all_docs vector_only = semantic_docs s1).
    { unfold all_docs. simpl. by rewrite app_nil_r. }
    assert (Hal : allocated w1' (all_docs vector_only)).
    { rewrite Hall. apply Forall_forall. intros l Hl. simpl.
      apply semantic_search_node_inv in Hsem
        as (?&?&?&?&_&_&_&_&_&_&_&_&_&Hpos&_).
      apply list_elem_of_lookup in Hl as [i Hi].
      destruct (Hpos i l Hi) as (row & _ & ->). by eexists. }
    destruct (merge_and_rerank_node_returns reranker_predict vector_only w1' Hal)
      as (out & w2 & Hmerge & _ & Hlen & Hsub).
    { intros _. by apply reranker_aligned_pairs. }
    exists w1', out, w2. rewrite Hall in Hlen, Hsub.
    repeat split; try done.
    unfold retrieval_app.
    erewrite bind_Ok; [|exact Hsem]. erewrite bind_Ok; [|exact Hbm]. done.
Qed.

(** C6: after the two adapters have run, every candidate of the vector
    adapter is tagged [vector] and has [bm25_score] 0.0, every candidate of
    the lexical adapter is tagged [bm25] (the lexical method) and has
    [vector_score] 0.0, each carrying a score of its own method. All
    candidates are pairwise distinct objects and the batch is the plain
    concatenation. The candidates are tied to what the adapters received:
    the vector adapter builds one candidate per row of the query result,
    at the row's position and with the row's text, and the lexical adapter,
    when its search answers, one per result, behind the vector candidates.
    So a chunk that is in a row and also in a lexical result is in the
    batch twice, as two distinct objects with the same text: one tagged
    [vector] with its vector score and [bm25_score] 0.0, the other tagged
    [bm25] with its rank score and [vector_score] 0.0. *)
Theorem retrieval_method_reflects_adapter state w s1 w1 s2 w2 :
  semantic_search_node collection_query state w = (Ok s1, w1) →
  bm25_search_node collection_get bm25_retriever_invoke s1 w1 = (Ok s2, w2) →
  (∀ l, l ∈ semantic_docs s2 →
     metadata_of w2 l "retrieval_method" = Some (VStr "vector")
     ∧ metadata_of w2 l "bm25_score" = Some (VFloat 0)
     ∧ is_Some (metadata_of w2 l "vector_score"))
  ∧ (∀ l, l ∈ bm25_docs s2 →
       metadata_of w2 l "retrieval_method" = Some (VStr "bm25")
       ∧ metadata_of w2 l "vector_score" = Some (VFloat 0)
       ∧ is_Some (metadata_of w2 l "bm25_score"))
  ∧ NoDup (all_docs s2)
  ∧ length (all_docs s2) = length (semantic_docs s2) + length (bm25_docs s2)
  ∧ (∀ l1 l2, l1 ∈ semantic_docs s2 → l2 ∈ bm25_docs s2 →
       l1 ≠ l2 ∧ l1 ∈ all_docs s2 ∧ l2 ∈ all_docs s2)
  ∧ ∃ results documents0 metadatas0 distances0,
      collection_query (query state) NR_RETRIEVED_DOCS = Ok results
      ∧ documents results !! 0 = Some documents0
      ∧ metadatas results !! 0 = Some metadatas0
      ∧ distances results !! 0 = Some distances0
      ∧ let rows := zip3 documents0 metadatas0 distances0 in
        length (semantic_docs s2) = length rows
        ∧ (∀ i text meta dist, rows !! i = Some (text, meta, dist) →
             ∃ l d, semantic_docs s2 !! i = Some l
                    ∧ all_docs s2 !! i = Some l
                    ∧ heap w2 !! l = Some d
                    ∧ page_content d = text
                    ∧ metadata d !! "retrieval_method" = Some (VStr "vector")
                    ∧ metadata d !! "bm25_score" = Some (VFloat 0)
                    ∧ metadata d !! "vector_score"
                      = Some (if Qlt_le_dec 0 (1 - dist) then VFloat (1 - dist)
                              else VInt 0))
        ∧ ∀ all_results lexical,
            collection_get = Ok all_results →
            bm25_retriever_invoke (corpus_of all_results) NR_RETRIEVED_DOCS
                                  (query state) = Ok lexical →
            length (bm25_docs s2) = length lexical
            ∧ (∀ j doc, lexical !! j = Some doc →
                 ∃ l d, bm25_docs s2 !! j = Some l
                        ∧ all_docs s2 !! (length rows + j) = Some l
                        ∧ heap w2 !! l = Some d
                        ∧ page_content d = page_content doc
                        ∧ metadata d !! "retrieval_method" = Some (VStr "bm25")
                        ∧ metadata d !! "vector_score" = Some (VFloat 0)
                        ∧ metadata d !! "bm25_score"
                          = Some (VFloat (1 - inject_Z (Z.of_nat j)
                                              / inject_Z (Z.of_nat (length lexical)))))
            ∧ (∀ i j text meta dist doc,
                 rows !! i = Some (text, meta, dist) →
                 lexical !! j = Some doc →
                 page_content doc = text →
                 ∃ lv lb dv db,
                   all_docs s2 !! i = Some lv
                   ∧ all_docs s2 !! (length rows + j) = Some lb
                   ∧ lv ≠ lb
                   ∧ heap w2 !! lv = Some dv ∧ heap w2 !! lb = Some db
                   ∧ page_content dv = text ∧ page_content db = text
                   ∧ metadata dv !! "retrieval_method" = Some (VStr "vector")
                   ∧ metadata dv !! "bm25_score" = Some (VFloat 0)
                   ∧ metadata dv !! "vector_score"
                     = Some (if Qlt_le_dec 0 (1 - dist) then VFloat (1 - dist)
                             else VInt 0)
                   ∧ metadata db !! "retrieval_method" = Some (VStr "bm25")
                   ∧ metadata db !! "vector_score" = Some (VFloat 0)
                   ∧ metadata db !! "bm25_score"
                     = Some (VFloat (1 - inject_Z (Z.of_nat j)
                                         / inject_Z (Z.of_nat (length lexical))))).
Proof.
  intros Hsem Hbm.
  destruct (semantic_search_node_query _ _ _ _ _ Hsem) as [Hq1 _].
  pose proof Hbm as Hbm'.
  apply semantic_search_node_inv in Hsem
    as (results & d0 & m0 & x0 & Hres & Hd0 & Hm0 & Hx0 & Hs1 & _ & Hlen1 & Hnd1
        & _ & Hpos1 & _).
  apply bm25_search_node_inv in Hbm
    as (Hs2 & Hnd2 & Hfr2 & Hdoc2 & Hframe2 & _).
  assert (Hsd : semantic_docs s2 = semantic_docs s1) by (by rewrite Hs2).
  assert (Hlive : ∀ l, l ∈ semantic_docs s1 →
            ∃ row, heap w1 !! l = Some (vector_document row)).
  { intros l Hl. apply list_elem_of_lookup in Hl as [i Hi].
    destruct (Hpos1 i l Hi) as (row & _ & Hrow). by exists row. }
  assert (Hdisj : ∀ l1 l2, l1 ∈ semantic_docs s2 → l2 ∈ bm25_docs s2 → l1 ≠ l2).
  { intros l1 l2 H1 H2 ->. rewrite Hsd in H1.
    destruct (Hlive l2 H1) as [row Hrow]. apply Hfr2 in H2. congruence. }
  assert (Hrows : ∀ i text meta dist,
            zip3 d0 m0 x0 !! i = Some (text, meta, dist) →
            ∃ l, semantic_docs s2 !! i = Some l
                 ∧ all_docs s2 !! i = Some l
                 ∧ heap w2 !! l = Some (vector_document (text, meta, dist))).
  { intros i text meta dist Hrow.
    destruct (lookup_lt_is_Some_2 (semantic_docs s1) i) as [l Hl].
    { rewrite Hlen1. by eapply lookup_lt_Some. }
    destruct (Hpos1 i l Hl) as (row & Hrow' & Hheap).
    assert (row = (text, meta, dist)) as -> by congruence.
    exists l. rewrite Hsd. split; [done|]. split.
    - unfold all_docs. rewrite Hsd. by apply lookup_app_l_Some.
    - rewrite Hframe2; [done|]. intros Hin.
      eapply Hdisj; [|exact Hin|done]. rewrite Hsd.
      by eapply list_elem_of_lookup_2. }
  split; [|split; [|split; [|split; [|split]]]].
  - intros l Hl.
    assert (Hl2 : l ∉ bm25_docs s2) by (intros Hin; by eapply Hdisj).
    rewrite Hsd in Hl. destruct (Hlive l Hl) as [row Hrow].
    rewrite !(metadata_of_lookup w2 l (vector_document row))
      by (by rewrite (Hframe2 l Hl2)).
    apply vector_document_metadata.
  - intros l Hl. destruct (Hdoc2 l Hl) as (m & i & doc & Hd).
    rewrite !(metadata_of_lookup w2 l _ _ Hd).
    destruct (bm25_document_metadata m i doc) as (-> & -> & ->). by eauto.
  - unfold all_docs. apply NoDup_app. rewrite Hsd at 1.
    split; [done|]. split; [|done]. intros l H1 H2. by eapply Hdisj.
  - unfold all_docs. by rewrite length_app.
  - intros l1 l2 H1 H2. unfold all_docs. rewrite !elem_of_app.
    split; [by eapply Hdisj|]. by split; [left|right].
  - exists results, d0, m0, x0. repeat (split; [done|]). cbv zeta.
    assert (Hvec : ∀ i text meta dist,
              zip3 d0 m0 x0 !! i = Some (text, meta, dist) →
              ∃ l d, semantic_docs s2 !! i = Some l
                     ∧ all_docs s2 !! i = Some l
                     ∧ heap w2 !! l = Some d
                     ∧ page_content d = text
                     ∧ metadata d !! "retrieval_method" = Some (VStr "vector")
                     ∧ metadata d !! "bm25_score" = Some (VFloat 0)
                     ∧ metadata d !! "vector_score"
                       = Some (if Qlt_le_dec 0 (1 - dist) then VFloat (1 - dist)
                               else VInt 0)).
    { intros i text meta dist Hrow.
      destruct (Hrows i text meta dist Hrow) as (l & Hl & Hall & Hheap).
      exists l, (vector_document (text, meta, dist)).
      repeat (split; [done|]).
      destruct (vector_document_metadata (text, meta, dist)) as (Htag & Hz & _).
      repeat (split; [done|]).
      unfold vector_document, vector_metadata. cbn [metadata].
      rewrite !lookup_insert_ne by done. by rewrite lookup_insert_eq. }
    split; [by rewrite Hsd|]. split; [exact Hvec|].
    intros all_results lexical Hget Hinv. rewrite <- Hq1 in Hinv.
    destruct (bm25_search_node_succeeds collection_get bm25_retriever_invoke
                s1 w1 all_results lexical Hget Hinv)
      as (docs & w' & Hok & _ & Hlen & _ & _ & Hpos & _).
    rewrite Hok in Hbm'. injection Hbm' as <- <-. cbn [bm25_docs semantic_docs] in *.
    assert (Hlex : ∀ j doc, lexical !! j = Some doc →
              ∃ l d, docs !! j = Some l
                     ∧ (semantic_docs s1 ++ docs) !! (length (zip3 d0 m0 x0) + j) = Some l
                     ∧ heap w' !! l = Some d
                     ∧ page_content d = page_content doc
                     ∧ metadata d !! "retrieval_method" = Some (VStr "bm25")
                     ∧ metadata d !! "vector_score" = Some (VFloat 0)
                     ∧ metadata d !! "bm25_score"
                       = Some (VFloat (1 - inject_Z (Z.of_nat j)
                                           / inject_Z (Z.of_nat (length lexical))))).
    { intros j doc Hdoc.
      destruct (lookup_lt_is_Some_2 docs j) as [l Hl].
      { rewrite Hlen. by eapply lookup_lt_Some. }
      destruct (Hpos j l Hl) as (doc' & Hdoc' & Hheap).
      assert (doc' = doc) as -> by congruence.
      exists l, (bm25_document (length lexical) (j, doc)).
      split; [done|]. split.
      { rewrite <- Hlen1. rewrite lookup_app_r by lia.
        by replace (length (semantic_docs s1) + j - length (semantic_docs s1)) with j by lia. }
      split; [done|]. split; [done|].
      apply bm25_document_metadata. }
    split; [done|]. split; [exact Hlex|].
    intros i j text meta dist doc Hrow Hdoc Htext.
    destruct (Hvec i text meta dist Hrow)
      as (lv & dv & Hlv & Hallv & Hdv & Hpv & Htv & Hzv & Hsv).
    destruct (Hlex j doc Hdoc)
      as (lb & db & Hlb & Hallb & Hdb & Hpb & Htb & Hzb & Hsb).
    exists lv, lb, dv, db. unfold all_docs in *. cbn [semantic_docs bm25_docs] in *.
    split; [done|]. split; [done|]. split.
    { eapply Hdisj; by eapply list_elem_of_lookup_2. }
    rewrite Hpb, Htext. done.
Qed.

(** C8: when the lexical search returns [m] results, the candidate built
    for rank [i] (counted from 0) has [bm25_score] [1 - i / m]: 1 for the
    top result, and [1 / m] less from each rank to the next. [m] is the
    number of results, whatever the size of the corpus. *)
Theorem bm25_score_is_linear_rank_decay state w all_results results :
  collection_get = Ok all_results →
  bm25_retriever_invoke (corpus_of all_results) NR_RETRIEVED_DOCS (query state)
  = Ok results →
  ∃ s' w',
    bm25_search_node collection_get bm25_retriever_invoke state w = (Ok s', w')
    ∧ length (bm25_docs s') = length results
    ∧ (∀ i l, bm25_docs s' !! i = Some l →
         metadata_of w' l "bm25_score"
         = Some (VFloat (1 - inject_Z (Z.of_nat i)
                             / inject_Z (Z.of_nat (length results)))))
    ∧ (1 - inject_Z (Z.of_nat 0) / inject_Z (Z.of_nat (length results)) == 1)%Q
    ∧ (∀ i, i < length results →
         ((1 - inject_Z (Z.of_nat i) / inject_Z (Z.of_nat (length results)))
          - (1 - inject_Z (Z.of_nat (S i)) / inject_Z (Z.of_nat (length results)))
          == 1 / inject_Z (Z.of_nat (length results)))%Q).
Proof.
  intros Hget Hinv.
  destruct (bm25_search_node_succeeds collection_get bm25_retriever_invoke
              state w all_results results Hget Hinv)
    as (docs & w' & Hok & _ & Hlen & _ & _ & Hpos & _).
  eexists _, w'. split; [exact Hok|]. cbn [bm25_docs].
  split; [done|]. split; [|split].
  - intros i l Hi. destruct (Hpos i l Hi) as (doc & _ & Hd).
    rewrite (metadata_of_lookup w' l _ _ Hd).
    by destruct (bm25_document_metadata (length results) i doc) as (_ & _ & ->).
  - simpl. unfold Qdiv. by rewrite Qmult_0_l.
  - intros i Hi. rewrite Nat2Z.inj_succ, <- Z.add_1_r, inject_Z_plus.
    assert (¬ (inject_Z (Z.of_nat (length results)) == 0)%Q).
    { change 0%Q with (inject_Z 0). rewrite inject_Z_injective. lia. }
    by field.
Qed.

End sub_graph.

(** ** main_workflow.py: the branch after triage *)

Section main_workflow_correct.

Import main_workflow.

Variable collection_query : string → nat → Result retrieval_workflow.QueryResult.
Variable collection_get : Result retrieval_workflow.GetResult.
Variable bm25_retriever_invoke : list Document → nat → string → Result (list Document).
Variable reranker_predict : list (string * string) → Result (list Q).
Variable query_ai : string → string → Result string.
Variable triage_prompt_system : string.
Variable answer_generation_prompt_system : string.

Lemma run_from_S g fuel node state :
  run_from g (S fuel) node state
  = bind (getkey node (nodes g !! node)) (λ f,
      bind (f state) (λ upd,
        let state := update state upd in
        match conditional_edges g !! node with
        | Some (path, path_map) =>
            bind (path state) (λ key,
              bind (getkey key (path_map !! key)) (λ dest,
                run_from g fuel dest state))
        | None =>
            match edges g !! node with
            | Some (Goto dest) => run_from g fuel dest state
            | Some END | None => ret state
            end
        end)).
Proof. done. Qed.

Lemma path_map_lookup key :
  path_map !! key
  = if decide (key = "DATA_QUESTION") then Some "retrieval"
    else if decide (key = "OUT_OF_SCOPE") then Some "out_of_scope"
    else None.
Proof.
  unfold path_map. repeat case_decide; subst.
  - by rewrite lookup_insert_eq.
  - by rewrite lookup_insert_ne, lookup_insert_eq.
  - by rewrite !lookup_insert_ne, lookup_empty.
Qed.

Lemma triage_node_run state q w label :
  query state = Some q →
  query_ai triage_prompt_system ("Evaluate user query: " +:+ q) = Ok label →
  triage_node query_ai triage_prompt_system state w
  = (Ok (mkInputState (Some q) (Some label) (retrieved_documents state) (answer state)),
     mkWorld (heap w)
             (log w ++ [QueryAI triage_prompt_system ("Evaluate user query: " +:+ q)])).
Proof.
  intros Hq Hai. unfold triage_node. rewrite Hq. simpl.
  erewrite bind_Ok; [|done].
  erewrite bind_Ok; [|by apply call_Ok]. done.
Qed.

#[local] Abbreviation the_workflow :=
  (workflow collection_query collection_get bm25_retriever_invoke reranker_predict
            query_ai triage_prompt_system answer_generation_prompt_system).

(** The run up to the branch: triage, then the lookup of its label. *)
Lemma run_from_triage fuel state q w label :
  query state = Some q →
  query_ai triage_prompt_system ("Evaluate user query: " +:+ q) = Ok label →
  let state' := mkInputState (Some q) (Some label) (retrieved_documents state)
                             (answer state) in
  let w' := mkWorld (heap w)
              (log w ++ [QueryAI triage_prompt_system ("Evaluate user query: " +:+ q)]) in
  run_from the_workflow (S fuel) "triage" state w
  = match path_map !! label with
    | Some dest => run_from the_workflow fuel dest state' w'
    | None => (Raise (Exception "KeyError" label), w')
    end.
Proof.
  intros Hq Hai state' w'. rewrite run_from_S.
  assert (Hn : nodes the_workflow !! "triage"
               = Some (triage_node query_ai triage_prompt_system)) by done.
  assert (Hc : conditional_edges the_workflow !! "triage"
               = Some (λ s, getkey "query_type" (query_type s), path_map)) by done.
  rewrite Hn, Hc. cbn [getkey].
  erewrite bind_Ok; [|done].
  erewrite bind_Ok; [|by apply triage_node_run].
  assert (Hu : update state state' = state').
  { unfold update, state'. simpl.
    by destruct (retrieved_documents state), (answer state). }
  cbn zeta. fold state' w'. rewrite Hu.
  erewrite bind_Ok; [|done].
  destruct (path_map !! label) as [dest|]; [by erewrite bind_Ok|done].
Qed.


(** C7: when triage answers [OUT_OF_SCOPE] the run ends with the fixed
    message as its answer; the only call it makes is the triage call: no
    document is created or changed, neither index is queried and the
    reranker is not called. *)
Theorem out_of_scope_short_circuits input q w :
  query input = Some q →
  query_ai triage_prompt_system ("Evaluate user query: " +:+ q) = Ok "OUT_OF_SCOPE" →
  ∃ final w',
    main_rag_app collection_query collection_get bm25_retriever_invoke
                 reranker_predict query_ai triage_prompt_system
                 answer_generation_prompt_system input w
    = (Ok final, w')
    ∧ answer final = Some "Your query is out of scope."
    ∧ retrieved_documents final = retrieved_documents input
    ∧ heap w' = heap w
    ∧ log w' = log w ++ [QueryAI triage_prompt_system ("Evaluate user query: " +:+ q)]
    ∧ Forall (λ ev, is_retrieval_call ev = false ∧ is_reranker_call ev = false)
             (drop (length (log w)) (log w')).
Proof.
  intros Hq Hai.
  set (ev := QueryAI triage_prompt_system ("Evaluate user query: " +:+ q)).
  eexists _, (mkWorld (heap w) (log w ++ [ev])).
  split; [|split; [|split; [|split; [done|split; [done|]]]]].
  - unfold main_rag_app, invoke, recursion_limit.
    change (entry_point _) with "triage".
    rewrite (run_from_triage _ _ _ _ _ Hq Hai), path_map_lookup.
    rewrite decide_False, decide_True by done.
    rewrite run_from_S.
    assert (Hn : nodes the_workflow !! "out_of_scope"
                 = Some (returning_output out_of_scope_node)) by done.
    assert (Hc : conditional_edges the_workflow !! "out_of_scope" = None) by done.
    assert (He : edges the_workflow !! "out_of_scope" = Some END) by done.
    rewrite Hn, Hc, He. reflexivity.
  - done.
  - simpl. by destruct (retrieved_documents input).
  - simpl. rewrite drop_app_length. by repeat constructor.
Qed.

(** C10: [triage_node] stores the classifier's answer as it is, and the
    branch table knows exactly the two keys [OUT_OF_SCOPE] and
    [DATA_QUESTION]. For any other answer the table has no entry: neither
    [out_of_scope] nor [retrieval] is selected, the run stops at the branch
    with the failed lookup, and nothing but the triage call has happened. *)
Theorem unknown_label_selects_no_branch input q w label :
  query input = Some q →
  query_ai triage_prompt_system ("Evaluate user query: " +:+ q) = Ok label →
  label ≠ "OUT_OF_SCOPE" → label ≠ "DATA_QUESTION" →
  let w' := mkWorld (heap w)
              (log w ++ [QueryAI triage_prompt_system ("Evaluate user query: " +:+ q)]) in
  triage_node query_ai triage_prompt_system input w
  = (Ok (mkInputState (Some q) (Some label) (retrieved_documents input) (answer input)),
     w')
  ∧ path_map !! "OUT_OF_SCOPE" = Some "out_of_scope"
  ∧ path_map !! "DATA_QUESTION" = Some "retrieval"
  ∧ path_map !! label = None
  ∧ (∀ key, is_Some (path_map !! key) → key = "OUT_OF_SCOPE" ∨ key = "DATA_QUESTION")
  ∧ main_rag_app collection_query collection_get bm25_retriever_invoke
                 reranker_predict query_ai triage_prompt_system
                 answer_generation_prompt_system input w
    = (Raise (Exception "KeyError" label), w').
Proof.
  intros Hq Hai Hoos Hdq w'.
  assert (Hnone : path_map !! label = None).
  { rewrite path_map_lookup. by repeat case_decide. }
  split; [by apply triage_node_run|].
  split; [done|]. split; [done|]. split; [done|]. split.
  - intros key [dest Hkey]. rewrite path_map_lookup in Hkey.
    repeat case_decide; by auto.
  - unfold main_rag_app, invoke, recursion_limit.
    change (entry_point _) with "triage".
    by rewrite (run_from_triage _ _ _ _ _ Hq Hai), Hnone.
Qed.

End main_workflow_correct.

(** ** More on [merge_and_rerank_node] *)

(** The loop that stores the scores, when the scores may run out: it writes
    as long as there is a score and then fails on the index. *)
Lemma store_loop_short docs : ∀ k ns w,
  allocated w docs → docs ≠ [] → length ns < length docs + k →
  for_each (imap (λ i doc, (k + i, doc)) docs)
    (λ '(i, doc), let* x := getitem ns i in
                  metadata_setitem doc "crossencoder_score" (VFloat x)) w
  = (Raise (Exception "IndexError" "index out of range"),
     mkWorld (store_scores (heap w) (zip docs (drop k ns))) (log w)).
Proof.
  induction docs as [|l docs IH]; intros k ns w Hal Hne Hlen; [done|].
  - apply Forall_cons in Hal as [[d Hd] Hal].
    cbn [imap for_each].
    destruct (ns !! k) as [x|] eqn:Hx.
    + rewrite (drop_S _ _ _ Hx). cbn [zip zip_with].
      erewrite bind_Ok.
      2: { erewrite bind_Ok; [by apply (metadata_setitem_run _ _ d)|].
           unfold getitem. by rewrite Nat.add_0_r, Hx. }
      rewrite (imap_ext _ (λ i doc, (S k + i, doc))).
      2: { intros i y _. simpl. f_equal. lia. }
      apply lookup_lt_Some in Hx. simpl in Hlen.
      rewrite IH; [done|by apply allocated_alter| |simpl; lia].
      intros ->. simpl in Hlen. lia.
    + erewrite bind_Raise.
      2: { erewrite bind_Raise; [done|].
           unfold getitem. by rewrite Nat.add_0_r, Hx. }
      apply lookup_ge_None in Hx. rewrite drop_ge by done.
      by destruct w.
Qed.

Section fusion_errors.

Variable reranker_predict : list (string * string) → Result (list Q).

(** The run of the node up to the reranker's answer. *)
Lemma merge_and_rerank_node_after_predict state w :
  all_docs state ≠ [] →
  allocated w (all_docs state) →
  merge_and_rerank_node reranker_predict state w
  = bind (lift (reranker_predict (pairs state w)))
      (λ scores,
         let* normalized := normalized_scores scores in
         let* _ :=
           for_each (enumerate (all_docs state))
             (λ '(i, doc),
                let* x := getitem normalized i in
                metadata_setitem doc "crossencoder_score" (VFloat x)) in
         ret (mkRetrievalOutputState (query state)
                (take NR_FINAL_DOCS
                   (map snd (sorted_reverse fst (zip scores (all_docs state)))))))
      (mkWorld (heap w) (log w ++ [RerankerPredict (pairs state w)])).
Proof.
  intros Hne Hal.
  unfold merge_and_rerank_node. fold (all_docs state).
  destruct (all_docs state) as [|l0 docs0] eqn:Hall; [done|].
  rewrite <- Hall in *.
  erewrite bind_Ok; [|by apply mapM_page_content].
  fold (pairs_of (query state) (heap w) (all_docs state)). fold (pairs state w).
  unfold call. unfold bind at 1. unfold bind at 1. unfold emit. unfold bind, lift.
  by destruct (reranker_predict (pairs state w)).
Qed.

(** A failure of the reranker is the failure of the node, and no document
    has been touched. *)
Theorem reranker_failure_is_fatal state w e :
  all_docs state ≠ [] →
  allocated w (all_docs state) →
  reranker_predict (pairs state w) = Raise e →
  merge_and_rerank_node reranker_predict state w
  = (Raise e, mkWorld (heap w) (log w ++ [RerankerPredict (pairs state w)])).
Proof.
  intros Hne Hal Hrr.
  rewrite merge_and_rerank_node_after_predict by done.
  unfold bind, lift. by rewrite Hrr.
Qed.

(** A reranker that answers with no score at all: numpy's [min]/[max] on
    the empty array raises, before any document is touched. *)
Theorem no_scores_is_a_ValueError state w :
  all_docs state ≠ [] →
  allocated w (all_docs state) →
  reranker_predict (pairs state w) = Ok [] →
  merge_and_rerank_node reranker_predict state w
  = (Raise zero_size_error,
     mkWorld (heap w) (log w ++ [RerankerPredict (pairs state w)])).
Proof.
  intros Hne Hal Hrr.
  rewrite merge_and_rerank_node_after_predict by done.
  unfold bind, lift. by rewrite Hrr.
Qed.

Lemma merge_and_rerank_node_too_few state w scores :
  allocated w (all_docs state) →
  reranker_predict (pairs state w) = Ok scores →
  scores ≠ [] →
  length scores < length (all_docs state) →
  ∃ normalized,
    normalized_scores scores = ret normalized
    ∧ merge_and_rerank_node reranker_predict state w
      = (Raise (Exception "IndexError" "index out of range"),
         mkWorld (store_scores (heap w)
                    (zip (take (length scores) (all_docs state)) normalized))
                 (log w ++ [RerankerPredict (pairs state w)])).
Proof.
  intros Hal Hrr Hsc Hlen.
  assert (Hne : all_docs state ≠ []).
  { intros H. rewrite H in Hlen. simpl in Hlen. lia. }
  destruct (normalized_scores_run scores Hsc)
    as (mn & mx & _ & _ & _ & _ & _ & Hns).
  set (ns := map (min_max_scale mn mx) scores) in *.
  assert (Hnslen : length ns = length scores) by apply length_map.
  assert (Hzip : zip (all_docs state) ns
                 = zip (take (length scores) (all_docs state)) ns).
  { rewrite <- Hnslen. symmetry. apply (zip_with_take_l pair). }
  exists ns. split; [done|].
  rewrite <- Hzip. rewrite merge_and_rerank_node_after_predict by done.
  unfold lift. rewrite Hrr.
  erewrite bind_Ok; [|done]. erewrite bind_Ok; [|by rewrite Hns].
  erewrite bind_Raise; [done|].
  unfold enumerate.
  rewrite (store_loop_short (all_docs state) 0); [by rewrite drop_0|done|done|].
  rewrite Hnslen. lia.
Qed.

(** A reranker that answers with fewer scores than candidates (but at least
    one): the node fails with an IndexError, after it has written the
    normalized score into the first [length scores] candidates. *)
Theorem too_few_scores_fail_after_partial_write state w scores :
  allocated w (all_docs state) →
  reranker_predict (pairs state w) = Ok scores →
  scores ≠ [] →
  length scores < length (all_docs state) →
  ∃ normalized w',
    normalized_scores scores = ret normalized
    ∧ merge_and_rerank_node reranker_predict state w
      = (Raise (Exception "IndexError" "index out of range"), w')
    ∧ (∀ l, l ∈ take (length scores) (all_docs state) →
         ∃ x, x ∈ normalized
              ∧ metadata_of w' l "crossencoder_score" = Some (VFloat x))
    ∧ (∀ l, l ∉ take (length scores) (all_docs state) →
         heap w' !! l = heap w !! l).
Proof.
  intros Hal Hrr Hsc Hlen.
  destruct (merge_and_rerank_node_too_few state w scores Hal Hrr Hsc Hlen)
    as (ns & Hns & Hfail).
  assert (Hnslen : length ns = length scores).
  { destruct (normalized_scores_run scores Hsc)
      as (mn & mx & _ & _ & _ & _ & _ & Hns').
    rewrite Hns' in Hns. apply (f_equal (λ m : M (list Q), m w)) in Hns.
    injection Hns as <-. apply length_map. }
  eexists ns, _. split; [done|]. split; [exact Hfail|]. cbn [heap]. split.
  - intros l Hl.
    destruct (elem_of_last_position l _ Hl) as (i & Hi & Hlast).
    assert (Hi_lt : i < length scores).
    { apply lookup_lt_Some in Hi. rewrite length_take in Hi. lia. }
    destruct (lookup_lt_is_Some_2 ns i) as [x Hx]; [lia|].
    assert (is_Some (heap w !! l)) as [d Hd].
    { unfold allocated in Hal. rewrite Forall_forall in Hal. apply Hal.
      eapply subseteq_take, Hl. }
    exists x. split; [by eapply list_elem_of_lookup_2|].
    unfold metadata_of. cbn [heap].
    rewrite (store_scores_last _ _ _ i l x); try done.
    + rewrite Hd. simpl. by rewrite lookup_insert_eq.
    + rewrite length_take. lia.
  - intros l Hl. by apply store_scores_other.
Qed.

End fusion_errors.

(** ** Order and extremes under min-max normalization *)




(** When the raw scores are not all equal, a candidate holding the minimum
    raw score gets the normalized score 0. *)
Theorem minimum_normalizes_to_zero (scores : list Q) mn mx :
  np_min scores = Some mn → np_max scores = Some mx → (mn < mx)%Q →
  ∃ normalized,
    normalized_scores scores = ret normalized
    ∧ ∀ i s, scores !! i = Some s → (s == mn)%Q →
        ∃ x, normalized !! i = Some x ∧ (x == 0)%Q.
Proof.
  intros Hmn Hmx Hlt.
  exists (map (min_max_scale mn mx) scores). split.
  - unfold normalized_scores, min_max_scale. rewrite Hmn, Hmx.
    by destruct (Qlt_le_dec mn mx).
  - intros i s Hi Hs. exists (min_max_scale mn mx s).
    rewrite list_lookup_fmap, Hi. split; [done|].
    unfold min_max_scale.
    destruct (Qlt_le_dec mn mx) as [_|Hle]; [|by apply Qlt_not_le in Hlt].
    rewrite Hs. unfold Qdiv.
    assert (H0 : (mn - mn == 0)%Q) by ring. rewrite H0. apply Qmult_0_l.
Qed.

(** ** The head of the ranking *)

Lemma filter_head_first {A} (P : A → Prop) `{!∀ x, Decision (P x)} (l : list A) x rest :
  filter P l = x :: rest →
  ∃ i, l !! i = Some x ∧ P x ∧ ∀ j y, j < i → l !! j = Some y → ¬ P y.
Proof.
  induction l as [|a l IH]; [done|].
  rewrite filter_cons. destruct (decide (P a)) as [Ha|Ha].
  - intros [= -> _]. exists 0. split; [done|]. split; [done|]. intros j y Hj. lia.
  - intros Hf. destruct (IH Hf) as (i & Hi & Hx & Hbefore).
    exists (S i). split; [done|]. split; [done|].
    intros [|j] y Hj Hy; simpl in Hy.
    + by injection Hy as <-.
    + apply (Hbefore j); [lia|done].
Qed.

Lemma sorted_reverse_head {A} (key : A → Q) (l : list A) x rest :
  sorted_reverse key l = x :: rest →
  ∃ i, l !! i = Some x
       ∧ (∀ y, y ∈ l → (key y <= key x)%Q)
       ∧ (∀ j y, j < i → l !! j = Some y → (key y < key x)%Q).
Proof.
  intros Hs.
  assert (Hsorted := sorted_reverse_sorted key l). rewrite Hs in Hsorted.
  apply StronglySorted_inv in Hsorted as [_ Hall]. rewrite Forall_forall in Hall.
  assert (Hmax : ∀ y, y ∈ l → (key y <= key x)%Q).
  { intros y Hy. rewrite <- (sorted_reverse_Permutation key l), Hs in Hy.
    apply elem_of_cons in Hy as [->|Hy]; [apply Qle_refl|by apply Hall]. }
  assert (Hf := sorted_reverse_stable key (key x) l). rewrite Hs in Hf.
  rewrite filter_cons in Hf.
  destruct (decide (key x == key x)%Q) as [_|n]; [|by destruct n].
  symmetry in Hf.
  apply (filter_head_first (λ a, key a == key x)%Q) in Hf as (i & Hi & _ & Hbefore).
  exists i. split; [done|]. split; [done|].
  intros j y Hj Hy.
  assert (Hle : (key y <= key x)%Q) by (by eapply Hmax, list_elem_of_lookup_2).
  apply Qle_lteq in Hle as [Hlt|Heq]; [done|].
  by destruct (Hbefore j y Hj Hy).
Qed.

Section top_document.

Variable reranker_predict : list (string * string) → Result (list Q).

(** The first returned document is the candidate with the highest raw
    score; among candidates with that score it is the one that comes first
    in the batch, where vector candidates precede lexical ones. *)
Theorem top_document_has_highest_raw_score state w scores :
  all_docs state ≠ [] →
  allocated w (all_docs state) →
  reranker_predict (pairs state w) = Ok scores →
  length scores = length (all_docs state) →
  ∃ out w' top rest i s,
    merge_and_rerank_node reranker_predict state w = (Ok out, w')
    ∧ o_retrieved_documents out = top :: rest
    ∧ all_docs state !! i = Some top ∧ scores !! i = Some s
    ∧ (∀ s', s' ∈ scores → (s' <= s)%Q)
    ∧ (∀ j s', j < i → scores !! j = Some s' → (s' < s)%Q).
Proof.
  intros Hne Hal Hrr Hlen.
  destruct (merge_and_rerank_node_run _ state w scores Hne Hal Hrr Hlen)
    as (mn & mx & _ & _ & Hrun).
  destruct (sorted_reverse fst (zip scores (all_docs state))) as [|[s top] ranked]
    eqn:Hsorted.
  { apply (f_equal length) in Hsorted.
    rewrite sorted_reverse_length, length_zip, Hlen in Hsorted.
    destruct (all_docs state); [done|simpl in Hsorted; lia]. }
  destruct (sorted_reverse_head fst _ _ _ Hsorted) as (i & Hi & Hmax & Hbefore).
  apply lookup_zip_with_Some in Hi as (s0 & l0 & [= <- <-] & Hsi & Hli).
  eexists _, _, top, (take 4 ranked.*2), i, s.
  split; [exact Hrun|]. split; [done|]. split; [done|]. split; [done|]. split.
  - intros s' Hs'. apply list_elem_of_lookup in Hs' as [j Hj].
    destruct (lookup_lt_is_Some_2 (all_docs state) j) as [l' Hl'].
    { rewrite <- Hlen. by eapply lookup_lt_Some. }
    apply (Hmax (s', l')). apply list_elem_of_lookup. exists j.
    apply lookup_zip_with_Some. by eexists _, _.
  - intros j s' Hj Hs'.
    destruct (lookup_lt_is_Some_2 (all_docs state) j) as [l' Hl'].
    { rewrite <- Hlen. by eapply lookup_lt_Some. }
    apply (Hbefore j (s', l') Hj). apply lookup_zip_with_Some. by eexists _, _.
Qed.

(** The returned documents are candidates of the batch, each at most as
    often as the batch lists it: a batch of distinct objects gives distinct
    results. *)
Theorem returned_documents_are_distinct_candidates state w scores :
  all_docs state ≠ [] →
  allocated w (all_docs state) →
  reranker_predict (pairs state w) = Ok scores →
  length scores = length (all_docs state) →
  ∃ out w',
    merge_and_rerank_node reranker_predict state w = (Ok out, w')
    ∧ o_retrieved_documents out ⊆ all_docs state
    ∧ (∃ dropped, o_retrieved_documents out ++ dropped ≡ₚ all_docs state)
    ∧ (NoDup (all_docs state) → NoDup (o_retrieved_documents out)).
Proof.
  intros Hne Hal Hrr Hlen.
  destruct (merge_and_rerank_node_run _ state w scores Hne Hal Hrr Hlen)
    as (mn & mx & _ & _ & Hrun).
  eexists _, _. split; [exact Hrun|]. cbn [o_retrieved_documents].
  set (sorted_docs := map snd (sorted_reverse fst (zip scores (all_docs state)))).
  assert (Hperm : sorted_docs ≡ₚ all_docs state).
  { unfold sorted_docs. rewrite sorted_reverse_Permutation.
    change (map snd (zip scores (all_docs state)))
      with ((zip scores (all_docs state)).*2).
    rewrite snd_zip; [done|lia]. }
  split; [apply top_docs_subseteq|]. split.
  - exists (drop NR_FINAL_DOCS sorted_docs). by rewrite take_drop.
  - intros Hnd. rewrite <- Hperm in Hnd.
    rewrite <- (take_drop NR_FINAL_DOCS sorted_docs) in Hnd.
    by apply NoDup_app in Hnd as [? _].
Qed.

End top_document.

(** ** More on the two adapters *)


Lemma length_zip3 {A B C} (a : list A) (b : list B) (c : list C) :
  length (zip3 a b c) = length a `min` (length b `min` length c).
Proof.
  revert b c. induction a as [|x a IH]; intros [|y b] [|z c]; simpl; try lia.
  rewrite IH. lia.
Qed.

Lemma lookup_zip3_Some {A B C} (a : list A) (b : list B) (c : list C) i x y z :
  zip3 a b c !! i = Some (x, y, z) ↔ a !! i = Some x ∧ b !! i = Some y ∧ c !! i = Some z.
Proof.
  revert b c i. induction a as [|x' a IH]; intros [|y' b] [|z' c] i; simpl;
    try (split; [done|by intros (?&?&?)]).
  destruct i as [|i]; simpl; [|apply IH].
  split; [by intros [= -> -> ->]|by intros ([= ->]&[= ->]&[= ->])].
Qed.

Lemma vector_metadata_other meta vs k :
  k ∉ score_keys → vector_metadata meta vs !! k = default ∅ meta !! k.
Proof.
  unfold score_keys. rewrite !not_elem_of_cons. intros (?&?&?&?&?&_).
  unfold vector_metadata. by rewrite !lookup_insert_ne.
Qed.

Lemma bm25_metadata_other meta x k :
  k ∉ score_keys → bm25_metadata meta x !! k = meta !! k.
Proof.
  unfold score_keys. rewrite !not_elem_of_cons. intros (?&?&?&?&?&_).
  unfold bm25_metadata. by rewrite !lookup_insert_ne.
Qed.

Section adapters_more.

Variable collection_query : string → nat → Result QueryResult.
Variable collection_get : Result GetResult.
Variable bm25_retriever_invoke : list Document → nat → string → Result (list Document).
Variable reranker_predict : list (string * string) → Result (list Q).

(** The vector search succeeds: one fresh document per zipped row. *)
Lemma semantic_search_node_succeeds state w results documents0 metadatas0 distances0 :
  collection_query (query state) NR_RETRIEVED_DOCS = Ok results →
  documents results !! 0 = Some documents0 →
  metadatas results !! 0 = Some metadatas0 →
  distances results !! 0 = Some distances0 →
  ∃ docs w',
    semantic_search_node collection_query state w
    = (Ok (mkRetrievalInputState (query state) docs (bm25_docs state)
                                 (retrieved_documents state)), w')
    ∧ log w' = log w ++ [CollectionQuery (query state) NR_RETRIEVED_DOCS]
    ∧ length docs = length (zip3 documents0 metadatas0 distances0)
    ∧ NoDup docs
    ∧ (∀ l, l ∈ docs → heap w !! l = None)
    ∧ (∀ i l, docs !! i = Some l →
         ∃ row, zip3 documents0 metadatas0 distances0 !! i = Some row
                ∧ heap w' !! l = Some (vector_document row))
    ∧ (∀ l, l ∉ docs → heap w' !! l = heap w !! l).
Proof.
  intros Hq Hd Hm Hx.
  set (w1 := mkWorld (heap w) (log w ++ [CollectionQuery (query state) NR_RETRIEVED_DOCS])).
  destruct (mapM_new_Document vector_document
              (zip3 documents0 metadatas0 distances0) w1)
    as (docs & w' & Hrun & Hlen & Hlog & Hnd & Hfr & Hpos & Hframe).
  exists docs, w'. split; [|by repeat split].
  unfold semantic_search_node.
  erewrite bind_Ok; [|by apply call_Ok].
  unfold getitem. rewrite Hd, Hm, Hx.
  do 3 (erewrite bind_Ok; [|done]).
  erewrite bind_Ok; [done|].
  fold w1. rewrite <- Hrun. apply (f_equal (λ m : M (list loc), m w1)).
  apply mapM_ext. by intros [[doc meta] dist].
Qed.

(** The vector adapter builds one candidate per row of the query result, in
    order, as many as the shortest of the three returned lists has entries.
    A candidate carries the row's text, and of the stored metadata every
    key except the five score keys, which the adapter sets itself. *)
Theorem vector_candidates_follow_rows state w results documents0 metadatas0 distances0 :
  collection_query (query state) NR_RETRIEVED_DOCS = Ok results →
  documents results !! 0 = Some documents0 →
  metadatas results !! 0 = Some metadatas0 →
  distances results !! 0 = Some distances0 →
  ∃ s1 w1,
    semantic_search_node collection_query state w = (Ok s1, w1)
    ∧ length (semantic_docs s1)
      = length documents0 `min` (length metadatas0 `min` length distances0)
    ∧ ∀ i l, semantic_docs s1 !! i = Some l →
        ∃ doc meta d,
          documents0 !! i = Some doc ∧ metadatas0 !! i = Some meta
          ∧ heap w1 !! l = Some d
          ∧ page_content d = doc
          ∧ (∀ k, k ∉ score_keys → metadata d !! k = default ∅ meta !! k)
          ∧ (∀ k, k ∈ score_keys → is_Some (metadata d !! k)).
Proof.
  intros Hq Hd Hm Hx.
  destruct (semantic_search_node_succeeds state w _ _ _ _ Hq Hd Hm Hx)
    as (docs & w1 & Hrun & _ & Hlen & _ & _ & Hpos & _).
  eexists _, w1. split; [exact Hrun|]. cbn [semantic_docs].
  split; [by rewrite Hlen, length_zip3|].
  intros i l Hi. destruct (Hpos i l Hi) as ([[doc meta] dist] & Hrow & Hl).
  apply lookup_zip3_Some in Hrow as (Hdoc & Hmeta & _).
  exists doc, meta, (vector_document (doc, meta, dist)).
  repeat (split; [done|]). split.
  - intros k Hk. by apply vector_metadata_other.
  - unfold score_keys. intros k Hk. cbn [vector_document metadata].
    unfold vector_metadata.
    repeat (apply elem_of_cons in Hk as [->|Hk];
            [rewrite ?lookup_insert_ne by done; rewrite lookup_insert_eq; by eexists|]).
    by apply elem_of_nil in Hk.
Qed.

(** The vector score is [max(0, 1 - dist)]: [1 - dist] for a distance below
    1 and 0 from there on, so for the non-negative distances of an index it
    lies in [0, 1]. *)
Theorem vector_score_is_clamped_similarity state w s1 w1 i l :
  semantic_search_node collection_query state w = (Ok s1, w1) →
  semantic_docs s1 !! i = Some l →
  ∃ results distances0 dist,
    collection_query (query state) NR_RETRIEVED_DOCS = Ok results
    ∧ distances results !! 0 = Some distances0
    ∧ distances0 !! i = Some dist
    ∧ ((dist < 1)%Q →
       metadata_of w1 l "vector_score" = Some (VFloat (1 - dist))
       ∧ (0 < 1 - dist)%Q ∧ ((0 <= dist)%Q → (1 - dist <= 1)%Q))
    ∧ ((1 <= dist)%Q → metadata_of w1 l "vector_score" = Some (VInt 0)).
Proof.
  intros Hrun Hi.
  apply semantic_search_node_inv in Hrun
    as (results & d0 & m0 & x0 & Hq & _ & _ & Hx & _ & _ & _ & _ & _ & Hpos & _).
  destruct (Hpos i l Hi) as ([[doc meta] dist] & Hrow & Hl).
  apply lookup_zip3_Some in Hrow as (_ & _ & Hdist).
  exists results, x0, dist. repeat (split; [done|]).
  rewrite (metadata_of_lookup _ _ _ _ Hl).
  cbn [vector_document metadata]. unfold vector_metadata.
  rewrite !lookup_insert_ne by done. rewrite lookup_insert_eq.
  destruct (Qlt_le_dec 0 (1 - dist)) as [Hpos'|Hnpos]; split.
  - intros _. split; [done|]. split; [done|]. intros H0. lra.
  - intros Hge. lra.
  - intros Hlt. lra.
  - done.
Qed.

(** The lexical adapter builds one candidate per result, in rank order; a
    candidate carries the result's text and, except for the five score
    keys, its metadata; its score lies in (0, 1] and falls strictly with
    the rank. *)
Theorem lexical_candidates_follow_results state w all_results results :
  collection_get = Ok all_results →
  bm25_retriever_invoke (corpus_of all_results) NR_RETRIEVED_DOCS (query state)
  = Ok results →
  ∃ s' w',
    bm25_search_node collection_get bm25_retriever_invoke state w = (Ok s', w')
    ∧ length (bm25_docs s') = length results
    ∧ (∀ i l, bm25_docs s' !! i = Some l →
         ∃ doc d x,
           results !! i = Some doc ∧ heap w' !! l = Some d
           ∧ page_content d = page_content doc
           ∧ (∀ k, k ∉ score_keys → metadata d !! k = metadata doc !! k)
           ∧ metadata d !! "bm25_score" = Some (VFloat x)
           ∧ (0 < x)%Q ∧ (x <= 1)%Q)
    ∧ (∀ i j li lj xi xj, i < j →
         bm25_docs s' !! i = Some li → bm25_docs s' !! j = Some lj →
         metadata_of w' li "bm25_score" = Some (VFloat xi) →
         metadata_of w' lj "bm25_score" = Some (VFloat xj) →
         (xj < xi)%Q).
Proof.
  intros Hget Hinv.
  destruct (bm25_search_node_succeeds collection_get bm25_retriever_invoke
              state w all_results results Hget Hinv)
    as (docs & w' & Hok & _ & Hlen & _ & _ & Hpos & _).
  eexists _, w'. split; [exact Hok|]. cbn [bm25_docs]. split; [done|].
  assert (Hm : ∀ i, i < length results →
            (0 < inject_Z (Z.of_nat (length results)))%Q).
  { intros i Hi. change 0%Q with (inject_Z 0). rewrite <- Zlt_Qlt. lia. }
  split.
  - intros i l Hi. destruct (Hpos i l Hi) as (doc & Hdoc & Hl).
    assert (Hlt : i < length results) by (by eapply lookup_lt_Some).
    eexists doc, _, _. split; [done|]. split; [exact Hl|].
    split; [done|]. split; [intros k Hk; by apply bm25_metadata_other|].
    split; [by apply bm25_document_metadata|].
    specialize (Hm i Hlt).
    assert (Hi0 : (0 <= inject_Z (Z.of_nat i))%Q).
    { change 0%Q with (inject_Z 0). rewrite <- Zle_Qle. lia. }
    assert (Hilt : (inject_Z (Z.of_nat i) < inject_Z (Z.of_nat (length results)))%Q).
    { rewrite <- Zlt_Qlt. lia. }
    assert (Hr0 : (0 <= inject_Z (Z.of_nat i) / inject_Z (Z.of_nat (length results)))%Q).
    { apply Qle_shift_div_l; [done|]. by rewrite Qmult_0_l. }
    assert (Hr1 : (inject_Z (Z.of_nat i) / inject_Z (Z.of_nat (length results)) < 1)%Q).
    { apply Qlt_shift_div_r; [done|]. by rewrite Qmult_1_l. }
    set (r := (inject_Z (Z.of_nat i) / inject_Z (Z.of_nat (length results)))%Q) in *.
    split; lra.
  - intros i j li lj xi xj Hij Hi Hj Hxi Hxj.
    destruct (Hpos i li Hi) as (di & _ & Hli).
    destruct (Hpos j lj Hj) as (dj & Hdj & Hlj).
    assert (Hjlt : j < length results) by (by eapply lookup_lt_Some).
    rewrite (metadata_of_lookup _ _ _ _ Hli) in Hxi.
    rewrite (metadata_of_lookup _ _ _ _ Hlj) in Hxj.
    destruct (bm25_document_metadata (length results) i di) as (_ & _ & Hi').
    destruct (bm25_document_metadata (length results) j dj) as (_ & _ & Hj').
    rewrite Hi' in Hxi. rewrite Hj' in Hxj.
    injection Hxi as <-. injection Hxj as <-.
    specialize (Hm j Hjlt).
    apply Qplus_lt_r. apply Qopp_lt_compat.
    unfold Qdiv. apply Qmult_lt_compat_r; [by apply Qinv_lt_0_compat|].
    rewrite <- Zlt_Qlt. lia.
Qed.

End adapters_more.

(** ** What a returning run of the node and of the sub-graph guarantees *)

Lemma store_scores_dom h lx l :
  is_Some (store_scores h lx !! l) ↔ is_Some (h !! l).
Proof.
  revert h. induction lx as [|[l0 x] lx IH]; intros h; [done|].
  simpl. unfold store_scores in IH. rewrite IH.
  destruct (decide (l0 = l)) as [->|Hne].
  - rewrite lookup_alter_eq. by rewrite fmap_is_Some.
  - by rewrite lookup_alter_ne.
Qed.

Lemma min_max_scale_bounds mn mx s :
  (mn <= s)%Q → (s <= mx)%Q →
  (0 <= min_max_scale mn mx s)%Q ∧ (min_max_scale mn mx s <= 1)%Q.
Proof.
  intros Hlo Hhi. unfold min_max_scale.
  destruct (Qlt_le_dec mn mx); [by apply minmax_ratio_bounds|done].
Qed.

Section node_returns.

Variable reranker_predict : list (string * string) → Result (list Q).

(** The node on a non-empty batch whose reranker answers with at least one
    score per candidate. *)
Lemma merge_and_rerank_node_run_ge state w scores :
  all_docs state ≠ [] →
  allocated w (all_docs state) →
  reranker_predict (pairs state w) = Ok scores →
  length (all_docs state) ≤ length scores →
  ∃ mn mx,
    np_min scores = Some mn ∧ np_max scores = Some mx
    ∧ (∀ s, s ∈ scores → (mn <= s)%Q ∧ (s <= mx)%Q)
    ∧ merge_and_rerank_node reranker_predict state w
      = (Ok (mkRetrievalOutputState (query state)
               (take NR_FINAL_DOCS
                     (map snd (sorted_reverse fst (zip scores (all_docs state)))))),
         mkWorld (store_scores (heap w)
                    (zip (all_docs state) (map (min_max_scale mn mx) scores)))
                 (log w ++ [RerankerPredict (pairs state w)])).
Proof.
  intros Hne Hal Hrr Hlen.
  assert (Hsc : scores ≠ []).
  { intros ->. destruct (all_docs state); [done|simpl in Hlen; lia]. }
  destruct (normalized_scores_run scores Hsc)
    as (mn & mx & Hmn & Hmx & _ & _ & Hb & Hns).
  exists mn, mx. do 3 (split; [done|]).
  rewrite merge_and_rerank_node_after_predict by done.
  unfold lift. rewrite Hrr.
  erewrite bind_Ok; [|done]. erewrite bind_Ok; [|by rewrite Hns].
  erewrite bind_Ok; [done|].
  unfold enumerate.
  rewrite (store_loop (all_docs state) 0); [by rewrite drop_0|done|].
  rewrite length_map. lia.
Qed.

Lemma merge_and_rerank_node_inv state w out w' :
  allocated w (all_docs state) →
  merge_and_rerank_node reranker_predict state w = (Ok out, w') →
  (all_docs state = [] ∧ o_retrieved_documents out = [] ∧ w' = w)
  ∨ (∃ scores,
       all_docs state ≠ []
       ∧ reranker_predict (pairs state w) = Ok scores
       ∧ length (all_docs state) ≤ length scores
       ∧ o_retrieved_documents out
         = take NR_FINAL_DOCS
             (map snd (sorted_reverse fst
                         (zip (take (length (all_docs state)) scores)
                              (all_docs state))))
       ∧ log w' = log w ++ [RerankerPredict (pairs state w)]).
Proof.
  intros Hal Hrun.
  destruct (decide (all_docs state = [])) as [Hempty|Hne].
  { left. revert Hrun. unfold merge_and_rerank_node. fold (all_docs state).
    rewrite Hempty. by intros [= <- <-]. }
  right.
  destruct (reranker_predict (pairs state w)) as [scores|e] eqn:Hrr.
  2: { rewrite merge_and_rerank_node_after_predict in Hrun by done.
       unfold bind, lift in Hrun. by rewrite Hrr in Hrun. }
  exists scores. do 2 (split; [done|]).
  destruct (decide (scores = [])) as [->|Hsc].
  { rewrite merge_and_rerank_node_after_predict in Hrun by done.
    unfold bind, lift in Hrun. by rewrite Hrr in Hrun. }
  destruct (decide (length (all_docs state) ≤ length scores)) as [Hlen|Hlen].
  - split; [done|].
    destruct (merge_and_rerank_node_run_ge state w scores Hne Hal Hrr Hlen)
      as (mn & mx & _ & _ & _ & Hok).
    rewrite Hok in Hrun. injection Hrun as <- <-. cbn [o_retrieved_documents log].
    split; [|done]. by rewrite zip_with_take_l.
  - exfalso.
    destruct (merge_and_rerank_node_too_few reranker_predict state w scores)
      as (ns & _ & Hfail); [done|done|done|lia|].
    by rewrite Hfail in Hrun.
Qed.

(** The node returns only in two ways: at once on the empty batch, or after
    a reranker call that gave at least one score per candidate. With fewer
    scores it never returns. Scores beyond the number of candidates take no
    part in the ranking. *)
Theorem node_returns_only_with_enough_scores state w out w' :
  allocated w (all_docs state) →
  merge_and_rerank_node reranker_predict state w = (Ok out, w') →
  (all_docs state = [] ∧ o_retrieved_documents out = [] ∧ w' = w)
  ∨ (∃ scores,
       all_docs state ≠ []
       ∧ reranker_predict (pairs state w) = Ok scores
       ∧ length (all_docs state) ≤ length scores
       ∧ o_retrieved_documents out
         = take NR_FINAL_DOCS
             (map snd (sorted_reverse fst
                         (zip (take (length (all_docs state)) scores)
                              (all_docs state))))
       ∧ log w' = log w ++ [RerankerPredict (pairs state w)]).
Proof. apply merge_and_rerank_node_inv. Qed.

End node_returns.

Section sub_graph_more.

Variable collection_query : string → nat → Result QueryResult.
Variable collection_get : Result GetResult.
Variable bm25_retriever_invoke : list Document → nat → string → Result (list Document).
Variable reranker_predict : list (string * string) → Result (list Q).

(** A failure of the vector search, of any kind, is the failure of the
    whole sub-graph: the lexical search and the reranker are not reached
    and no document is created. *)
Theorem vector_failure_aborts_subgraph state w e :
  collection_query (query state) NR_RETRIEVED_DOCS = Raise e →
  retrieval_app collection_query collection_get bm25_retriever_invoke
                reranker_predict state w
  = (Raise e,
     mkWorld (heap w) (log w ++ [CollectionQuery (query state) NR_RETRIEVED_DOCS])).
Proof.
  intros Hq. unfold retrieval_app.
  erewrite bind_Raise; [done|].
  unfold semantic_search_node.
  erewrite bind_Raise; [done|]. by apply call_Raise.
Qed.

(** What [except Exception] lets through: a [BaseException] raised by the
    lexical search is not turned into an empty result; it ends the node,
    and no error line is printed. *)
Theorem lexical_BaseException_is_not_caught state w cls msg :
  collection_get = Raise (BaseException cls msg)
  ∨ (∃ all_results,
       collection_get = Ok all_results
       ∧ bm25_retriever_invoke (corpus_of all_results) NR_RETRIEVED_DOCS (query state)
         = Raise (BaseException cls msg)) →
  ∃ evs,
    bm25_search_node collection_get bm25_retriever_invoke state w
    = (Raise (BaseException cls msg), mkWorld (heap w) (log w ++ evs))
    ∧ Forall (λ ev, ∀ m, ev ≠ PrintLine m) evs.
Proof.
  intros [Hget|(all_results & Hget & Hinv)].
  - exists [CollectionGet]. split; [|by repeat constructor].
    unfold bm25_search_node, try_except_Exception.
    by erewrite bind_Raise; [|by apply call_Raise].
  - eexists [CollectionGet; BM25Invoke _ _ _]. split; [|by repeat constructor].
    unfold bm25_search_node, try_except_Exception.
    erewrite bind_Ok; [|by apply call_Ok].
    fold (corpus_of all_results).
    erewrite bind_Raise; [|by apply call_Raise].
    cbn [heap log]. by rewrite <- app_assoc.
Qed.

(** The candidates of the two adapters, once both have run. *)
Lemma adapters_leave_live_distinct_candidates state w s1 w1 s2 w2 :
  semantic_search_node collection_query state w = (Ok s1, w1) →
  bm25_search_node collection_get bm25_retriever_invoke s1 w1 = (Ok s2, w2) →
  query s2 = query state
  ∧ allocated w2 (all_docs s2)
  ∧ NoDup (all_docs s2)
  ∧ (∀ l, l ∈ all_docs s2 →
       ∃ d tag, heap w2 !! l = Some d
                ∧ metadata d !! "retrieval_method" = Some (VStr tag)
                ∧ (tag = "vector" ∨ tag = "bm25")).
Proof.
  intros Hsem Hbm.
  assert (Hq := semantic_search_node_query _ _ _ _ _ Hsem).
  apply semantic_search_node_inv in Hsem
    as (results & d0 & m0 & x0 & _ & _ & _ & _ & Hs1 & _ & _ & Hnd1 & _ & Hpos1 & _).
  apply bm25_search_node_inv in Hbm
    as (Hs2 & Hnd2 & Hfr2 & Hdoc2 & Hframe2 & _).
  assert (Hsd : semantic_docs s2 = semantic_docs s1) by (by rewrite Hs2).
  assert (Hlive : ∀ l, l ∈ semantic_docs s1 →
            ∃ row, heap w1 !! l = Some (vector_document row)).
  { intros l Hl. apply list_elem_of_lookup in Hl as [i Hi].
    destruct (Hpos1 i l Hi) as (row & _ & Hrow). by exists row. }
  assert (Hdisj : ∀ l, l ∈ semantic_docs s1 → l ∉ bm25_docs s2).
  { intros l H1 H2. destruct (Hlive l H1) as [row Hrow].
    apply Hfr2 in H2. congruence. }
  assert (Hdocs : ∀ l, l ∈ all_docs s2 →
            ∃ d tag, heap w2 !! l = Some d
                     ∧ metadata d !! "retrieval_method" = Some (VStr tag)
                     ∧ (tag = "vector" ∨ tag = "bm25")).
  { intros l Hl. unfold all_docs in Hl. rewrite Hsd in Hl.
    apply elem_of_app in Hl as [Hl|Hl].
    - destruct (Hlive l Hl) as [row Hrow].
      exists (vector_document row), "vector".
      rewrite (Hframe2 l (Hdisj l Hl)). split; [done|].
      split; [apply vector_document_metadata|by left].
    - destruct (Hdoc2 l Hl) as (m & i & doc & Hd).
      exists (bm25_document m (i, doc)), "bm25". split; [done|].
      split; [apply bm25_document_metadata|by right]. }
  split; [rewrite Hs2; simpl; apply Hq|]. split; [|split; [|done]].
  - apply Forall_forall. intros l Hl.
    destruct (Hdocs l Hl) as (d & _ & -> & _). by eexists.
  - unfold all_docs. rewrite Hsd. apply NoDup_app.
    split; [done|]. split; [|done]. intros l H1 H2. by eapply Hdisj.
Qed.

(** Whatever the collaborators do: if the sub-graph returns, it returns the
    query it was given and at most [NR_FINAL_DOCS] documents, pairwise
    distinct, each a live candidate tagged [vector] or [bm25] that carries
    a normalized score in [0, 1]. *)
Theorem subgraph_result_is_scored_and_tagged state w out w' :
  retrieval_app collection_query collection_get bm25_retriever_invoke
                reranker_predict state w = (Ok out, w') →
  o_query out = query state
  ∧ length (o_retrieved_documents out) ≤ NR_FINAL_DOCS
  ∧ NoDup (o_retrieved_documents out)
  ∧ ∀ l, l ∈ o_retrieved_documents out →
      ∃ d tag x,
        heap w' !! l = Some d
        ∧ metadata d !! "retrieval_method" = Some (VStr tag)
        ∧ (tag = "vector" ∨ tag = "bm25")
        ∧ metadata d !! "crossencoder_score" = Some (VFloat x)
        ∧ (0 <= x)%Q ∧ (x <= 1)%Q.
Proof.
  unfold retrieval_app. intros Hrun.
  apply bind_inv_Ok in Hrun as (s1 & w1 & Hsem & Hrun).
  apply bind_inv_Ok in Hrun as (s2 & w2 & Hbm & Hmerge).
  destruct (adapters_leave_live_distinct_candidates _ _ _ _ _ _ Hsem Hbm)
    as (Hq & Hal & Hnd & Htag).
  destruct (decide (all_docs s2 = [])) as [Hempty|Hne].
  { revert Hmerge. unfold merge_and_rerank_node. fold (all_docs s2).
    rewrite Hempty. intros [= <- <-]. simpl.
    split; [done|]. split; [lia|]. split; [constructor|].
    by intros l Hl%elem_of_nil. }
  destruct (merge_and_rerank_node_inv _ _ _ _ _ Hal Hmerge)
    as [(Hempty & _)|(scores & _ & Hrr & Hlen & _ & _)]; [done|].
  destruct (merge_and_rerank_node_run_ge _ s2 w2 scores Hne Hal Hrr Hlen)
    as (mn & mx & _ & _ & Hb & Hok).
  rewrite Hok in Hmerge. injection Hmerge as <- <-.
  cbn [o_query o_retrieved_documents heap].
  set (top := take NR_FINAL_DOCS _).
  assert (Hsub : top ⊆ all_docs s2) by apply top_docs_subseteq.
  split; [done|]. split; [unfold top; rewrite length_take; lia|]. split.
  - unfold top.
    assert (Hz : zip scores (all_docs s2)
                 = zip (take (length (all_docs s2)) scores) (all_docs s2)).
    { by rewrite zip_with_take_l. }
    rewrite Hz.
    assert (Hperm : map snd (sorted_reverse fst
                      (zip (take (length (all_docs s2)) scores) (all_docs s2)))
                    ≡ₚ all_docs s2).
    { rewrite sorted_reverse_Permutation.
      change (map snd ?l) with (l.*2).
      rewrite snd_zip; [done|]. rewrite length_take. lia. }
    rewrite <- Hperm in Hnd.
    rewrite <- (take_drop NR_FINAL_DOCS) in Hnd.
    by apply NoDup_app in Hnd as [? _].
  - intros l Hl. apply Hsub in Hl.
    destruct (Htag l Hl) as (d & tag & Hd & Htagd & Hvb).
    apply list_elem_of_lookup in Hl as [i Hi].
    destruct (lookup_lt_is_Some_2 scores i) as [s Hs].
    { apply lookup_lt_Some in Hi. lia. }
    assert (Hlast : l ∉ drop (S i) (all_docs s2)).
    { intros Hin. rewrite <- (take_drop (S i) (all_docs s2)) in Hnd.
      apply NoDup_app in Hnd as (_ & Hdis & _). apply (Hdis l); [|done].
      apply list_elem_of_lookup. exists i. rewrite lookup_take_lt by lia. done. }
    exists (with_crossencoder_score (min_max_scale mn mx s) d), tag,
           (min_max_scale mn mx s).
    assert (Hi_lt : i < length (all_docs s2)) by (by eapply lookup_lt_Some).
    assert (Hz : zip (all_docs s2) (map (min_max_scale mn mx) scores)
                 = zip (all_docs s2)
                       (take (length (all_docs s2)) (map (min_max_scale mn mx) scores))).
    { by rewrite zip_with_take_r. }
    rewrite Hz.
    rewrite (store_scores_last _ _ _ i l (min_max_scale mn mx s)); try done.
    + rewrite Hd. split; [done|]. cbn [with_crossencoder_score metadata].
      split; [by rewrite lookup_insert_ne|]. split; [done|].
      split; [by rewrite lookup_insert_eq|].
      apply min_max_scale_bounds; apply Hb; by eapply list_elem_of_lookup_2.
    + rewrite lookup_take_lt by done. by rewrite list_lookup_fmap, Hs.
    + rewrite length_take, length_map. lia.
Qed.

End sub_graph_more.

Lemma page_contents_app h ls1 ls2 :
  page_contents h (ls1 ++ ls2) = page_contents h ls1 ++ page_contents h ls2.
Proof. unfold page_contents. apply omap_app. Qed.

Lemma page_contents_positions {X} (f : X → Document) h : ∀ (ls : list loc) (xs : list X),
  length ls = length xs →
  (∀ i l, ls !! i = Some l → ∃ x, xs !! i = Some x ∧ h !! l = Some (f x)) →
  page_contents h ls = map (λ x, page_content (f x)) xs.
Proof.
  induction ls as [|l ls IH]; intros [|x xs] Hlen Hpos; try done.
  destruct (Hpos 0 l eq_refl) as (x' & [= <-] & Hl).
  rewrite (page_contents_cons _ _ _ _ Hl). simpl. f_equal.
  apply IH; [by injection Hlen|]. intros i l' Hi. by apply (Hpos (S i)).
Qed.

Section end_to_end.

Variable collection_query : string → nat → Result QueryResult.
Variable collection_get : Result GetResult.
Variable bm25_retriever_invoke : list Document → nat → string → Result (list Document).
Variable reranker_predict : list (string * string) → Result (list Q).

(** When every collaborator answers, the sub-graph calls them in the order
    vector query, corpus fetch, BM25, reranker. The reranker is called
    once, with one (query, text) pair per candidate: first the texts of the
    vector rows, then the texts of the lexical results, both in the order
    they were returned, duplicates included. *)
Theorem reranker_called_once_on_whole_batch
    state w results documents0 metadatas0 distances0 all_results lexical :
  collection_query (query state) NR_RETRIEVED_DOCS = Ok results →
  documents results !! 0 = Some documents0 →
  metadatas results !! 0 = Some metadatas0 →
  distances results !! 0 = Some distances0 →
  collection_get = Ok all_results →
  bm25_retriever_invoke (corpus_of all_results) NR_RETRIEVED_DOCS (query state)
  = Ok lexical →
  reranker_aligned reranker_predict →
  let rows := zip3 documents0 metadatas0 distances0 in
  let texts := map (λ row, row.1.1) rows ++ map page_content lexical in
  texts ≠ [] →
  ∃ out w',
    retrieval_app collection_query collection_get bm25_retriever_invoke
                  reranker_predict state w = (Ok out, w')
    ∧ log w' = log w ++ [CollectionQuery (query state) NR_RETRIEVED_DOCS;
                         CollectionGet;
                         BM25Invoke (corpus_of all_results) NR_RETRIEVED_DOCS
                                    (query state);
                         RerankerPredict (map (λ text, (query state, text)) texts)]
    ∧ length (o_retrieved_documents out)
      = NR_FINAL_DOCS `min` (length rows + length lexical).
Proof.
  intros Hq Hd Hm Hx Hget Hinv Hrr rows texts Htexts.
  destruct (semantic_search_node_succeeds collection_query state w _ _ _ _ Hq Hd Hm Hx)
    as (docs1 & w1 & Hsem & Hlog1 & Hlen1 & Hnd1 & Hfr1 & Hpos1 & Hframe1).
  set (s1 := mkRetrievalInputState (query state) docs1 (bm25_docs state)
                                   (retrieved_documents state)) in *.
  destruct (bm25_search_node_succeeds collection_get bm25_retriever_invoke
              s1 w1 all_results lexical Hget Hinv)
    as (docs2 & w2 & Hbm & Hlog2 & Hlen2 & Hnd2 & Hfr2 & Hpos2 & Hframe2).
  set (s2 := mkRetrievalInputState (query s1) (semantic_docs s1) docs2
                                   (retrieved_documents s1)) in *.
  assert (Hlive1 : ∀ i l, docs1 !! i = Some l →
            ∃ row, rows !! i = Some row ∧ heap w2 !! l = Some (vector_document row)).
  { intros i l Hi. destruct (Hpos1 i l Hi) as (row & Hrow & Hl).
    exists row. split; [done|]. rewrite Hframe2; [done|].
    intros Hin. apply Hfr2 in Hin. congruence. }
  assert (Hlive2 : ∀ i l, docs2 !! i = Some l →
            ∃ x, enumerate lexical !! i = Some x
                 ∧ heap w2 !! l = Some (bm25_document (length lexical) x)).
  { intros i l Hi. destruct (Hpos2 i l Hi) as (doc & Hdoc & Hl).
    exists (i, doc). split; [|done].
    unfold enumerate. by rewrite list_lookup_imap, Hdoc. }
  assert (Hal : allocated w2 (all_docs s2)).
  { apply Forall_forall. intros l Hl. unfold all_docs in Hl. simpl in Hl.
    apply elem_of_app in Hl as [Hl|Hl]; apply list_elem_of_lookup in Hl as [i Hi].
    - destruct (Hlive1 i l Hi) as (? & _ & ->). by eexists.
    - destruct (Hlive2 i l Hi) as (? & _ & ->). by eexists. }
  assert (Hpairs : pairs s2 w2 = map (λ text, (query state, text)) texts).
  { unfold pairs, pairs_of, all_docs. simpl. f_equal.
    rewrite page_contents_app. unfold texts. f_equal.
    - rewrite (page_contents_positions vector_document _ docs1 rows Hlen1 Hlive1).
      apply map_ext. by intros [[doc meta] dist].
    - rewrite (page_contents_positions (bm25_document (length lexical)) _ docs2
                 (enumerate lexical)).
      + unfold enumerate. apply list_eq. intros i.
        rewrite !list_lookup_fmap, list_lookup_imap.
        by destruct (lexical !! i).
      + rewrite Hlen2. unfold enumerate. by rewrite length_imap.
      + done. }
  assert (Hlen_all : length (all_docs s2) = length rows + length lexical).
  { unfold all_docs. simpl. by rewrite length_app, Hlen1, Hlen2. }
  assert (Hne : all_docs s2 ≠ []).
  { intros Hempty. apply Htexts. apply (f_equal length) in Hempty.
    rewrite Hlen_all in Hempty. simpl in Hempty.
    apply length_zero_iff_nil. unfold texts. rewrite length_app, !length_map. lia. }
  destruct (reranker_aligned_pairs reranker_predict s2 w2 Hrr Hal)
    as (scores & Hscores & Hlen).
  destruct (merge_and_rerank_node_run reranker_predict s2 w2 scores Hne Hal Hscores Hlen)
    as (mn & mx & _ & _ & Hmerge).
  eexists _, _. split; [|split].
  - unfold retrieval_app.
    erewrite bind_Ok; [|exact Hsem]. erewrite bind_Ok; [|exact Hbm]. exact Hmerge.
  - cbn [log]. rewrite Hpairs, Hlog2, Hlog1. by rewrite <- !app_assoc.
  - cbn [o_retrieved_documents].
    rewrite length_take, length_map, sorted_reverse_length, length_zip, Hlen, Hlen_all.
    lia.
Qed.

End end_to_end.

(** ** main_workflow.py: the retrieval branch, failures, and the length of a run *)

Lemma bind_ext {A B} (m : M A) (k1 k2 : A → M B) w :
  (∀ a w', k1 a w' = k2 a w') → bind m k1 w = bind m k2 w.
Proof. intros H. unfold bind. destruct (m w) as [[a|e] w']; [apply H|done]. Qed.

Lemma bind_ret {A B} (a : A) (k : A → M B) w : bind (ret a) k w = k a w.
Proof. done. Qed.

Section sub_graph_returns.

Variable collection_query : string → nat → Result QueryResult.
Variable collection_get : Result GetResult.
Variable bm25_retriever_invoke : list Document → nat → string → Result (list Document).
Variable reranker_predict : list (string * string) → Result (list Q).

Lemma retrieval_app_inv state w out w' :
  retrieval_app collection_query collection_get bm25_retriever_invoke
                reranker_predict state w = (Ok out, w') →
  o_query out = query state ∧ allocated w' (o_retrieved_documents out).
Proof.
  unfold retrieval_app. intros Hrun.
  apply bind_inv_Ok in Hrun as (s1 & w1 & Hsem & Hrun).
  apply bind_inv_Ok in Hrun as (s2 & w2 & Hbm & Hmerge).
  destruct (adapters_leave_live_distinct_candidates _ _ _ _ _ _ _ _ _ Hsem Hbm)
    as (Hq & Hal & _ & _).
  destruct (merge_and_rerank_node_inv _ _ _ _ _ Hal Hmerge)
    as [(Hempty & Hout & ->)|(scores & Hne & Hrr & Hlen & _ & _)].
  - revert Hmerge. unfold merge_and_rerank_node. fold (all_docs s2).
    rewrite Hempty. intros [= <-]. simpl. split; [done|constructor].
  - destruct (merge_and_rerank_node_run_ge _ s2 w2 scores Hne Hal Hrr Hlen)
      as (mn & mx & _ & _ & _ & Hok).
    rewrite Hok in Hmerge. injection Hmerge as <- <-.
    cbn [o_query o_retrieved_documents]. split; [done|].
    apply Forall_forall. intros l Hl. apply top_docs_subseteq in Hl.
    cbn [heap]. apply store_scores_dom.
    unfold allocated in Hal. rewrite Forall_forall in Hal. by apply Hal.
Qed.

End sub_graph_returns.

Section main_workflow_more.

Import main_workflow.

Variable collection_query : string → nat → Result retrieval_workflow.QueryResult.
Variable collection_get : Result retrieval_workflow.GetResult.
Variable bm25_retriever_invoke : list Document → nat → string → Result (list Document).
Variable reranker_predict : list (string * string) → Result (list Q).
Variable query_ai : string → string → Result string.
Variable triage_prompt_system : string.
Variable answer_generation_prompt_system : string.

#[local] Abbreviation wf :=
  (workflow collection_query collection_get bm25_retriever_invoke reranker_predict
            query_ai triage_prompt_system answer_generation_prompt_system).
#[local] Abbreviation app :=
  (main_rag_app collection_query collection_get bm25_retriever_invoke reranker_predict
                query_ai triage_prompt_system answer_generation_prompt_system).
#[local] Abbreviation sub_graph :=
  (retrieval_workflow.retrieval_app collection_query collection_get
                                    bm25_retriever_invoke reranker_predict).
#[local] Abbreviation answer_node :=
  (generate_answer_node query_ai answer_generation_prompt_system).

Lemma run_from_out_of_scope fuel state w :
  run_from wf (S fuel) "out_of_scope" state w
  = (Ok (update state (as_update (mkOutputState "Your query is out of scope."))), w).
Proof.
  rewrite run_from_S.
  assert (Hn : nodes wf !! "out_of_scope"
               = Some (returning_output out_of_scope_node)) by done.
  assert (Hc : conditional_edges wf !! "out_of_scope" = None) by done.
  assert (He : edges wf !! "out_of_scope" = Some END) by done.
  by rewrite Hn, Hc, He.
Qed.

Lemma run_from_answer fuel state w :
  run_from wf (S fuel) "answer" state w
  = bind (answer_node state) (λ o, ret (update state (as_update o))) w.
Proof.
  rewrite run_from_S.
  assert (Hn : nodes wf !! "answer" = Some (returning_output answer_node)) by done.
  assert (Hc : conditional_edges wf !! "answer" = None) by done.
  assert (He : edges wf !! "answer" = Some END) by done.
  rewrite Hn, Hc, He. cbn [getkey]. unfold returning_output.
  unfold bind, ret. by destruct (answer_node state w) as [[o|e] w'].
Qed.

Lemma run_from_retrieval fuel state w :
  run_from wf (S fuel) "retrieval" state w
  = bind (retrieval collection_query collection_get bm25_retriever_invoke
                    reranker_predict state)
      (λ upd, run_from wf fuel "answer" (update state upd)) w.
Proof.
  rewrite run_from_S.
  assert (Hn : nodes wf !! "retrieval"
               = Some (retrieval collection_query collection_get
                                 bm25_retriever_invoke reranker_predict)) by done.
  assert (Hc : conditional_edges wf !! "retrieval" = None) by done.
  assert (He : edges wf !! "retrieval" = Some (Goto "answer")) by done.
  by rewrite Hn, Hc, He.
Qed.

Lemma run_from_triage_node fuel state w :
  run_from wf (S fuel) "triage" state w
  = bind (triage_node query_ai triage_prompt_system state)
      (λ upd,
         let state := update state upd in
         let* key := getkey "query_type" (query_type state) in
         let* dest := getkey key (path_map !! key) in
         run_from wf fuel dest state) w.
Proof.
  rewrite run_from_S.
  assert (Hn : nodes wf !! "triage"
               = Some (triage_node query_ai triage_prompt_system)) by done.
  assert (Hc : conditional_edges wf !! "triage"
               = Some (λ s, getkey "query_type" (query_type s), path_map)) by done.
  by rewrite Hn, Hc.
Qed.

Lemma generate_answer_node_run state q docs w :
  query state = Some q →
  retrieved_documents state = Some docs →
  allocated w docs →
  let user_prompt :=
    "Evaluate user query: " +:+ q +:+ " with context: "
    +:+ str_join blank_line (page_contents (heap w) docs) in
  answer_node state w
  = bind (call (QueryAI answer_generation_prompt_system user_prompt)
               (query_ai answer_generation_prompt_system user_prompt))
         (λ answer_result, ret (mkOutputState answer_result)) w.
Proof.
  intros Hq Hdocs Hal user_prompt. unfold generate_answer_node.
  rewrite Hq, Hdocs. cbn [getkey].
  do 2 (erewrite bind_Ok; [|done]).
  erewrite bind_Ok; [|by apply mapM_page_content]. done.
Qed.

(** The answer node asks the chat model once, with the query and the texts
    of the retrieved documents in their ranked order, joined by blank
    lines; its reply is the answer and no document is changed. With no
    retrieved document the model is still asked, with an empty context. *)
Theorem answer_prompt_joins_ranked_texts state q docs w reply :
  query state = Some q →
  retrieved_documents state = Some docs →
  allocated w docs →
  let user_prompt :=
    "Evaluate user query: " +:+ q +:+ " with context: "
    +:+ str_join blank_line (page_contents (heap w) docs) in
  query_ai answer_generation_prompt_system user_prompt = Ok reply →
  generate_answer_node query_ai answer_generation_prompt_system state w
  = (Ok (mkOutputState reply),
     mkWorld (heap w) (log w ++ [QueryAI answer_generation_prompt_system user_prompt]))
  ∧ (docs = [] → user_prompt = "Evaluate user query: " +:+ q +:+ " with context: ").
Proof.
  intros Hq Hdocs Hal user_prompt Hai. split.
  - rewrite (generate_answer_node_run state q docs w Hq Hdocs Hal).
    fold user_prompt. by erewrite bind_Ok; [|by apply call_Ok].
  - by intros ->.
Qed.

(** When triage answers [DATA_QUESTION] and the sub-graph returns, the run
    asks the chat model for the answer over the returned documents and ends
    with its reply as [answer], the returned documents as
    [retrieved_documents], and the label and the query kept. *)
Theorem data_question_is_answered_from_retrieved_documents input q w out w2 reply :
  query input = Some q →
  query_ai triage_prompt_system ("Evaluate user query: " +:+ q) = Ok "DATA_QUESTION" →
  sub_graph
    (retrieval_workflow.mkRetrievalInputState
       q [] [] (default [] (retrieved_documents input)))
    (mkWorld (heap w)
             (log w ++ [QueryAI triage_prompt_system ("Evaluate user query: " +:+ q)]))
  = (Ok out, w2) →
  let user_prompt :=
    "Evaluate user query: " +:+ q +:+ " with context: "
    +:+ str_join blank_line
          (page_contents (heap w2) (retrieval_workflow.o_retrieved_documents out)) in
  query_ai answer_generation_prompt_system user_prompt = Ok reply →
  app input w
  = (Ok (mkInputState (Some q) (Some "DATA_QUESTION")
                      (Some (retrieval_workflow.o_retrieved_documents out))
                      (Some reply)),
     mkWorld (heap w2)
             (log w2 ++ [QueryAI answer_generation_prompt_system user_prompt])).
Proof.
  intros Hq Htriage Hsub user_prompt Hanswer.
  destruct (retrieval_app_inv _ _ _ _ _ _ _ _ Hsub) as [Hoq Hal]. simpl in Hoq.
  unfold main_rag_app, invoke, recursion_limit.
  change (entry_point _) with "triage".
  rewrite (run_from_triage _ _ _ _ _ _ _ _ _ _ _ _ Hq Htriage), path_map_lookup.
  rewrite decide_True by done.
  rewrite run_from_retrieval.
  erewrite bind_Ok.
  2: { unfold retrieval. cbn [getkey query]. erewrite bind_Ok; [|done].
       erewrite bind_Ok; [|exact Hsub]. done. }
  rewrite run_from_answer.
  erewrite bind_Ok.
  2: { rewrite (generate_answer_node_run _ q (retrieval_workflow.o_retrieved_documents out));
         [|by cbn; rewrite Hoq|done|done].
       fold user_prompt. by erewrite bind_Ok; [|by apply call_Ok]. }
  cbn. by rewrite Hoq.
Qed.

(** A failure of the triage call is the failure of the run: nothing else is
    called. *)
Theorem triage_failure_is_fatal input q w e :
  query input = Some q →
  query_ai triage_prompt_system ("Evaluate user query: " +:+ q) = Raise e →
  app input w
  = (Raise e,
     mkWorld (heap w)
             (log w ++ [QueryAI triage_prompt_system ("Evaluate user query: " +:+ q)])).
Proof.
  intros Hq Hai.
  unfold main_rag_app, invoke, recursion_limit.
  change (entry_point _) with "triage".
  rewrite run_from_triage_node.
  erewrite bind_Raise; [done|].
  unfold triage_node. rewrite Hq. cbn [getkey].
  erewrite bind_Ok; [|done].
  by erewrite bind_Raise; [|by apply call_Raise].
Qed.

(** A failure of the retrieval sub-graph is the failure of the run: the
    same exception comes out, and the chat model is not asked for an
    answer. *)
Theorem retrieval_failure_leaves_no_answer input q w e w2 :
  query input = Some q →
  query_ai triage_prompt_system ("Evaluate user query: " +:+ q) = Ok "DATA_QUESTION" →
  sub_graph
    (retrieval_workflow.mkRetrievalInputState
       q [] [] (default [] (retrieved_documents input)))
    (mkWorld (heap w)
             (log w ++ [QueryAI triage_prompt_system ("Evaluate user query: " +:+ q)]))
  = (Raise e, w2) →
  app input w = (Raise e, w2).
Proof.
  intros Hq Htriage Hsub.
  unfold main_rag_app, invoke, recursion_limit.
  change (entry_point _) with "triage".
  rewrite (run_from_triage _ _ _ _ _ _ _ _ _ _ _ _ Hq Htriage), path_map_lookup.
  rewrite decide_True by done.
  rewrite run_from_retrieval.
  erewrite bind_Raise; [done|].
  unfold retrieval. cbn [getkey query]. erewrite bind_Ok; [|done].
  by erewrite bind_Raise; [|exact Hsub].
Qed.

(** An input without the key [query] fails at once, before any call. *)
Theorem missing_query_is_a_KeyError input w :
  query input = None →
  app input w = (Raise (Exception "KeyError" "query"), w).
Proof.
  intros Hq.
  unfold main_rag_app, invoke, recursion_limit.
  change (entry_point _) with "triage".
  rewrite run_from_triage_node.
  erewrite bind_Raise; [done|].
  unfold triage_node. by rewrite Hq.
Qed.

(** A run executes at most three nodes (triage, then either [out_of_scope]
    or [retrieval] and [answer]): with any recursion limit from three on it
    goes the same way, so the limit of 25 is never what ends it. *)
Theorem run_visits_at_most_three_nodes fuel input w :
  3 ≤ fuel →
  run_from wf fuel "triage" input w = run_from wf 3 "triage" input w.
Proof.
  intros Hfuel. destruct fuel as [|[|[|fuel]]]; try lia.
  rewrite !run_from_triage_node. apply bind_ext. intros upd w1. cbn zeta.
  apply bind_ext. intros key w2.
  rewrite path_map_lookup.
  repeat case_decide; cbn [getkey]; [| |done].
  - rewrite !bind_ret, !run_from_retrieval. apply bind_ext. intros upd' w3.
    by rewrite !run_from_answer.
  - by rewrite !bind_ret, !run_from_out_of_scope.
Qed.

End main_workflow_more.

(** ** Strings: stripping, searching, splitting *)

Lemma append_cons c (s t : string) : String c s +:+ t = String c (s +:+ t).
Proof. done. Qed.

Lemma append_nil_l (s : string) : "" +:+ s = s.
Proof. done. Qed.

Lemma append_nil_r (s : string) : s +:+ "" = s.
Proof. induction s as [|c s IH]; [done|]. by rewrite append_cons, IH. Qed.

Lemma append_assoc (a b c : string) : (a +:+ b) +:+ c = a +:+ b +:+ c.
Proof. induction a as [|x a IH]; [done|]. by rewrite !append_cons, IH. Qed.

Lemma str_forall_app p (a b : string) :
  str_forall p (a +:+ b) = str_forall p a && str_forall p b.
Proof.
  induction a as [|c a IH]; [done|]. rewrite append_cons. simpl.
  rewrite IH. by rewrite andb_assoc.
Qed.

Lemma last_char_app_cons (a : string) c (b : string) :
  last_char (a +:+ String c b) = last_char (String c b).
Proof.
  induction a as [|x a IH]; [done|].
  rewrite append_cons, <- IH. by destruct a.
Qed.

Section strip.

Variable p : ascii → bool.

Lemma lstrip_spec (s : string) :
  ∃ l, s = l +:+ lstrip p s
       ∧ str_forall p l = true
       ∧ (∀ c, first_char (lstrip p s) = Some c → p c = false).
Proof.
  induction s as [|c s (l & Hs & Hl & Hfirst)].
  - exists "". by repeat split.
  - simpl. destruct (p c) eqn:Hc.
    + exists (String c l). split; [by rewrite append_cons, <- Hs|].
      split; [simpl; by rewrite Hc|done].
    + exists "". split; [done|]. split; [done|]. by intros c' [= <-].
Qed.

Lemma rstrip_spec (s : string) :
  ∃ t, s = rstrip p s +:+ t
       ∧ str_forall p t = true
       ∧ (∀ c, last_char (rstrip p s) = Some c → p c = false).
Proof.
  induction s as [|c s (t & Hs & Ht & Hlast)].
  - exists "". by repeat split.
  - simpl. destruct (rstrip p s) as [|c' r] eqn:Hr.
    + destruct (p c) eqn:Hc.
      * exists (String c t). rewrite append_nil_l in *.
        split; [by rewrite <- Hs|]. split; [simpl; by rewrite Hc|done].
      * exists t. rewrite append_cons, append_nil_l in *.
        split; [by rewrite <- Hs|]. split; [done|]. by intros c'' [= <-].
    + exists t. rewrite !append_cons in *. split; [by rewrite <- Hs|].
      split; [done|]. intros c''. apply Hlast.
Qed.

Lemma rstrip_first_char (s : string) c :
  first_char s = Some c → p c = false → first_char (rstrip p s) = Some c.
Proof.
  destruct s as [|c' s]; [done|]. intros [= ->] Hc. simpl.
  destruct (rstrip p s); [by rewrite Hc|done].
Qed.

Lemma lstrip_all (l s : string) :
  str_forall p l = true → lstrip p (l +:+ s) = lstrip p s.
Proof.
  induction l as [|c l IH]; [done|]. rewrite append_cons. simpl.
  intros [Hc Hl]%andb_true_iff. rewrite Hc. by apply IH.
Qed.

Lemma lstrip_clean (s : string) c :
  first_char s = Some c → p c = false → lstrip p s = s.
Proof. destruct s as [|c' s]; [done|]. intros [= ->] Hc. simpl. by rewrite Hc. Qed.

Lemma rstrip_all (t : string) : str_forall p t = true → rstrip p t = "".
Proof.
  induction t as [|c t IH]; [done|]. simpl.
  intros [Hc Ht]%andb_true_iff. by rewrite IH, Hc.
Qed.

Lemma rstrip_clean_app (b t : string) c :
  last_char b = Some c → p c = false → str_forall p t = true →
  rstrip p (b +:+ t) = b.
Proof.
  intros Hlast Hc Ht. induction b as [|x b IH]; [done|].
  rewrite append_cons. simpl. destruct b as [|y b].
  - rewrite append_nil_l. simpl in Hlast. injection Hlast as ->.
    by rewrite rstrip_all, Hc.
  - rewrite IH by done. done.
Qed.

(** Stripping removes exactly a run of [p]-characters at either end. *)
Lemma strip_spec (s : string) :
  ∃ l t, s = l +:+ rstrip p (lstrip p s) +:+ t
         ∧ str_forall p l = true ∧ str_forall p t = true
         ∧ (∀ c, first_char (rstrip p (lstrip p s)) = Some c → p c = false)
         ∧ (∀ c, last_char (rstrip p (lstrip p s)) = Some c → p c = false).
Proof.
  destruct (lstrip_spec s) as (l & Hs & Hl & Hfirst).
  destruct (rstrip_spec (lstrip p s)) as (t & Hs' & Ht & Hlast).
  exists l, t. split; [by rewrite <- Hs'|]. do 2 (split; [done|]).
  split; [|done].
  intros c Hc. destruct (lstrip p s) as [|c' s'] eqn:Hls; [done|].
  destruct (p c') eqn:Hc'; [by rewrite (Hfirst c' eq_refl) in Hc'|].
  rewrite (rstrip_first_char (String c' s') c' eq_refl Hc') in Hc.
  by injection Hc as <-.
Qed.

(** A string with clean ends comes back from any padding. *)
Lemma strip_padded (l b t : string) :
  str_forall p l = true → str_forall p t = true → clean_ends p b →
  rstrip p (lstrip p (l +:+ b +:+ t)) = b.
Proof.
  intros Hl Ht [(c1 & Hfirst & Hc1) (c2 & Hlast & Hc2)].
  rewrite lstrip_all by done.
  rewrite (lstrip_clean _ c1); [by eapply rstrip_clean_app|by destruct b|done].
Qed.

End strip.



Lemma str_strip_blank (s : string) : str_forall isspace s = true → str_strip s = "".
Proof.
  intros Hs. unfold str_strip.
  rewrite <- (append_nil_r s). by rewrite (lstrip_all isspace s "" Hs).
Qed.



(** ** Splitting at newlines *)






(** ** main.py: the questions read off the model's text *)




(** ** query_gemini.py *)

(** [query_ai] returns the content of the response without the whitespace
    at its two ends, and nothing else removed: the result neither begins
    nor ends with a whitespace character. *)
Theorem query_ai_strips_surrounding_whitespace chat_invoke system_prompt user_prompt content :
  chat_invoke system_prompt user_prompt = Ok content →
  ∃ reply before after,
    query_gemini.query_ai chat_invoke system_prompt user_prompt = Ok reply
    ∧ content = before +:+ reply +:+ after
    ∧ str_forall isspace before = true
    ∧ str_forall isspace after = true
    ∧ (∀ c, first_char reply = Some c → isspace c = false)
    ∧ (∀ c, last_char reply = Some c → isspace c = false).
Proof.
  intros Hchat. unfold query_gemini.query_ai. rewrite Hchat.
  case_bool_decide as Hempty.
  - exists "", "", "". by rewrite Hempty.
  - destruct (strip_spec isspace content) as (l & t & Heq & Hl & Ht & Hf & Hla).
    by exists (str_strip content), l, t.
Qed.


(** ** Prefixes and the first piece of a split *)

Lemma prefix_nil (s : string) : String.prefix "" s = true.
Proof. by destruct s. Qed.

Lemma prefix_cons_cons a (s : string) b (t : string) :
  String.prefix (String a s) (String b t)
  = if ascii_dec a b then String.prefix s t else false.
Proof. done. Qed.

Lemma prefix_app (a t : string) : String.prefix a (a +:+ t) = true.
Proof.
  induction a as [|c a IH]; [apply prefix_nil|].
  rewrite append_cons, prefix_cons_cons. by destruct (ascii_dec c c).
Qed.

Lemma prefix_inv (a s : string) : String.prefix a s = true → ∃ t, s = a +:+ t.
Proof.
  revert s. induction a as [|c a IH]; intros s; [by exists s|].
  destruct s as [|c' s]; [done|]. rewrite prefix_cons_cons.
  destruct (ascii_dec c c') as [<-|]; [|done].
  intros [t ->]%IH. by exists t.
Qed.

Lemma split_aux_fst_cons sep c (s : string) :
  (str_split_aux sep 0 (String c s)).1
  = if String.prefix sep (String c s) then ""
    else String c (str_split_aux sep 0 s).1.
Proof.
  cbn [str_split_aux]. destruct (String.prefix sep (String c s)).
  - by destruct (str_split_aux sep (String.length sep - 1) s).
  - by destruct (str_split_aux sep 0 s).
Qed.

Lemma head_str_split sep (s : string) :
  head (str_split sep s) = Some (str_split_aux sep 0 s).1.
Proof. unfold str_split. by destruct (str_split_aux sep 0 s). Qed.

Lemma first_piece_prefix sep (s : string) :
  ∃ rest, s = (str_split_aux sep 0 s).1 +:+ rest.
Proof.
  induction s as [|c s [rest IH]]; [by exists ""|].
  rewrite split_aux_fst_cons. destruct (String.prefix sep (String c s)).
  - by exists (String c s).
  - exists rest. by rewrite append_cons, <- IH.
Qed.

Lemma first_piece_sep sep (s : string) :
  str_contains sep s = true →
  ∃ rest, s = (str_split_aux sep 0 s).1 +:+ sep +:+ rest.
Proof.
  induction s as [|c s IH].
  - cbn [str_contains]. rewrite orb_false_r. intros [t Ht]%prefix_inv.
    exists "". destruct sep; [done|]. by rewrite append_cons in Ht.
  - cbn [str_contains]. rewrite split_aux_fst_cons.
    destruct (String.prefix sep (String c s)) eqn:Hpre.
    + intros _. apply prefix_inv in Hpre as [t Ht]. by exists t.
    + rewrite orb_false_l. intros [rest Hrest]%IH. exists rest.
      by rewrite append_cons, <- Hrest.
Qed.

Lemma first_piece_no_sep sep (s : string) :
  sep ≠ "" → str_contains sep (str_split_aux sep 0 s).1 = false.
Proof.
  intros Hsep. induction s as [|c s IH].
  - cbn. destruct sep; [done|]. done.
  - rewrite split_aux_fst_cons.
    destruct (String.prefix sep (String c s)) eqn:Hpre.
    + cbn. by destruct sep.
    + cbn [str_contains]. rewrite IH, orb_false_r.
      destruct (String.prefix sep (String c (str_split_aux sep 0 s).1)) eqn:Hpre';
        [|done].
      apply prefix_inv in Hpre' as [u Hu].
      destruct (first_piece_prefix sep s) as [rest Hrest].
      assert (Hs : String c s = sep +:+ (u +:+ rest)).
      { rewrite <- append_assoc, <- Hu, append_cons. by rewrite <- Hrest. }
      by rewrite Hs, prefix_app in Hpre.
Qed.

(** ** ingest/chunk_documents.py *)

(** [clean_text] returns the text before the first [images={]: the result
    holds no marker, a text without a marker is returned unchanged, a text
    with one is the result, the marker and a rest; cleaning twice changes
    nothing more. *)
Theorem clean_text_cuts_at_first_marker (text : string) :
  let cleaned := chunk_documents.clean_text text in
  str_contains chunk_documents.split_token cleaned = false
  ∧ (str_contains chunk_documents.split_token text = false → cleaned = text)
  ∧ (str_contains chunk_documents.split_token text = true →
     ∃ rest, text = cleaned +:+ chunk_documents.split_token +:+ rest)
  ∧ chunk_documents.clean_text cleaned = cleaned.
Proof.
  intros cleaned.
  assert (Hfree : str_contains chunk_documents.split_token cleaned = false).
  { unfold cleaned, chunk_documents.clean_text.
    destruct (str_contains chunk_documents.split_token text) eqn:Hin; [|done].
    rewrite head_str_split. cbn [default]. by apply first_piece_no_sep. }
  split; [done|]. split; [|split].
  - intros Hin. unfold cleaned, chunk_documents.clean_text. by rewrite Hin.
  - intros Hin. unfold cleaned, chunk_documents.clean_text. rewrite Hin.
    rewrite head_str_split. cbn [default]. by apply first_piece_sep.
  - unfold chunk_documents.clean_text at 1. by rewrite Hfree.
Qed.

(** ** Decimal numerals *)

Lemma pretty_N_char_digit (k : N) : is_digit (pretty_N_char k) = true.
Proof.
  destruct k as [|p]; [done|].
  do 4 (try (destruct p as [p|p|]; try done)).
Qed.

Lemma pretty_N_go_digits (x : N) (s : string) :
  ∃ d, pretty_N_go x s = d +:+ s ∧ str_forall is_digit d = true
       ∧ ((0 < x)%N → d ≠ "").
Proof.
  revert s. induction (N.lt_wf_0 x) as [x _ IH]. intros s.
  destruct (decide (x = 0%N)) as [->|Hx].
  - exists "". rewrite pretty_N_go_0. split; [done|]. split; [done|lia].
  - rewrite pretty_N_go_step by lia.
    destruct (IH (x `div` 10)%N ltac:(apply N.div_lt; lia)
                 (String (pretty_N_char (x `mod` 10)) s)) as (d & -> & Hd & _).
    exists (d +:+ String (pretty_N_char (x `mod` 10)) "").
    split; [by rewrite append_assoc|]. split.
    + rewrite str_forall_app, Hd. simpl. by rewrite pretty_N_char_digit.
    + intros _. by destruct d.
Qed.

Lemma pretty_nat_digits (n : nat) :
  str_forall is_digit (pretty n) = true ∧ pretty n ≠ "".
Proof.
  unfold pretty, pretty_nat, pretty, pretty_N.
  case_decide as Hn; [done|].
  destruct (pretty_N_go_digits (N.of_nat n) "") as (d & -> & Hd & Hne).
  rewrite append_nil_r. split; [done|]. apply Hne. lia.
Qed.

Lemma length_append (a b : string) :
  String.length (a +:+ b) = String.length a + String.length b.
Proof. induction a as [|c a IH]; [done|]. rewrite append_cons. simpl. by rewrite IH. Qed.

Lemma append_inj_r (a b c : string) : a +:+ c = b +:+ c → a = b.
Proof.
  revert b. induction a as [|x a IH]; intros [|y b] Heq; [done| | |].
  - apply (f_equal String.length) in Heq.
    rewrite append_nil_l, append_cons in Heq. simpl in Heq.
    rewrite length_append in Heq. lia.
  - apply (f_equal String.length) in Heq.
    rewrite append_nil_l, append_cons in Heq. simpl in Heq.
    rewrite length_append in Heq. lia.
  - rewrite !append_cons in Heq. injection Heq as -> Heq. by rewrite (IH b Heq).
Qed.

Lemma chunk_id_inj (stem1 stem2 : string) (i j : nat) :
  stem1 +:+ "_chunk_" +:+ pretty i = stem2 +:+ "_chunk_" +:+ pretty j →
  stem1 = stem2 ∧ i = j.
Proof.
  intros Heq. rewrite <- !append_assoc in Heq.
  destruct (pretty_nat_digits i) as [Hi _], (pretty_nat_digits j) as [Hj _].
  assert (Hstem : stem1 +:+ "_chunk_" = stem2 +:+ "_chunk_").
  { rewrite <- (rstrip_clean_app is_digit (stem1 +:+ "_chunk_") (pretty i) "_");
      [|by rewrite last_char_app_cons|done|done].
    rewrite Heq.
    by rewrite (rstrip_clean_app is_digit (stem2 +:+ "_chunk_") (pretty j) "_");
      [|by rewrite last_char_app_cons|done|done]. }
  rewrite Hstem in Heq. apply String.app_inj in Heq.
  split; [by eapply append_inj_r|]. by apply (inj pretty).
Qed.

(** The ids given to the chunks are unique: two chunks get the same id only
    if they are the same chunk of files with the same stem. *)
Theorem chunk_ids_are_unique stem1 stem2 chunks1 chunks2 i j id :
  chunk_documents.ids stem1 chunks1 !! i = Some id →
  chunk_documents.ids stem2 chunks2 !! j = Some id →
  stem1 = stem2 ∧ i = j.
Proof.
  unfold chunk_documents.ids. rewrite !list_lookup_fmap.
  intros Hi Hj.
  apply fmap_Some in Hi as (i' & [-> _]%lookup_seq & ->).
  apply fmap_Some in Hj as (j' & [-> _]%lookup_seq & Heq).
  by apply chunk_id_inj.
Qed.

Lemma bind_assoc {A B C} (m : M A) (k : A → M B) (k' : B → M C) w :
  bind (bind m k) k' w = bind m (λ a, bind (k a) k') w.
Proof. unfold bind. by destruct (m w) as [[a|e] w1]. Qed.

Lemma for_each_app {A} (l1 l2 : list A) (body : A → M unit) w :
  for_each (l1 ++ l2) body w = bind (for_each l1 body) (λ _, for_each l2 body) w.
Proof.
  revert w. induction l1 as [|x l1 IH]; intros w; [done|].
  cbn [app for_each]. rewrite bind_assoc. apply bind_ext. intros _ w1. apply IH.
Qed.

Lemma questions_of_blank_text (text : string) :
  str_forall isspace text = true → main.questions (str_strip text) = [].
Proof. intros Hs. by rewrite (str_strip_blank _ Hs). Qed.

Section script_correct.

Import main_workflow.

Variable collection_query : string → nat → Result retrieval_workflow.QueryResult.
Variable collection_get : Result retrieval_workflow.GetResult.
Variable bm25_retriever_invoke : list Document → nat → string → Result (list Document).
Variable reranker_predict : list (string * string) → Result (list Q).
Variable chat_invoke : string → string → Result string.
Variable triage_prompt_system : string.
Variable answer_generation_prompt_system : string.
Variable generate_questions_prompt_system : string.
Variable generate_questions_prompt_user : string.

#[local] Abbreviation the_app :=
  (main.main_rag_app collection_query collection_get bm25_retriever_invoke
                     reranker_predict chat_invoke triage_prompt_system
                     answer_generation_prompt_system).
#[local] Abbreviation the_ask :=
  (main.ask collection_query collection_get bm25_retriever_invoke
            reranker_predict chat_invoke triage_prompt_system
            answer_generation_prompt_system).
#[local] Abbreviation the_script :=
  (main.script collection_query collection_get bm25_retriever_invoke
               reranker_predict chat_invoke triage_prompt_system
               answer_generation_prompt_system
               generate_questions_prompt_system generate_questions_prompt_user).
#[local] Abbreviation header :=
  (PrintLine (newline +:+ "=== Running RAG Workflow on Generated Questions ==="
              +:+ newline)).
#[local] Abbreviation generation :=
  (QueryAI generate_questions_prompt_system generate_questions_prompt_user).

(** The script up to its loop. *)
Lemma script_run w text :
  main.query_ai chat_invoke generate_questions_prompt_system
                generate_questions_prompt_user = Ok text →
  the_script w
  = for_each (enumerate_from 1 (main.questions text))
             (λ '(idx, question), the_ask idx question)
             (mkWorld (heap w) (log w ++ [generation; header])).
Proof.
  intros Hgen. unfold main.script.
  erewrite bind_Ok; [|by apply call_Ok].
  erewrite bind_Ok; [|done]. cbn [heap log]. by rewrite <- app_assoc.
Qed.

(** The workflow of the script on a question the classifier, whatever
    whitespace it puts around its label, calls out of scope. *)
Lemma the_app_out_of_scope question w before after :
  chat_invoke triage_prompt_system ("Evaluate user query: " +:+ question)
  = Ok (before +:+ "OUT_OF_SCOPE" +:+ after) →
  str_forall isspace before = true →
  str_forall isspace after = true →
  the_app (mkInputState (Some question) None None None) w
  = (Ok (mkInputState (Some question) (Some "OUT_OF_SCOPE") None
                      (Some "Your query is out of scope.")),
     mkWorld (heap w)
       (log w ++ [QueryAI triage_prompt_system ("Evaluate user query: " +:+ question)])).
Proof.
  intros Hchat Hb Ha.
  assert (Hai : main.query_ai chat_invoke triage_prompt_system
                  ("Evaluate user query: " +:+ question) = Ok "OUT_OF_SCOPE").
  { unfold main.query_ai, query_gemini.query_ai. rewrite Hchat.
    rewrite bool_decide_eq_false_2.
    - unfold str_strip. rewrite strip_padded; [done..|].
      split; by exists "O"%char + by exists "E"%char.
    - intros Hempty. apply (f_equal (str_forall isspace)) in Hempty.
      rewrite !str_forall_app, Hb, Ha in Hempty. done. }
  unfold main.main_rag_app, main_rag_app, invoke, recursion_limit.
  change (entry_point _) with "triage".
  erewrite run_from_triage; [|done|exact Hai]. rewrite path_map_lookup.
  rewrite decide_False, decide_True by done.
  by rewrite run_from_out_of_scope.
Qed.

(** A label with whitespace around it still routes: when the model answers
    the triage prompt with [OUT_OF_SCOPE] between whitespace, the loop body
    prints the question and the fixed out-of-scope answer; the triage call
    is the only call it makes and no document is created. *)
Theorem padded_out_of_scope_label_still_routes idx question w before after :
  chat_invoke triage_prompt_system ("Evaluate user query: " +:+ question)
  = Ok (before +:+ "OUT_OF_SCOPE" +:+ after) →
  str_forall isspace before = true →
  str_forall isspace after = true →
  the_ask idx question w
  = (Ok tt,
     mkWorld (heap w)
       (log w ++ [QueryAI triage_prompt_system ("Evaluate user query: " +:+ question);
                  PrintLine ("Q" +:+ pretty idx +:+ ": " +:+ question);
                  PrintLine ("A" +:+ pretty idx +:+ ": "
                             +:+ "Your query is out of scope." +:+ newline
                             +:+ str_repeat "-" 60 +:+ newline)])).
Proof.
  intros Hchat Hb Ha. unfold main.ask.
  erewrite bind_Ok; [|by apply (the_app_out_of_scope _ _ before after)].
  cbn [answer default]. unfold bind, emit. cbn [heap log].
  by rewrite <- !app_assoc.
Qed.

(** A reply to the generation prompt that is empty or all whitespace gives
    no question: the script prints its header and ends, without a single
    run of the workflow. *)
Theorem blank_reply_runs_no_question w content :
  chat_invoke generate_questions_prompt_system generate_questions_prompt_user
  = Ok content →
  str_forall isspace content = true →
  the_script w = (Ok tt, mkWorld (heap w) (log w ++ [generation; header])).
Proof.
  intros Hchat Hblank.
  assert (Hgen : main.query_ai chat_invoke generate_questions_prompt_system
                   generate_questions_prompt_user = Ok "").
  { unfold main.query_ai, query_gemini.query_ai. rewrite Hchat.
    case_bool_decide; [done|]. by rewrite (str_strip_blank _ Hblank). }
  by rewrite (script_run _ _ Hgen).
Qed.

(** The loop does not catch anything: the first question whose run raises
    ends the script with that exception, right where the run stopped;
    neither that question nor a later one is printed or run. *)
Theorem first_failing_question_stops_script w text asked question rest w1 e w2 :
  main.query_ai chat_invoke generate_questions_prompt_system
                generate_questions_prompt_user = Ok text →
  main.questions text = asked ++ question :: rest →
  for_each (enumerate_from 1 asked) (λ '(idx, question), the_ask idx question)
           (mkWorld (heap w) (log w ++ [generation; header]))
  = (Ok tt, w1) →
  the_app (mkInputState (Some question) None None None) w1 = (Raise e, w2) →
  the_script w = (Raise e, w2).
Proof.
  intros Hgen Hqs Hdone Hrun.
  rewrite (script_run _ _ Hgen), Hqs.
  unfold enumerate_from. rewrite imap_app, for_each_app.
  erewrite bind_Ok; [|exact Hdone].
  cbn [imap for_each]. erewrite bind_Raise; [done|].
  unfold main.ask. by erewrite bind_Raise.
Qed.

End script_correct.

(* ===================================================================== *)
(** * Concrete runs *)
(* ===================================================================== *)

Lemma example_allocated : allocated example.world (all_docs example.state).
Proof. unfold allocated. by repeat constructor. Defined.

(** The two adapters, run one after the other on the empty world, build
    exactly the six candidates of [example.world]. *)
Example adapters_build_candidates :
  semantic_search_node example.collection_query example.state0 example.world0
  = (Ok example.state1, example.world1)
  ∧ bm25_search_node example.collection_get example.bm25_retriever_invoke
                     example.state1 example.world1
    = (Ok example.state, example.world).
Proof. split; vm_compute; reflexivity. Qed.

(** Six candidates, five returned: the candidate that is cut (document 5)
    has been given its normalized score all the same. *)
Example cut_candidate_is_scored :
  let run := merge_and_rerank_node example.reranker_predict example.state example.world in
  run.1 = Ok (mkRetrievalOutputState "q" [1; 4; 3; 0; 2])
  ∧ metadata_of example.world 5 "crossencoder_score" = None
  ∧ ∃ x, metadata_of run.2 5 "crossencoder_score" = Some (VFloat x) ∧ (x == 0)%Q.
Proof.
  split; [vm_compute; reflexivity|]. split; [vm_compute; reflexivity|].
  eexists. split; [vm_compute; reflexivity|]. reflexivity.
Qed.

(** C1 as stated fails: a batch of two candidates with raw scores 0 and
    1e-6. The second holds the maximum raw score, and its normalized score
    is 1/2, which is not within 1e-6 of 1. *)
Lemma max_score_candidate_far_from_one :
  let run := merge_and_rerank_node example.close_reranker_predict
                                   example.close_state example.world in
  all_docs example.close_state = [5; 0]
  ∧ example.close_scores = [0%Q; epsilon]
  ∧ example.close_reranker_predict (pairs example.close_state example.world)
    = Ok example.close_scores
  ∧ np_max example.close_scores = Some epsilon
  ∧ run.1 = Ok (mkRetrievalOutputState "q" [0; 5])
  ∧ ∃ x, metadata_of run.2 0 "crossencoder_score" = Some (VFloat x)
         ∧ (x == 1 # 2)%Q
         ∧ ¬ (Qabs (1 - x) <= epsilon)%Q.
Proof.
  split; [reflexivity|]. split; [reflexivity|].
  split; [vm_compute; reflexivity|].
  split; [reflexivity|]. split; [vm_compute; reflexivity|].
  eexists. split; [vm_compute; reflexivity|].
  split; [reflexivity|]. vm_compute. intros H. by apply H.
Qed.

(** ** The hypotheses of the theorems are met by concrete runs *)

Lemma normalized_score_range_and_extremes_witness :
  ∃ out w' x,
    merge_and_rerank_node example.reranker_predict example.state example.world
    = (Ok out, w')
    ∧ metadata_of w' 4 "crossencoder_score" = Some (VFloat x)
    ∧ (0 <= x)%Q ∧ (x <= 1)%Q ∧ (1 - epsilon <= x)%Q.
Proof.
  destruct (normalized_score_range_and_extremes
              example.reranker_predict example.state example.world example.scores)
    as (out & w' & mn & mx & Hrun & Hmn & Hmx & H);
    [done|exact example_allocated|reflexivity|reflexivity|].
  injection Hmn as <-. injection Hmx as <-.
  destruct (H 4 4 3%Q) as (x & Hx & H0 & H1 & Hmax & _);
    [reflexivity|by intros ?%list_elem_of_singleton|reflexivity|].
  destruct Hmax as (_ & Hnear); [reflexivity|reflexivity|].
  exists out, w', x. repeat (split; [done|]). by apply Hnear.
Defined.

Lemma normalized_score_written_to_whole_batch_witness :
  ∃ out w' normalized,
    merge_and_rerank_node example.reranker_predict example.state example.world
    = (Ok out, w')
    ∧ normalized_scores example.scores = ret normalized
    ∧ length (o_retrieved_documents out) ≤ NR_FINAL_DOCS
    ∧ ∀ l, l ∈ [0; 1; 2; 3; 4; 5] →
        ∃ x, x ∈ normalized ∧ metadata_of w' l "crossencoder_score" = Some (VFloat x).
Proof.
  destruct (normalized_score_written_to_whole_batch
              example.reranker_predict example.state example.world example.scores)
    as (out & w' & ns & Hrun & Hns & Hlen & _ & Hall & _);
    [done|exact example_allocated|reflexivity|reflexivity|].
  by exists out, w', ns.
Defined.

Lemma ranking_is_stable_descending_by_raw_score_witness :
  ∃ out w' ranked,
    merge_and_rerank_node example.reranker_predict example.state example.world
    = (Ok out, w')
    ∧ ranked ≡ₚ zip example.scores [0; 1; 2; 3; 4; 5]
    ∧ StronglySorted (key_ge fst) ranked
    ∧ o_retrieved_documents out = (take NR_FINAL_DOCS ranked).*2
    ∧ filter (λ p, p.1 == 3)%Q (take NR_FINAL_DOCS ranked) `prefix_of` [(3%Q, 1); (3%Q, 4)].
Proof.
  destruct (ranking_is_stable_descending_by_raw_score
              example.reranker_predict example.state example.world example.scores)
    as (out & w' & ranked & Hrun & Hperm & Hsorted & _ & Hout & _ & Hstable);
    [done|exact example_allocated|reflexivity|reflexivity|].
  exists out, w', ranked. repeat (split; [done|]). apply (Hstable 3%Q).
Defined.

Lemma final_length_is_min_K_total_witness :
  ∃ out w',
    merge_and_rerank_node example.reranker_predict example.state example.world
    = (Ok out, w')
    ∧ length (o_retrieved_documents out) = 5.
Proof.
  destruct (final_length_is_min_K_total
              example.reranker_predict example.state example.world)
    as (out & w' & Hrun & Hlen & _);
    [exact example_allocated|intros _; by exists example.scores|].
  by exists out, w'.
Defined.

Lemma empty_batch_skips_reranker_witness :
  merge_and_rerank_node example.reranker_predict example.state0 example.world
  = (Ok (mkRetrievalOutputState "q" []), example.world).
Proof.
  apply (empty_batch_skips_reranker example.reranker_predict
           example.state0 example.world); reflexivity.
Defined.

Lemma example_reranker_aligned : reranker_aligned example.reranker_predict.
Proof. intros pairs. eexists. split; [reflexivity|]. apply length_map. Defined.

Lemma lexical_failure_is_tolerated_witness :
  (∃ w',
     bm25_search_node example.failing_get example.bm25_retriever_invoke
                      example.state1 example.world1
     = (Ok example.state1, w')
     ∧ heap w' = heap example.world1)
  ∧ ∃ out w2,
      retrieval_app example.collection_query example.failing_get
                    example.bm25_retriever_invoke example.reranker_predict
                    example.state0 example.world0
      = (Ok out, w2)
      ∧ o_retrieved_documents out ⊆ [0; 1; 2]
      ∧ length (o_retrieved_documents out) = 3.
Proof.
  assert (Hfail : bm25_fails example.failing_get example.bm25_retriever_invoke
                             example.state0
                             (Exception "ConnectionError" "chroma unavailable")).
  { split; [by eexists _, _|by left]. }
  split.
  - apply (lexical_failure_is_tolerated
             example.collection_query example.failing_get
             example.bm25_retriever_invoke example.reranker_predict
             example.state1 example.world1
             (Exception "ConnectionError" "chroma unavailable")).
    exact Hfail.
  - destruct (lexical_failure_is_tolerated
                example.collection_query example.failing_get
                example.bm25_retriever_invoke example.reranker_predict
                example.state0 example.world0
                (Exception "ConnectionError" "chroma unavailable") Hfail)
      as [_ Hrun].
    destruct (Hrun example.state1 example.world1)
      as (w1' & out & w2 & _ & Happ & _ & Hsub & Hlen);
      [vm_compute; reflexivity|exact example_reranker_aligned|].
    by exists out, w2.
Defined.

Lemma retrieval_method_reflects_adapter_witness :
  ∃ s2 w2 lv lb,
    bm25_search_node example.collection_get scenario.overlapping_bm25
                     example.state1 example.world1 = (Ok s2, w2)
    ∧ all_docs s2 !! 0 = Some lv ∧ all_docs s2 !! 3 = Some lb
    ∧ lv ≠ lb
    ∧ page_content <$> heap w2 !! lv = Some "a"
    ∧ page_content <$> heap w2 !! lb = Some "a"
    ∧ metadata_of w2 lv "retrieval_method" = Some (VStr "vector")
    ∧ metadata_of w2 lv "bm25_score" = Some (VFloat 0)
    ∧ metadata_of w2 lb "retrieval_method" = Some (VStr "bm25")
    ∧ metadata_of w2 lb "vector_score" = Some (VFloat 0).
Proof.
  set (run := bm25_search_node example.collection_get scenario.overlapping_bm25
                example.state1 example.world1).
  assert (Hrun : run = (Ok (mkRetrievalInputState "q" [0; 1; 2] [3; 4] []), run.2)).
  { vm_compute. reflexivity. }
  destruct (retrieval_method_reflects_adapter
              example.collection_query example.collection_get
              scenario.overlapping_bm25
              example.state0 example.world0 example.state1 example.world1
              (mkRetrievalInputState "q" [0; 1; 2] [3; 4] []) run.2)
    as (_ & _ & _ & _ & _ & results & documents0 & metadatas0 & distances0
        & Hq & Hd & Hm & Hx & _ & _ & Hlex);
    [vm_compute; reflexivity|exact Hrun|].
  injection Hq as <-. injection Hd as <-. injection Hm as <-. injection Hx as <-.
  destruct (Hlex (mkGetResult ["a"; "dd"; "eee"; ""; "zz"]
                              [None; None; None; None; None])
                 [mkDocument "a" ∅; mkDocument "dd" ∅])
    as (_ & _ & Hboth); [reflexivity|vm_compute; reflexivity|].
  destruct (Hboth 0 0 "a" None (1 # 4)%Q (mkDocument "a" ∅))
    as (lv & lb & dv & db & Hlv & Hlb & Hne & Hdv & Hdb & Hpv & Hpb
        & Htv & Hzv & _ & Htb & Hzb & _);
    [reflexivity|reflexivity|reflexivity|].
  exists (mkRetrievalInputState "q" [0; 1; 2] [3; 4] []), run.2, lv, lb.
  unfold metadata_of. rewrite Hdv, Hdb. cbn [fmap option_fmap option_map mbind option_bind].
  rewrite Hpv, Hpb.
  split; [exact Hrun|]. split; [exact Hlv|]. split; [exact Hlb|].
  split; [exact Hne|]. split; [reflexivity|]. split; [reflexivity|].
  split; [exact Htv|]. split; [exact Hzv|]. split; [exact Htb|exact Hzb].
Defined.

Lemma bm25_score_is_linear_rank_decay_witness :
  ∃ s' w',
    bm25_search_node example.collection_get example.bm25_retriever_invoke
                     example.state1 example.world1 = (Ok s', w')
    ∧ length (bm25_docs s') = 3
    ∧ ∀ i l, bm25_docs s' !! i = Some l →
        metadata_of w' l "bm25_score"
        = Some (VFloat (1 - inject_Z (Z.of_nat i) / inject_Z (Z.of_nat 3))).
Proof.
  destruct (bm25_score_is_linear_rank_decay
              example.collection_get example.bm25_retriever_invoke
              example.state1 example.world1
              (mkGetResult ["a"; "dd"; "eee"; ""; "zz"] [None; None; None; None; None])
              [mkDocument "dd" ∅; mkDocument "eee" ∅; mkDocument "" ∅])
    as (s' & w' & Hrun & Hlen & Hscore & _);
    [reflexivity|vm_compute; reflexivity|].
  by exists s', w'.
Defined.

Lemma out_of_scope_short_circuits_witness :
  ∃ final w',
    main_workflow.main_rag_app
      example.collection_query example.collection_get example.bm25_retriever_invoke
      example.reranker_predict (example.query_ai "OUT_OF_SCOPE") "triage" "answer"
      example.input example.world0
    = (Ok final, w')
    ∧ main_workflow.answer final = Some "Your query is out of scope."
    ∧ heap w' = ∅
    ∧ log w' = [QueryAI "triage" "Evaluate user query: What is the weather in Paris?"].
Proof.
  destruct (out_of_scope_short_circuits
              example.collection_query example.collection_get
              example.bm25_retriever_invoke example.reranker_predict
              (example.query_ai "OUT_OF_SCOPE") "triage" "answer"
              example.input "What is the weather in Paris?" example.world0)
    as (final & w' & Hrun & Hans & _ & Hheap & Hlog & _); [reflexivity|reflexivity|].
  by exists final, w'.
Defined.

Lemma unknown_label_selects_no_branch_witness :
  main_workflow.path_map !! "MAYBE" = None
  ∧ main_workflow.main_rag_app
      example.collection_query example.collection_get example.bm25_retriever_invoke
      example.reranker_predict (example.query_ai "MAYBE") "triage" "answer"
      example.input example.world0
    = (Raise (Exception "KeyError" "MAYBE"),
       mkWorld ∅ [QueryAI "triage" "Evaluate user query: What is the weather in Paris?"]).
Proof.
  destruct (unknown_label_selects_no_branch
              example.collection_query example.collection_get
              example.bm25_retriever_invoke example.reranker_predict
              (example.query_ai "MAYBE") "triage" "answer"
              example.input "What is the weather in Paris?" example.world0 "MAYBE")
    as (_ & _ & _ & Hnone & _ & Hrun); [reflexivity|reflexivity|done|done|].
  by split.
Defined.

(** ** The other branch, for contrast *)

(** When triage answers [DATA_QUESTION] the same pipeline does query both
    indexes and the reranker before it asks for the answer. *)
Example data_question_runs_retrieval :
  ∃ final w',
    main_workflow.main_rag_app
      example.collection_query example.collection_get example.bm25_retriever_invoke
      example.reranker_predict (example.query_ai "DATA_QUESTION") "triage" "answer"
      example.input example.world0
    = (Ok final, w')
    ∧ main_workflow.answer final = Some "an answer"
    ∧ main_workflow.retrieved_documents final = Some [1; 4; 3; 0; 2]
    ∧ map is_retrieval_call (log w') = [false; true; true; true; false; false]
    ∧ map is_reranker_call (log w') = [false; false; false; false; true; false].
Proof. eexists _, _. split; [vm_compute; reflexivity|]. by repeat split. Qed.
(** ** The hypotheses of the further theorems are met by concrete runs *)

Lemma reranker_failure_is_fatal_witness :
  merge_and_rerank_node scenario.failing_reranker example.state example.world
  = (Raise (Exception "RuntimeError" "out of memory"),
     mkWorld (heap example.world)
             (log example.world ++ [RerankerPredict (pairs example.state example.world)])).
Proof.
  apply (reranker_failure_is_fatal scenario.failing_reranker
           example.state example.world);
    [done|exact example_allocated|reflexivity].
Defined.

Lemma no_scores_is_a_ValueError_witness :
  merge_and_rerank_node scenario.silent_reranker example.state example.world
  = (Raise zero_size_error,
     mkWorld (heap example.world)
             (log example.world ++ [RerankerPredict (pairs example.state example.world)])).
Proof.
  apply (no_scores_is_a_ValueError scenario.silent_reranker
           example.state example.world);
    [done|exact example_allocated|reflexivity].
Defined.

Lemma too_few_scores_fail_after_partial_write_witness :
  ∃ w',
    merge_and_rerank_node scenario.short_reranker example.state example.world
    = (Raise (Exception "IndexError" "index out of range"), w')
    ∧ is_Some (metadata_of w' 1 "crossencoder_score")
    ∧ heap w' !! 2 = heap example.world !! 2.
Proof.
  destruct (too_few_scores_fail_after_partial_write scenario.short_reranker
              example.state example.world [1; 2]%Q)
    as (ns & w' & _ & Hrun & Hin & Hout);
    [exact example_allocated|reflexivity|done|simpl; lia|].
  exists w'. split; [exact Hrun|]. split.
  - destruct (Hin 1) as (x & _ & ->); [|done].
    apply list_elem_of_lookup. by exists 1.
  - apply Hout. change (2 ∉ [0; 1]).
    rewrite !not_elem_of_cons. repeat split; [lia..|apply not_elem_of_nil].
Defined.


Lemma minimum_normalizes_to_zero_witness :
  ∃ normalized x,
    normalized_scores example.scores = ret normalized
    ∧ normalized !! 5 = Some x ∧ (x == 0)%Q.
Proof.
  destruct (minimum_normalizes_to_zero example.scores 0%Q 3%Q)
    as (ns & Hns & Hmin); [reflexivity|reflexivity|reflexivity|].
  destruct (Hmin 5 0%Q) as (x & Hx & H0); [reflexivity|reflexivity|].
  by exists ns, x.
Defined.

Lemma top_document_has_highest_raw_score_witness :
  ∃ out w' top rest,
    merge_and_rerank_node example.reranker_predict example.state example.world
    = (Ok out, w')
    ∧ o_retrieved_documents out = top :: rest.
Proof.
  destruct (top_document_has_highest_raw_score
              example.reranker_predict example.state example.world example.scores)
    as (out & w' & top & rest & i & s & Hrun & Hout & _);
    [done|exact example_allocated|reflexivity|reflexivity|].
  by exists out, w', top, rest.
Defined.

Lemma returned_documents_are_distinct_candidates_witness :
  ∃ out w',
    merge_and_rerank_node example.reranker_predict example.state example.world
    = (Ok out, w')
    ∧ o_retrieved_documents out ⊆ [0; 1; 2; 3; 4; 5]
    ∧ NoDup (o_retrieved_documents out).
Proof.
  destruct (returned_documents_are_distinct_candidates
              example.reranker_predict example.state example.world example.scores)
    as (out & w' & Hrun & Hsub & _ & Hnd);
    [done|exact example_allocated|reflexivity|reflexivity|].
  exists out, w'. split; [exact Hrun|]. split; [exact Hsub|].
  apply Hnd. unfold all_docs. simpl. apply NoDup_ListNoDup.
  repeat constructor; simpl; lia.
Defined.

Lemma vector_candidates_follow_rows_witness :
  ∃ s1 w1,
    semantic_search_node example.collection_query example.state0 example.world0
    = (Ok s1, w1)
    ∧ length (semantic_docs s1) = 3.
Proof.
  destruct (vector_candidates_follow_rows
              example.collection_query example.state0 example.world0
              (mkQueryResult
                 [["a"; "bbb"; "c"]]
                 [[None; Some {["source" := VStr "wpp.pdf"]}; None]]
                 [[(1 # 4)%Q; (1 # 2)%Q; (3 # 2)%Q]])
              ["a"; "bbb"; "c"]
              [None; Some {["source" := VStr "wpp.pdf"]}; None]
              [(1 # 4)%Q; (1 # 2)%Q; (3 # 2)%Q])
    as (s1 & w1 & Hrun & Hlen & _);
    [reflexivity|reflexivity|reflexivity|reflexivity|].
  by exists s1, w1.
Defined.

Lemma vector_score_is_clamped_similarity_witness :
  metadata_of example.world1 0 "vector_score" = Some (VFloat (1 - (1 # 4)))
  ∧ metadata_of example.world1 2 "vector_score" = Some (VInt 0).
Proof.
  split.
  - destruct (vector_score_is_clamped_similarity
                example.collection_query example.state0 example.world0
                example.state1 example.world1 0 0)
      as (results & distances0 & dist & Hq & Hd0 & Hd & Hlt & _);
      [vm_compute; reflexivity|reflexivity|].
    injection Hq as <-. injection Hd0 as <-. injection Hd as <-.
    by apply Hlt.
  - destruct (vector_score_is_clamped_similarity
                example.collection_query example.state0 example.world0
                example.state1 example.world1 2 2)
      as (results & distances0 & dist & Hq & Hd0 & Hd & _ & Hge);
      [vm_compute; reflexivity|reflexivity|].
    injection Hq as <-. injection Hd0 as <-. injection Hd as <-.
    apply Hge. by vm_compute.
Defined.

Lemma lexical_candidates_follow_results_witness :
  ∃ s' w',
    bm25_search_node example.collection_get example.bm25_retriever_invoke
                     example.state1 example.world1 = (Ok s', w')
    ∧ length (bm25_docs s') = 3.
Proof.
  destruct (lexical_candidates_follow_results
              example.collection_get example.bm25_retriever_invoke
              example.state1 example.world1
              (mkGetResult ["a"; "dd"; "eee"; ""; "zz"] [None; None; None; None; None])
              [mkDocument "dd" ∅; mkDocument "eee" ∅; mkDocument "" ∅])
    as (s' & w' & Hrun & Hlen & _);
    [reflexivity|vm_compute; reflexivity|].
  by exists s', w'.
Defined.

Lemma node_returns_only_with_enough_scores_witness :
  ∃ scores,
    example.reranker_predict (pairs example.state example.world) = Ok scores
    ∧ length (all_docs example.state) ≤ length scores.
Proof.
  destruct (node_returns_only_with_enough_scores
              example.reranker_predict example.state example.world
              (mkRetrievalOutputState "q" [1; 4; 3; 0; 2])
              (merge_and_rerank_node example.reranker_predict
                                     example.state example.world).2)
    as [(Hempty & _)|(scores & _ & Hrr & Hlen & _)];
    [exact example_allocated|vm_compute; reflexivity|done|].
  by exists scores.
Defined.

Lemma vector_failure_aborts_subgraph_witness :
  retrieval_app scenario.failing_query example.collection_get
                example.bm25_retriever_invoke example.reranker_predict
                example.state0 example.world0
  = (Raise (Exception "ConnectionError" "chroma unavailable"),
     mkWorld ∅ [CollectionQuery "q" NR_RETRIEVED_DOCS]).
Proof.
  apply (vector_failure_aborts_subgraph
           scenario.failing_query example.collection_get
           example.bm25_retriever_invoke example.reranker_predict
           example.state0 example.world0).
  reflexivity.
Defined.

Lemma lexical_BaseException_is_not_caught_witness :
  ∃ evs,
    bm25_search_node scenario.interrupted_get example.bm25_retriever_invoke
                     example.state1 example.world1
    = (Raise (BaseException "KeyboardInterrupt" ""),
       mkWorld (heap example.world1) (log example.world1 ++ evs)).
Proof.
  destruct (lexical_BaseException_is_not_caught
              scenario.interrupted_get example.bm25_retriever_invoke
              example.state1 example.world1 "KeyboardInterrupt" "")
    as (evs & Hrun & _); [by left|].
  by exists evs.
Defined.

Lemma subgraph_result_is_scored_and_tagged_witness :
  ∃ out w',
    retrieval_app example.collection_query example.collection_get
                  example.bm25_retriever_invoke example.reranker_predict
                  example.state0 example.world0 = (Ok out, w')
    ∧ o_query out = "q"
    ∧ NoDup (o_retrieved_documents out).
Proof.
  set (run := retrieval_app example.collection_query example.collection_get
                example.bm25_retriever_invoke example.reranker_predict
                example.state0 example.world0).
  assert (Hrun : run = (Ok (mkRetrievalOutputState "q" [1; 4; 3; 0; 2]), run.2)).
  { vm_compute. reflexivity. }
  destruct (subgraph_result_is_scored_and_tagged
              example.collection_query example.collection_get
              example.bm25_retriever_invoke example.reranker_predict
              example.state0 example.world0
              (mkRetrievalOutputState "q" [1; 4; 3; 0; 2]) run.2 Hrun)
    as (Hq & _ & Hnd & _).
  exists (mkRetrievalOutputState "q" [1; 4; 3; 0; 2]), run.2.
  split; [exact Hrun|]. split; [exact Hq|exact Hnd].
Defined.

Lemma reranker_called_once_on_whole_batch_witness :
  ∃ out w',
    retrieval_app example.collection_query example.collection_get
                  example.bm25_retriever_invoke example.reranker_predict
                  example.state0 example.world0 = (Ok out, w')
    ∧ log w'
      = [CollectionQuery "q" NR_RETRIEVED_DOCS; CollectionGet;
         BM25Invoke example.corpus NR_RETRIEVED_DOCS "q";
         RerankerPredict [("q", "a"); ("q", "bbb"); ("q", "c");
                          ("q", "dd"); ("q", "eee"); ("q", "")]]
    ∧ length (o_retrieved_documents out) = 5.
Proof.
  destruct (reranker_called_once_on_whole_batch
              example.collection_query example.collection_get
              example.bm25_retriever_invoke example.reranker_predict
              example.state0 example.world0
              (mkQueryResult
                 [["a"; "bbb"; "c"]]
                 [[None; Some {["source" := VStr "wpp.pdf"]}; None]]
                 [[(1 # 4)%Q; (1 # 2)%Q; (3 # 2)%Q]])
              ["a"; "bbb"; "c"]
              [None; Some {["source" := VStr "wpp.pdf"]}; None]
              [(1 # 4)%Q; (1 # 2)%Q; (3 # 2)%Q]
              (mkGetResult ["a"; "dd"; "eee"; ""; "zz"] [None; None; None; None; None])
              [mkDocument "dd" ∅; mkDocument "eee" ∅; mkDocument "" ∅])
    as (out & w' & Hrun & Hlog & Hlen);
    [reflexivity|reflexivity|reflexivity|reflexivity|reflexivity
    |vm_compute; reflexivity|exact example_reranker_aligned
    |intros Hnil; discriminate Hnil|].
  exists out, w'. split; [exact Hrun|]. split.
  - rewrite Hlog. vm_compute. reflexivity.
  - rewrite Hlen. reflexivity.
Defined.

Lemma answer_prompt_joins_ranked_texts_witness :
  main_workflow.generate_answer_node (example.query_ai "DATA_QUESTION") "answer"
                                     scenario.answer_state example.world
  = (Ok (main_workflow.mkOutputState "an answer"),
     mkWorld (heap example.world)
       (log example.world
        ++ [QueryAI "answer"
              ("Evaluate user query: q with context: bbb" +:+ blank_line +:+ "eee")])).
Proof.
  destruct (answer_prompt_joins_ranked_texts
              (example.query_ai "DATA_QUESTION") "answer"
              scenario.answer_state "q" [1; 4] example.world "an answer")
    as [Hrun _];
    [reflexivity|reflexivity|unfold allocated; by repeat constructor|reflexivity|].
  exact Hrun.
Defined.

Lemma data_question_is_answered_from_retrieved_documents_witness :
  ∃ w',
    main_workflow.main_rag_app
      example.collection_query example.collection_get example.bm25_retriever_invoke
      example.reranker_predict (example.query_ai "DATA_QUESTION") "triage" "answer"
      example.input example.world0
    = (Ok (main_workflow.mkInputState
             (Some "What is the weather in Paris?") (Some "DATA_QUESTION")
             (Some [1; 4; 3; 0; 2]) (Some "an answer")), w').
Proof.
  set (run := retrieval_app example.collection_query example.collection_get
                example.bm25_retriever_invoke example.reranker_predict
                (mkRetrievalInputState "What is the weather in Paris?" [] [] [])
                (mkWorld ∅ [QueryAI "triage"
                              "Evaluate user query: What is the weather in Paris?"])).
  assert (Hrun : run = (Ok (mkRetrievalOutputState "What is the weather in Paris?"
                                                   [1; 4; 3; 0; 2]), run.2)).
  { vm_compute. reflexivity. }
  eexists.
  apply (data_question_is_answered_from_retrieved_documents
           example.collection_query example.collection_get
           example.bm25_retriever_invoke example.reranker_predict
           (example.query_ai "DATA_QUESTION") "triage" "answer"
           example.input "What is the weather in Paris?" example.world0
           (mkRetrievalOutputState "What is the weather in Paris?" [1; 4; 3; 0; 2])
           run.2 "an answer");
    [reflexivity|reflexivity|exact Hrun|reflexivity].
Defined.

Lemma triage_failure_is_fatal_witness :
  main_workflow.main_rag_app
    example.collection_query example.collection_get example.bm25_retriever_invoke
    example.reranker_predict scenario.failing_chat "triage" "answer"
    example.input example.world0
  = (Raise (Exception "ResourceExhausted" "quota"),
     mkWorld ∅ [QueryAI "triage" "Evaluate user query: What is the weather in Paris?"]).
Proof.
  apply (triage_failure_is_fatal
           example.collection_query example.collection_get
           example.bm25_retriever_invoke example.reranker_predict
           scenario.failing_chat "triage" "answer"
           example.input "What is the weather in Paris?" example.world0
           (Exception "ResourceExhausted" "quota"));
    reflexivity.
Defined.

Lemma retrieval_failure_leaves_no_answer_witness :
  main_workflow.main_rag_app
    scenario.failing_query example.collection_get example.bm25_retriever_invoke
    example.reranker_predict (example.query_ai "DATA_QUESTION") "triage" "answer"
    example.input example.world0
  = (Raise (Exception "ConnectionError" "chroma unavailable"),
     mkWorld ∅ [QueryAI "triage" "Evaluate user query: What is the weather in Paris?";
                CollectionQuery "What is the weather in Paris?" NR_RETRIEVED_DOCS]).
Proof.
  apply (retrieval_failure_leaves_no_answer
           scenario.failing_query example.collection_get
           example.bm25_retriever_invoke example.reranker_predict
           (example.query_ai "DATA_QUESTION") "triage" "answer"
           example.input "What is the weather in Paris?" example.world0);
    [reflexivity|reflexivity|vm_compute; reflexivity].
Defined.

Lemma missing_query_is_a_KeyError_witness :
  main_workflow.main_rag_app
    example.collection_query example.collection_get example.bm25_retriever_invoke
    example.reranker_predict (example.query_ai "DATA_QUESTION") "triage" "answer"
    scenario.no_query example.world0
  = (Raise (Exception "KeyError" "query"), example.world0).
Proof.
  apply (missing_query_is_a_KeyError
           example.collection_query example.collection_get
           example.bm25_retriever_invoke example.reranker_predict
           (example.query_ai "DATA_QUESTION") "triage" "answer"
           scenario.no_query example.world0).
  reflexivity.
Defined.

Lemma run_visits_at_most_three_nodes_witness :
  main_workflow.run_from
    (main_workflow.workflow
       example.collection_query example.collection_get example.bm25_retriever_invoke
       example.reranker_predict (example.query_ai "DATA_QUESTION") "triage" "answer")
    main_workflow.recursion_limit "triage" example.input example.world0
  = main_workflow.run_from
      (main_workflow.workflow
         example.collection_query example.collection_get example.bm25_retriever_invoke
         example.reranker_predict (example.query_ai "DATA_QUESTION") "triage" "answer")
      3 "triage" example.input example.world0.
Proof.
  apply (run_visits_at_most_three_nodes
           example.collection_query example.collection_get
           example.bm25_retriever_invoke example.reranker_predict
           (example.query_ai "DATA_QUESTION") "triage" "answer"
           main_workflow.recursion_limit example.input example.world0).
  unfold main_workflow.recursion_limit. lia.
Defined.


Lemma query_ai_strips_surrounding_whitespace_witness :
  ∃ reply before after,
    query_gemini.query_ai scenario.chat_invoke "triage" "Evaluate user query: First?"
    = Ok reply
    ∧ "  OUT_OF_SCOPE" +:+ newline = before +:+ reply +:+ after
    ∧ str_forall isspace before = true
    ∧ str_forall isspace after = true
    ∧ (∀ c, first_char reply = Some c → isspace c = false)
    ∧ (∀ c, last_char reply = Some c → isspace c = false).
Proof.
  apply (query_ai_strips_surrounding_whitespace
           scenario.chat_invoke "triage" "Evaluate user query: First?"
           ("  OUT_OF_SCOPE" +:+ newline)).
  reflexivity.
Defined.

Lemma chunk_ids_are_unique_witness :
  chunk_documents.ids "report" ["x"; "y"] !! 1 = Some "report_chunk_1"
  ∧ chunk_documents.ids "report" ["u"; "v"; "w"] !! 1 = Some "report_chunk_1"
  ∧ "report" = "report" ∧ 1 = 1.
Proof.
  assert (H1 : chunk_documents.ids "report" ["x"; "y"] !! 1 = Some "report_chunk_1")
    by (vm_compute; reflexivity).
  assert (H2 : chunk_documents.ids "report" ["u"; "v"; "w"] !! 1 = Some "report_chunk_1")
    by (vm_compute; reflexivity).
  split; [exact H1|]. split; [exact H2|].
  exact (chunk_ids_are_unique "report" "report" ["x"; "y"] ["u"; "v"; "w"] 1 1
           "report_chunk_1" H1 H2).
Defined.

Lemma padded_out_of_scope_label_still_routes_witness :
  main.ask example.collection_query example.collection_get
           example.bm25_retriever_invoke example.reranker_predict
           scenario.chat_invoke "triage" "answer" 1 "First?" example.world0
  = (Ok tt,
     mkWorld ∅
       [QueryAI "triage" "Evaluate user query: First?";
        PrintLine ("Q" +:+ pretty 1 +:+ ": " +:+ "First?");
        PrintLine ("A" +:+ pretty 1 +:+ ": " +:+ "Your query is out of scope."
                   +:+ newline +:+ str_repeat "-" 60 +:+ newline)]).
Proof.
  apply (padded_out_of_scope_label_still_routes
           example.collection_query example.collection_get
           example.bm25_retriever_invoke example.reranker_predict
           scenario.chat_invoke "triage" "answer" 1 "First?" example.world0
           "  " newline);
    reflexivity.
Defined.

Lemma blank_reply_runs_no_question_witness :
  main.script example.collection_query example.collection_get
              example.bm25_retriever_invoke example.reranker_predict
              scenario.blank_chat "triage" "answer" "questions" "five questions"
              example.world0
  = (Ok tt,
     mkWorld ∅
       [QueryAI "questions" "five questions";
        PrintLine (newline +:+ "=== Running RAG Workflow on Generated Questions ==="
                   +:+ newline)]).
Proof.
  apply (blank_reply_runs_no_question
           example.collection_query example.collection_get
           example.bm25_retriever_invoke example.reranker_predict
           scenario.blank_chat "triage" "answer" "questions" "five questions"
           example.world0 (" " +:+ newline));
    reflexivity.
Defined.

Lemma first_failing_question_stops_script_witness :
  ∃ w2,
    main.script example.collection_query example.collection_get
                example.bm25_retriever_invoke example.reranker_predict
                scenario.chat_invoke "triage" "answer" "questions" "five questions"
                example.world0
    = (Raise (Exception "ResourceExhausted" "quota"), w2).
Proof.
  set (first := for_each (enumerate_from 1 ["First?"])
                  (λ '(idx, question),
                     main.ask example.collection_query example.collection_get
                              example.bm25_retriever_invoke example.reranker_predict
                              scenario.chat_invoke "triage" "answer" idx question)
                  (mkWorld ∅
                     [QueryAI "questions" "five questions";
                      PrintLine (newline
                                 +:+ "=== Running RAG Workflow on Generated Questions ==="
                                 +:+ newline)])).
  assert (Hfirst : first = (Ok tt, first.2)) by (vm_compute; reflexivity).
  set (second := main.main_rag_app
                   example.collection_query example.collection_get
                   example.bm25_retriever_invoke example.reranker_predict
                   scenario.chat_invoke "triage" "answer"
                   (main_workflow.mkInputState (Some "Second?") None None None)
                   first.2).
  assert (Hsecond : second = (Raise (Exception "ResourceExhausted" "quota"), second.2))
    by (vm_compute; reflexivity).
  exists second.2.
  apply (first_failing_question_stops_script
           example.collection_query example.collection_get
           example.bm25_retriever_invoke example.reranker_predict
           scenario.chat_invoke "triage" "answer" "questions" "five questions"
           example.world0 ("1. First?" +:+ newline +:+ "2. Second?")
           ["First?"] "Second?" [] first.2);
    [vm_compute; reflexivity|vm_compute; reflexivity|exact Hfirst|exact Hsecond].
Defined.

